(** * penalty-pose: pose-triggered penalty kicks and a keyboard-to-gamepad mapper

    A model of the three programs of the repository:
    - [penalty_kick.py]      (module [PenaltyKick]),
    - [pose_penalty_kick.py] (module [PosePenaltyKick]),
    - [xbox.py]              (module [Xbox]),
    over a common model of Python exceptions and of the virtual
    controller ([vgamepad.VX360Gamepad]).

    Conventions.  Python floats that hold times, coordinates and
    confidences are modelled by rationals [Q] (exact arithmetic); the
    stick accumulators of [xbox.py] only ever hold small integers and are
    modelled by [Z].  A Python [str] is modelled by the [string] of its
    UTF-8 encoding.  A method of the controller may raise: the device
    carries the list of its future outcomes. *)

From Stdlib Require Import ZArith QArith Qabs Lia Lqa List String Ascii Bool.
From stdpp Require Import base list gmap sets strings.

Local Open Scope Z_scope.

(** * Python exceptions and a state-and-exception monad *)

Inductive exn : Type :=
| Exception        (* any subclass of [Exception] *)
| IndexError       (* a subclass of [Exception] raised by indexing *)
| KeyboardInterrupt.

(** [except Exception] catches everything but [KeyboardInterrupt]. *)
Definition is_Exception (e : exn) : bool :=
  match e with
  | KeyboardInterrupt => false
  | _ => true
  end.

Definition is_KeyboardInterrupt (e : exn) : bool :=
  match e with
  | KeyboardInterrupt => true
  | _ => false
  end.

Definition any_exn (e : exn) : bool := true.

Inductive outcome (A : Type) : Type :=
| Returned (a : A)
| Raised (e : exn).
Arguments Returned {A} a.
Arguments Raised {A} e.

Definition M (S A : Type) : Type := S -> outcome A * S.

Definition ret {S A} (a : A) : M S A := fun s => (Returned a, s).

Definition bind {S A B} (m : M S A) (k : A -> M S B) : M S B :=
  fun s =>
    match m s with
    | (Returned a, s') => k a s'
    | (Raised e, s') => (Raised e, s')
    end.

Definition get {S} : M S S := fun s => (Returned s, s).

Definition modify {S} (f : S -> S) : M S unit := fun s => (Returned tt, f s).

(** [try: m  except <class>: h], where [catches] tells which exceptions
    the class covers: [is_Exception] for [except Exception],
    [is_KeyboardInterrupt] for [except KeyboardInterrupt] and [any_exn]
    for a bare [except:]. *)
Definition try_except {S A} (catches : exn -> bool) (m : M S A) (h : M S A) : M S A :=
  fun s =>
    match m s with
    | (Returned a, s') => (Returned a, s')
    | (Raised e, s') => if catches e then h s' else (Raised e, s')
    end.

(** [try: m  finally: f]: [f] runs in every case; the exception of [m]
    is raised again after it, unless [f] itself raises. *)
Definition try_finally {S A} (m : M S A) (f : M S unit) : M S A :=
  fun s =>
    match m s with
    | (r, s') =>
        match f s' with
        | (Returned _, s'') => (r, s'')
        | (Raised e, s'') => (Raised e, s'')
        end
    end.

(** [when b: m] *)
Definition when {S} (b : bool) (m : M S unit) : M S unit :=
  if b then m else ret tt.

Declare Scope py_scope.
Delimit Scope py_scope with py.
Notation "'let*' x ':=' m 'in' k" := (bind m (fun x => k))
  (at level 10, x name, m at level 100, k at level 200) : py_scope.

(** * The virtual controller *)

Inductive XUSB_BUTTON : Type :=
| XUSB_GAMEPAD_START
| XUSB_GAMEPAD_BACK
| XUSB_GAMEPAD_LEFT_SHOULDER
| XUSB_GAMEPAD_RIGHT_SHOULDER
| XUSB_GAMEPAD_A
| XUSB_GAMEPAD_B
| XUSB_GAMEPAD_X
| XUSB_GAMEPAD_Y.

(** The methods of [VX360Gamepad] that the programs call. *)
Inductive command : Type :=
| left_joystick_float (x_value_float y_value_float : Q)
| right_joystick_float (x_value_float y_value_float : Q)
| press_button (button : XUSB_BUTTON)
| release_button (button : XUSB_BUTTON)
| update.

(** [issued] lists every method call made so far, oldest first, whether
    it returned or raised; [faults] tells for each coming call whether it
    raises ([true]); once the list is used up no call raises. *)
Record VX360Gamepad : Type := mkGamepad {
  issued : list command;
  faults : list bool
}.

Definition new_gamepad (fs : list bool) : VX360Gamepad :=
  {| issued := []; faults := fs |}.

Definition call (c : command) (g : VX360Gamepad) : outcome unit * VX360Gamepad :=
  match faults g with
  | true :: fs => (Raised Exception, {| issued := issued g ++ [c]; faults := fs |})
  | false :: fs => (Returned tt, {| issued := issued g ++ [c]; faults := fs |})
  | [] => (Returned tt, {| issued := issued g ++ [c]; faults := [] |})
  end.

(** * xbox.py: keyboard keys to controller buttons and sticks *)

Module Xbox.

(** A [pynput] key: a member [Key.<name>] of the enumeration of special
    keys, or a [KeyCode] with its character (if any) and its printed
    form [str(key)]. *)
Inductive Key : Type :=
| SpecialKey (name : string)
| KeyCode (char : option string) (str : string).

Definition str_of (key : Key) : string :=
  match key with
  | SpecialKey name => "Key." ++ name
  | KeyCode _ str => str
  end.

(** ** [str.lower]

    A Python [str] is a sequence of code points; a [string] here holds
    its UTF-8 encoding.  [lower] follows CPython 3.11 (Unicode 14.0):
    every code point is replaced by its full lower-case mapping, and the
    capital sigma by the final or the medial small sigma according to the
    cased letters around it. *)

(** The code points whose lower-case mapping is another single code
    point: those of [lo .. hi] go to [target .. target + (hi - lo)]. *)
Definition lower_shifts : list (N * N * N) :=
  [
    (65, 90, 97); (192, 214, 224); (216, 222, 248); (376, 376, 255);
    (385, 385, 595); (390, 390, 596); (391, 391, 392); (393, 394, 598);
    (395, 395, 396); (398, 398, 477); (399, 399, 601); (400, 400, 603);
    (401, 401, 402); (403, 403, 608); (404, 404, 611); (406, 406, 617);
    (407, 407, 616); (408, 408, 409); (412, 412, 623); (413, 413, 626);
    (415, 415, 629); (422, 422, 640); (423, 423, 424); (425, 425, 643);
    (428, 428, 429); (430, 430, 648); (431, 431, 432); (433, 434, 650);
    (439, 439, 658); (440, 440, 441); (444, 444, 445); (452, 452, 454);
    (453, 453, 454); (455, 455, 457); (456, 456, 457); (458, 458, 460);
    (497, 497, 499); (502, 502, 405); (503, 503, 447); (544, 544, 414);
    (570, 570, 11365); (571, 571, 572); (573, 573, 410); (574, 574, 11366);
    (577, 577, 578); (579, 579, 384); (580, 580, 649); (581, 581, 652);
    (886, 886, 887); (895, 895, 1011); (902, 902, 940); (904, 906, 941);
    (908, 908, 972); (910, 911, 973); (913, 929, 945); (931, 939, 963);
    (975, 975, 983); (1012, 1012, 952); (1015, 1015, 1016); (1017, 1017, 1010);
    (1018, 1018, 1019); (1021, 1023, 891); (1024, 1039, 1104); (1040, 1071, 1072);
    (1216, 1216, 1231); (1329, 1366, 1377); (4256, 4293, 11520); (4295, 4295, 11559);
    (4301, 4301, 11565); (5024, 5103, 43888); (5104, 5109, 5112); (7312, 7354, 4304);
    (7357, 7359, 4349); (7838, 7838, 223); (7944, 7951, 7936); (7960, 7965, 7952);
    (7976, 7983, 7968); (7992, 7999, 7984); (8008, 8013, 8000); (8025, 8025, 8017);
    (8027, 8027, 8019); (8029, 8029, 8021); (8031, 8031, 8023); (8040, 8047, 8032);
    (8072, 8079, 8064); (8088, 8095, 8080); (8104, 8111, 8096); (8120, 8121, 8112);
    (8122, 8123, 8048); (8124, 8124, 8115); (8136, 8139, 8050); (8140, 8140, 8131);
    (8152, 8153, 8144); (8154, 8155, 8054); (8168, 8169, 8160); (8170, 8171, 8058);
    (8172, 8172, 8165); (8184, 8185, 8056); (8186, 8187, 8060); (8188, 8188, 8179);
    (8486, 8486, 969); (8490, 8490, 107); (8491, 8491, 229); (8498, 8498, 8526);
    (8544, 8559, 8560); (8579, 8579, 8580); (9398, 9423, 9424); (11264, 11311, 11312);
    (11360, 11360, 11361); (11362, 11362, 619); (11363, 11363, 7549); (11364, 11364, 637);
    (11373, 11373, 593); (11374, 11374, 625); (11375, 11375, 592); (11376, 11376, 594);
    (11378, 11378, 11379); (11381, 11381, 11382); (11390, 11391, 575); (11506, 11506, 11507);
    (42877, 42877, 7545); (42891, 42891, 42892); (42893, 42893, 613); (42922, 42922, 614);
    (42923, 42923, 604); (42924, 42924, 609); (42925, 42925, 620); (42926, 42926, 618);
    (42928, 42928, 670); (42929, 42929, 647); (42930, 42930, 669); (42931, 42931, 43859);
    (42948, 42948, 42900); (42949, 42949, 642); (42950, 42950, 7566); (42960, 42960, 42961);
    (42997, 42997, 42998); (65313, 65338, 65345); (66560, 66599, 66600); (66736, 66771, 66776);
    (66928, 66938, 66967); (66940, 66954, 66979); (66956, 66962, 66995); (66964, 66965, 67003);
    (68736, 68786, 68800); (71840, 71871, 71872); (93760, 93791, 93792); (125184, 125217, 125218)
  ]%N.

(** Runs in which capital and small letter alternate: the code points at
    an even distance from [lo] go to their successor. *)
Definition lower_alternating : list (N * N) :=
  [
    (256, 302); (306, 310); (313, 327); (330, 374); (377, 381); (386, 388);
    (416, 420); (435, 437); (459, 475); (478, 494); (498, 500); (504, 542);
    (546, 562); (582, 590); (880, 882); (984, 1006); (1120, 1152); (1162, 1214);
    (1217, 1229); (1232, 1326); (7680, 7828); (7840, 7934); (11367, 11371); (11392, 11490);
    (11499, 11501); (42560, 42604); (42624, 42650); (42786, 42798); (42802, 42862); (42873, 42875);
    (42878, 42886); (42896, 42898); (42902, 42920); (42932, 42946); (42951, 42953); (42966, 42968)
  ]%N.

(** The code points with the property [Cased]. *)
Definition cased_ranges : list (N * N) :=
  [
    (65, 90); (97, 122); (170, 170); (181, 181); (186, 186); (192, 214);
    (216, 246); (248, 442); (444, 447); (452, 659); (661, 696); (704, 705);
    (736, 740); (837, 837); (880, 883); (886, 887); (890, 893); (895, 895);
    (902, 902); (904, 906); (908, 908); (910, 929); (931, 1013); (1015, 1153);
    (1162, 1327); (1329, 1366); (1376, 1416); (4256, 4293); (4295, 4295); (4301, 4301);
    (4304, 4346); (4349, 4351); (5024, 5109); (5112, 5117); (7296, 7304); (7312, 7354);
    (7357, 7359); (7424, 7615); (7680, 7957); (7960, 7965); (7968, 8005); (8008, 8013);
    (8016, 8023); (8025, 8025); (8027, 8027); (8029, 8029); (8031, 8061); (8064, 8116);
    (8118, 8124); (8126, 8126); (8130, 8132); (8134, 8140); (8144, 8147); (8150, 8155);
    (8160, 8172); (8178, 8180); (8182, 8188); (8305, 8305); (8319, 8319); (8336, 8348);
    (8450, 8450); (8455, 8455); (8458, 8467); (8469, 8469); (8473, 8477); (8484, 8484);
    (8486, 8486); (8488, 8488); (8490, 8493); (8495, 8500); (8505, 8505); (8508, 8511);
    (8517, 8521); (8526, 8526); (8544, 8575); (8579, 8580); (9398, 9449); (11264, 11492);
    (11499, 11502); (11506, 11507); (11520, 11557); (11559, 11559); (11565, 11565); (42560, 42605);
    (42624, 42653); (42786, 42887); (42891, 42894); (42896, 42954); (42960, 42961); (42963, 42963);
    (42965, 42969); (42997, 42998); (43000, 43002); (43824, 43866); (43868, 43880); (43888, 43967);
    (64256, 64262); (64275, 64279); (65313, 65338); (65345, 65370); (66560, 66639); (66736, 66771);
    (66776, 66811); (66928, 66938); (66940, 66954); (66956, 66962); (66964, 66965); (66967, 66977);
    (66979, 66993); (66995, 67001); (67003, 67004); (67456, 67456); (67459, 67461); (67463, 67504);
    (67506, 67514); (68736, 68786); (68800, 68850); (71840, 71903); (93760, 93823); (119808, 119892);
    (119894, 119964); (119966, 119967); (119970, 119970); (119973, 119974); (119977, 119980); (119982, 119993);
    (119995, 119995); (119997, 120003); (120005, 120069); (120071, 120074); (120077, 120084); (120086, 120092);
    (120094, 120121); (120123, 120126); (120128, 120132); (120134, 120134); (120138, 120144); (120146, 120485);
    (120488, 120512); (120514, 120538); (120540, 120570); (120572, 120596); (120598, 120628); (120630, 120654);
    (120656, 120686); (120688, 120712); (120714, 120744); (120746, 120770); (120772, 120779); (122624, 122633);
    (122635, 122654); (125184, 125251); (127280, 127305); (127312, 127337); (127344, 127369)
  ]%N.

(** The code points with the property [Case_Ignorable]. *)
Definition case_ignorable_ranges : list (N * N) :=
  [
    (39, 39); (46, 46); (58, 58); (94, 94); (96, 96); (168, 168);
    (173, 173); (175, 175); (180, 180); (183, 184); (688, 879); (884, 885);
    (890, 890); (900, 901); (903, 903); (1155, 1161); (1369, 1369); (1375, 1375);
    (1425, 1469); (1471, 1471); (1473, 1474); (1476, 1477); (1479, 1479); (1524, 1524);
    (1536, 1541); (1552, 1562); (1564, 1564); (1600, 1600); (1611, 1631); (1648, 1648);
    (1750, 1757); (1759, 1768); (1770, 1773); (1807, 1807); (1809, 1809); (1840, 1866);
    (1958, 1968); (2027, 2037); (2042, 2042); (2045, 2045); (2070, 2093); (2137, 2139);
    (2184, 2184); (2192, 2193); (2200, 2207); (2249, 2306); (2362, 2362); (2364, 2364);
    (2369, 2376); (2381, 2381); (2385, 2391); (2402, 2403); (2417, 2417); (2433, 2433);
    (2492, 2492); (2497, 2500); (2509, 2509); (2530, 2531); (2558, 2558); (2561, 2562);
    (2620, 2620); (2625, 2626); (2631, 2632); (2635, 2637); (2641, 2641); (2672, 2673);
    (2677, 2677); (2689, 2690); (2748, 2748); (2753, 2757); (2759, 2760); (2765, 2765);
    (2786, 2787); (2810, 2815); (2817, 2817); (2876, 2876); (2879, 2879); (2881, 2884);
    (2893, 2893); (2901, 2902); (2914, 2915); (2946, 2946); (3008, 3008); (3021, 3021);
    (3072, 3072); (3076, 3076); (3132, 3132); (3134, 3136); (3142, 3144); (3146, 3149);
    (3157, 3158); (3170, 3171); (3201, 3201); (3260, 3260); (3263, 3263); (3270, 3270);
    (3276, 3277); (3298, 3299); (3328, 3329); (3387, 3388); (3393, 3396); (3405, 3405);
    (3426, 3427); (3457, 3457); (3530, 3530); (3538, 3540); (3542, 3542); (3633, 3633);
    (3636, 3642); (3654, 3662); (3761, 3761); (3764, 3772); (3782, 3782); (3784, 3789);
    (3864, 3865); (3893, 3893); (3895, 3895); (3897, 3897); (3953, 3966); (3968, 3972);
    (3974, 3975); (3981, 3991); (3993, 4028); (4038, 4038); (4141, 4144); (4146, 4151);
    (4153, 4154); (4157, 4158); (4184, 4185); (4190, 4192); (4209, 4212); (4226, 4226);
    (4229, 4230); (4237, 4237); (4253, 4253); (4348, 4348); (4957, 4959); (5906, 5908);
    (5938, 5939); (5970, 5971); (6002, 6003); (6068, 6069); (6071, 6077); (6086, 6086);
    (6089, 6099); (6103, 6103); (6109, 6109); (6155, 6159); (6211, 6211); (6277, 6278);
    (6313, 6313); (6432, 6434); (6439, 6440); (6450, 6450); (6457, 6459); (6679, 6680);
    (6683, 6683); (6742, 6742); (6744, 6750); (6752, 6752); (6754, 6754); (6757, 6764);
    (6771, 6780); (6783, 6783); (6823, 6823); (6832, 6862); (6912, 6915); (6964, 6964);
    (6966, 6970); (6972, 6972); (6978, 6978); (7019, 7027); (7040, 7041); (7074, 7077);
    (7080, 7081); (7083, 7085); (7142, 7142); (7144, 7145); (7149, 7149); (7151, 7153);
    (7212, 7219); (7222, 7223); (7288, 7293); (7376, 7378); (7380, 7392); (7394, 7400);
    (7405, 7405); (7412, 7412); (7416, 7417); (7468, 7530); (7544, 7544); (7579, 7679);
    (8125, 8125); (8127, 8129); (8141, 8143); (8157, 8159); (8173, 8175); (8189, 8190);
    (8203, 8207); (8216, 8217); (8228, 8228); (8231, 8231); (8234, 8238); (8288, 8292);
    (8294, 8303); (8305, 8305); (8319, 8319); (8336, 8348); (8400, 8432); (11388, 11389);
    (11503, 11505); (11631, 11631); (11647, 11647); (11744, 11775); (11823, 11823); (12293, 12293);
    (12330, 12333); (12337, 12341); (12347, 12347); (12441, 12446); (12540, 12542); (40981, 40981);
    (42232, 42237); (42508, 42508); (42607, 42610); (42612, 42621); (42623, 42623); (42652, 42655);
    (42736, 42737); (42752, 42785); (42864, 42864); (42888, 42890); (42994, 42996); (43000, 43001);
    (43010, 43010); (43014, 43014); (43019, 43019); (43045, 43046); (43052, 43052); (43204, 43205);
    (43232, 43249); (43263, 43263); (43302, 43309); (43335, 43345); (43392, 43394); (43443, 43443);
    (43446, 43449); (43452, 43453); (43471, 43471); (43493, 43494); (43561, 43566); (43569, 43570);
    (43573, 43574); (43587, 43587); (43596, 43596); (43632, 43632); (43644, 43644); (43696, 43696);
    (43698, 43700); (43703, 43704); (43710, 43711); (43713, 43713); (43741, 43741); (43756, 43757);
    (43763, 43764); (43766, 43766); (43867, 43871); (43881, 43883); (44005, 44005); (44008, 44008);
    (44013, 44013); (64286, 64286); (64434, 64450); (65024, 65039); (65043, 65043); (65056, 65071);
    (65106, 65106); (65109, 65109); (65279, 65279); (65287, 65287); (65294, 65294); (65306, 65306);
    (65342, 65342); (65344, 65344); (65392, 65392); (65438, 65439); (65507, 65507); (65529, 65531);
    (66045, 66045); (66272, 66272); (66422, 66426); (67456, 67461); (67463, 67504); (67506, 67514);
    (68097, 68099); (68101, 68102); (68108, 68111); (68152, 68154); (68159, 68159); (68325, 68326);
    (68900, 68903); (69291, 69292); (69446, 69456); (69506, 69509); (69633, 69633); (69688, 69702);
    (69744, 69744); (69747, 69748); (69759, 69761); (69811, 69814); (69817, 69818); (69821, 69821);
    (69826, 69826); (69837, 69837); (69888, 69890); (69927, 69931); (69933, 69940); (70003, 70003);
    (70016, 70017); (70070, 70078); (70089, 70092); (70095, 70095); (70191, 70193); (70196, 70196);
    (70198, 70199); (70206, 70206); (70367, 70367); (70371, 70378); (70400, 70401); (70459, 70460);
    (70464, 70464); (70502, 70508); (70512, 70516); (70712, 70719); (70722, 70724); (70726, 70726);
    (70750, 70750); (70835, 70840); (70842, 70842); (70847, 70848); (70850, 70851); (71090, 71093);
    (71100, 71101); (71103, 71104); (71132, 71133); (71219, 71226); (71229, 71229); (71231, 71232);
    (71339, 71339); (71341, 71341); (71344, 71349); (71351, 71351); (71453, 71455); (71458, 71461);
    (71463, 71467); (71727, 71735); (71737, 71738); (71995, 71996); (71998, 71998); (72003, 72003);
    (72148, 72151); (72154, 72155); (72160, 72160); (72193, 72202); (72243, 72248); (72251, 72254);
    (72263, 72263); (72273, 72278); (72281, 72283); (72330, 72342); (72344, 72345); (72752, 72758);
    (72760, 72765); (72767, 72767); (72850, 72871); (72874, 72880); (72882, 72883); (72885, 72886);
    (73009, 73014); (73018, 73018); (73020, 73021); (73023, 73029); (73031, 73031); (73104, 73105);
    (73109, 73109); (73111, 73111); (73459, 73460); (78896, 78904); (92912, 92916); (92976, 92982);
    (92992, 92995); (94031, 94031); (94095, 94111); (94176, 94177); (94179, 94180); (110576, 110579);
    (110581, 110587); (110589, 110590); (113821, 113822); (113824, 113827); (118528, 118573); (118576, 118598);
    (119143, 119145); (119155, 119170); (119173, 119179); (119210, 119213); (119362, 119364); (121344, 121398);
    (121403, 121452); (121461, 121461); (121476, 121476); (121499, 121503); (121505, 121519); (122880, 122886);
    (122888, 122904); (122907, 122913); (122915, 122916); (122918, 122922); (123184, 123197); (123566, 123566);
    (123628, 123631); (125136, 125142); (125252, 125259); (127995, 127999); (917505, 917505); (917536, 917631);
    (917760, 917999)
  ]%N.

Definition in_ranges (c : N) (ranges : list (N * N)) : bool :=
  existsb (fun r => (fst r <=? c)%N && (c <=? snd r)%N) ranges.

Definition cased (c : N) : bool := in_ranges c cased_ranges.

Definition case_ignorable (c : N) : bool := in_ranges c case_ignorable_ranges.

(** [_PyUnicode_ToLowerFull] *)
Definition to_lower_full (c : N) : list N :=
  if (c =? 304)%N then [105; 775]%N
  else
    match List.find (fun r => (fst (fst r) <=? c)%N && (c <=? snd (fst r))%N)
            lower_shifts with
    | Some r => [snd r + (c - fst (fst r))]%N
    | None =>
        if existsb (fun r => (fst r <=? c)%N && (c <=? snd r)%N
                             && N.even (c - fst r))
             lower_alternating
        then [c + 1]%N else [c]
    end.

Fixpoint skip_case_ignorable (l : list N) : list N :=
  match l with
  | c :: r => if case_ignorable c then skip_case_ignorable r else l
  | [] => []
  end.

(** The capital sigma is final when a cased letter comes before it and
    none after it, case-ignorable code points apart; [before] holds the
    code points before it, the nearest first. *)
Definition final_sigma (before after : list N) : bool :=
  match skip_case_ignorable before with
  | c :: _ =>
      cased c
      && match skip_case_ignorable after with
         | c' :: _ => negb (cased c')
         | [] => true
         end
  | [] => false
  end.

Definition lower_ucs4 (before : list N) (c : N) (after : list N) : list N :=
  if (c =? 931)%N then [if final_sigma before after then 962 else 963]%N
  else to_lower_full c.

Fixpoint do_lower (before l : list N) : list N :=
  match l with
  | c :: after => lower_ucs4 before c after ++ do_lower (c :: before) after
  | [] => []
  end.

(** The code points that UTF-8 encodes. *)
Definition scalar (c : N) : bool :=
  (c <? 1114112)%N && negb ((55296 <=? c)%N && (c <=? 57343)%N).

(** A code point that [lower] leaves as it is, wherever it stands. *)
Definition settled (c : N) : bool :=
  scalar c && negb (c =? 931)%N
  && match to_lower_full c with
     | [c'] => (c' =? c)%N
     | _ => false
     end.

(** The code points from [lo] to [hi]. *)
Definition points (lo hi : N) : list N :=
  map (fun k => (lo + N.of_nat k)%N) (seq 0 (S (N.to_nat (hi - lo)))).

Definition continuation (b : N) : bool := (128 <=? b)%N && (b <=? 191)%N.

(** The code points of a UTF-8 string, if it is one. *)
Fixpoint utf8_decode (s : string) : option (list N) :=
  match s with
  | EmptyString => Some []
  | String a0 r0 =>
      let b0 := N_of_ascii a0 in
      if (b0 <? 128)%N then option_map (cons b0) (utf8_decode r0)
      else
        match r0 with
        | EmptyString => None
        | String a1 r1 =>
            let b1 := N_of_ascii a1 in
            if (b0 <? 224)%N then
              if (194 <=? b0)%N && continuation b1
              then option_map (cons ((b0 - 192) * 64 + (b1 - 128))%N) (utf8_decode r1)
              else None
            else
              match r1 with
              | EmptyString => None
              | String a2 r2 =>
                  let b2 := N_of_ascii a2 in
                  if (b0 <? 240)%N then
                    let c := ((b0 - 224) * 4096 + (b1 - 128) * 64 + (b2 - 128))%N in
                    if continuation b1 && continuation b2 && (2048 <=? c)%N
                       && negb ((55296 <=? c)%N && (c <=? 57343)%N)
                    then option_map (cons c) (utf8_decode r2)
                    else None
                  else
                    match r2 with
                    | EmptyString => None
                    | String a3 r3 =>
                        let b3 := N_of_ascii a3 in
                        let c := ((b0 - 240) * 262144 + (b1 - 128) * 4096
                                  + (b2 - 128) * 64 + (b3 - 128))%N in
                        if (b0 <? 245)%N && continuation b1 && continuation b2
                           && continuation b3
                           && (65536 <=? c)%N && (c <=? 1114111)%N
                        then option_map (cons c) (utf8_decode r3)
                        else None
                    end
              end
        end
  end.

Definition utf8_encode_one (c : N) (s : string) : string :=
  if (c <? 128)%N then String (ascii_of_N c) s
  else if (c <? 2048)%N then
    String (ascii_of_N (192 + c / 64))
      (String (ascii_of_N (128 + c mod 64)) s)
  else if (c <? 65536)%N then
    String (ascii_of_N (224 + c / 64 / 64))
      (String (ascii_of_N (128 + (c / 64) mod 64))
         (String (ascii_of_N (128 + c mod 64)) s))
  else
    String (ascii_of_N (240 + c / 64 / 64 / 64))
      (String (ascii_of_N (128 + (c / 64 / 64) mod 64))
         (String (ascii_of_N (128 + (c / 64) mod 64))
            (String (ascii_of_N (128 + c mod 64)) s))).

Definition utf8_encode (l : list N) : string :=
  foldr utf8_encode_one EmptyString l.

Definition is_ascii (s : string) : bool :=
  forallb (fun a => (N_of_ascii a <? 128)%N) (list_ascii_of_string s).

(** [Py_TOLOWER], the lower-case mapping of the ASCII letters. *)
Definition lower_ascii (c : ascii) : ascii :=
  let n := nat_of_ascii c in
  if ((65 <=? n)%nat && (n <=? 90)%nat)%bool then ascii_of_nat (n + 32) else c.

Fixpoint ascii_lower (s : string) : string :=
  match s with
  | EmptyString => EmptyString
  | String c r => String (lower_ascii c) (ascii_lower r)
  end.

(** [s.lower()]: an ASCII string is mapped byte by byte, any other
    through its code points.  A [string] that is not UTF-8 stands for no
    [str] and is left as it is. *)
Definition lower (s : string) : string :=
  if is_ascii s then ascii_lower s
  else
    match utf8_decode s with
    | Some l => utf8_encode (do_lower [] l)
    | None => s
    end.

(** Quotient and remainder of a division by 64, and the comparisons of a
    goal, for the arithmetic of the encoding. *)
Ltac split64 c q r :=
  let H := fresh "H" in
  let Hr := fresh "Hr" in
  pose proof (N.div_mod c 64 ltac:(discriminate)) as H;
  pose proof (N.mod_lt c 64 ltac:(discriminate)) as Hr;
  set (q := (c / 64)%N) in *; set (r := (c mod 64)%N) in *;
  clearbody q r.

Ltac split_tests :=
  repeat match goal with
         | |- context [(?a <? ?b)%N] => destruct (N.ltb_spec a b); try lia
         | |- context [(?a <=? ?b)%N] => destruct (N.leb_spec a b); try lia
         end.

(** [s.replace('Key.', '')] *)
Fixpoint replace_Key_dot (s : string) : string :=
  match s with
  | String "K"%char (String "e"%char (String "y"%char (String "."%char r))) =>
      replace_Key_dot r
  | String c r => String c (replace_Key_dot r)
  | EmptyString => EmptyString
  end.

Definition normalize_key (key : Key) : option string :=
  match key with
  | KeyCode (Some (String c r)) _ => Some (lower (String c r))
  | _ => Some (lower (replace_Key_dot (str_of key)))
  end.

Definition key_mappings : gmap string XUSB_BUTTON :=
  list_to_map
    [ ("l", XUSB_GAMEPAD_X);
      ("k", XUSB_GAMEPAD_A);
      ("j", XUSB_GAMEPAD_B);
      ("i", XUSB_GAMEPAD_Y);
      ("space", XUSB_GAMEPAD_RIGHT_SHOULDER);
      ("shift", XUSB_GAMEPAD_LEFT_SHOULDER);
      ("enter", XUSB_GAMEPAD_START);
      ("tab", XUSB_GAMEPAD_BACK) ].

Inductive stick : Type := left_stick | right_stick.

Definition analog_mappings : gmap string (stick * Z * Z) :=
  list_to_map
    [ ("w", (left_stick, 0, 1));
      ("s", (left_stick, 0, -1));
      ("a", (left_stick, -1, 0));
      ("d", (left_stick, 1, 0));
      ("up", (right_stick, 0, 1));
      ("down", (right_stick, 0, -1));
      ("left", (right_stick, -1, 0));
      ("right", (right_stick, 1, 0)) ].

(** The four accumulators of [update_analog_sticks]. *)
Record sticks : Type := mkSticks {
  lx : Z; ly : Z; rx : Z; ry : Z
}.

Record KeyboardToXboxMapper : Type := mkMapper {
  gamepad : VX360Gamepad;
  pressed_keys : gset string;
  running : bool;
  left_stick_x : Z;
  left_stick_y : Z;
  right_stick_x : Z;
  right_stick_y : Z
}.

Definition new_mapper (fs : list bool) : KeyboardToXboxMapper :=
  {| gamepad := new_gamepad fs; pressed_keys := ∅; running := true;
     left_stick_x := 0; left_stick_y := 0; right_stick_x := 0; right_stick_y := 0 |}.

Definition stick_values (self : KeyboardToXboxMapper) : sticks :=
  {| lx := left_stick_x self; ly := left_stick_y self;
     rx := right_stick_x self; ry := right_stick_y self |}.

Definition set_sticks (v : sticks) (self : KeyboardToXboxMapper) : KeyboardToXboxMapper :=
  {| gamepad := gamepad self; pressed_keys := pressed_keys self; running := running self;
     left_stick_x := lx v; left_stick_y := ly v;
     right_stick_x := rx v; right_stick_y := ry v |}.

Definition set_pressed_keys (ks : gset string) (self : KeyboardToXboxMapper) : KeyboardToXboxMapper :=
  {| gamepad := gamepad self; pressed_keys := ks; running := running self;
     left_stick_x := left_stick_x self; left_stick_y := left_stick_y self;
     right_stick_x := right_stick_x self; right_stick_y := right_stick_y self |}.

Definition set_running (b : bool) (self : KeyboardToXboxMapper) : KeyboardToXboxMapper :=
  {| gamepad := gamepad self; pressed_keys := pressed_keys self; running := b;
     left_stick_x := left_stick_x self; left_stick_y := left_stick_y self;
     right_stick_x := right_stick_x self; right_stick_y := right_stick_y self |}.

(** A call of a method of [self.gamepad]. *)
Definition gamepad_call (c : command) : M KeyboardToXboxMapper unit :=
  fun self =>
    let '(r, g) := call c (gamepad self) in
    (r, {| gamepad := g; pressed_keys := pressed_keys self; running := running self;
           left_stick_x := left_stick_x self; left_stick_y := left_stick_y self;
           right_stick_x := right_stick_x self; right_stick_y := right_stick_y self |}).

(** One turn of the loop [for key_str in self.pressed_keys] (lines 94-101). *)
Definition accumulate (key_str : string) (v : sticks) : sticks :=
  match analog_mappings !! key_str with
  | Some (left_stick, x_offset, y_offset) =>
      {| lx := lx v + x_offset; ly := ly v; rx := rx v; ry := ry v + y_offset |}
  | Some (right_stick, x_offset, y_offset) =>
      {| lx := lx v; ly := ly v; rx := rx v + x_offset; ry := ry v + y_offset |}
  | None => v
  end.

(** [max(-1.0, min(1.0, v))] *)
Definition clamp (v : Z) : Z := Z.max (-1) (Z.min 1 v).

Definition normalize (v : sticks) : sticks :=
  {| lx := clamp (lx v); ly := clamp (ly v); rx := clamp (rx v); ry := clamp (ry v) |}.

(** The values the loop and the clamping leave in the four fields; the
    loop runs over the keys in the order [keys]. *)
Definition aggregate_in_order (keys : list string) : sticks :=
  normalize (foldr accumulate {| lx := 0; ly := 0; rx := 0; ry := 0 |} keys).

Definition aggregate (keys : gset string) : sticks :=
  aggregate_in_order (elements keys).

Definition update_analog_sticks : M KeyboardToXboxMapper unit :=
  (let* self := get in
   let v := aggregate (pressed_keys self) in
   let* _ := modify (set_sticks v) in
   let* _ := gamepad_call (left_joystick_float (inject_Z (lx v)) (inject_Z (ly v))) in
   gamepad_call (right_joystick_float (inject_Z (rx v)) (inject_Z (ry v))))%py.

Definition is_ctrl (key : Key) : bool :=
  match key with
  | SpecialKey name => bool_decide (name = "ctrl_l") || bool_decide (name = "ctrl_r")
  | KeyCode _ _ => false
  end.

(** The result is what the handler returns to the listener: [false]
    stops it. *)
Definition on_key_press (key : Key) : M KeyboardToXboxMapper bool :=
  try_except is_Exception
    (if is_ctrl key then ret true
     else match normalize_key key with
          | None | Some EmptyString => ret true
          | Some key_str =>
              if bool_decide (key_str = "esc")
              then (let* _ := modify (set_running false) in ret false)%py
              else
                (let* self := get in
                 let* _ := modify (set_pressed_keys ({[ key_str ]} ∪ pressed_keys self)) in
                 let* _ := match key_mappings !! key_str with
                           | Some xbox_button => gamepad_call (press_button xbox_button)
                           | None => ret tt
                           end in
                 let* _ := when (bool_decide (is_Some (analog_mappings !! key_str)))
                             update_analog_sticks in
                 let* _ := gamepad_call update in
                 ret true)%py
          end)
    (ret true).

Definition on_key_release (key : Key) : M KeyboardToXboxMapper bool :=
  try_except is_Exception
    (if is_ctrl key then ret true
     else match normalize_key key with
          | None | Some EmptyString => ret true
          | Some key_str =>
              (let* self := get in
               let* _ := modify (set_pressed_keys (pressed_keys self ∖ {[ key_str ]})) in
               let* _ := match key_mappings !! key_str with
                         | Some xbox_button => gamepad_call (release_button xbox_button)
                         | None => ret tt
                         end in
               let* _ := when (bool_decide (is_Some (analog_mappings !! key_str)))
                           update_analog_sticks in
               let* _ := gamepad_call update in
               ret true)%py
          end)
    (ret true).

(** An event of the keyboard listener. *)
Inductive key_event : Type :=
| KeyPress (key : Key)
| KeyRelease (key : Key).

Definition dispatch (ev : key_event) : M KeyboardToXboxMapper bool :=
  match ev with
  | KeyPress key => on_key_press key
  | KeyRelease key => on_key_release key
  end.

(** [start_listening]: the listener hands each event to its callback and
    stops at the first callback that does not return [True]; the main
    thread only sleeps meanwhile. *)
Fixpoint start_listening (events : list key_event) (self : KeyboardToXboxMapper)
  : KeyboardToXboxMapper :=
  match events with
  | [] => self
  | ev :: rest =>
      match dispatch ev self with
      | (Returned true, self') => start_listening rest self'
      | (_, self') => self'
      end
  end.

(** The keys of [analog_mappings]. *)
Definition analog_key_list : list string :=
  ["w"; "s"; "a"; "d"; "up"; "down"; "left"; "right"].

(** 1 if the key is in the list, 0 otherwise. *)
Definition listed (k : string) (l : list string) : Z :=
  if bool_decide (k ∈ l) then 1 else 0.

(** 1 if the key is held, 0 otherwise. *)
Definition held (k : string) (keys : gset string) : Z :=
  if bool_decide (k ∈ keys) then 1 else 0.

(** The stick values in terms of the keys held. *)
Definition sticks_of_keys (keys : gset string) : sticks :=
  {| lx := held "d" keys - held "a" keys;
     ly := 0;
     rx := held "right" keys - held "left" keys;
     ry := clamp (held "w" keys + held "up" keys - held "s" keys - held "down" keys) |}.

(** The key that ends the program. *)
Definition is_exit (key : Key) : bool :=
  bool_decide (normalize_key key = Some "esc").

(** The stick invariant: the four fields are the values of the keys held. *)
Definition sticks_follow_keys (self : KeyboardToXboxMapper) : Prop :=
  stick_values self = sticks_of_keys (pressed_keys self).

End Xbox.


(** * The pose source: landmarks *)

(** One landmark of [results.pose_landmarks]: normalized position and
    visibility. *)
Record Landmark : Type := mkLandmark {
  x : Q;
  y : Q;
  visibility : Q
}.

(** The members of [mp_pose.PoseLandmark] the programs use, with their
    [.value] and [.name]. *)
Inductive PoseLandmark : Type :=
| LEFT_HIP | RIGHT_HIP
| LEFT_KNEE | RIGHT_KNEE
| LEFT_ANKLE | RIGHT_ANKLE
| LEFT_HEEL | RIGHT_HEEL
| LEFT_FOOT_INDEX | RIGHT_FOOT_INDEX.

Definition value (l : PoseLandmark) : nat :=
  match l with
  | LEFT_HIP => 23 | RIGHT_HIP => 24
  | LEFT_KNEE => 25 | RIGHT_KNEE => 26
  | LEFT_ANKLE => 27 | RIGHT_ANKLE => 28
  | LEFT_HEEL => 29 | RIGHT_HEEL => 30
  | LEFT_FOOT_INDEX => 31 | RIGHT_FOOT_INDEX => 32
  end.

Definition name (l : PoseLandmark) : string :=
  match l with
  | LEFT_HIP => "LEFT_HIP" | RIGHT_HIP => "RIGHT_HIP"
  | LEFT_KNEE => "LEFT_KNEE" | RIGHT_KNEE => "RIGHT_KNEE"
  | LEFT_ANKLE => "LEFT_ANKLE" | RIGHT_ANKLE => "RIGHT_ANKLE"
  | LEFT_HEEL => "LEFT_HEEL" | RIGHT_HEEL => "RIGHT_HEEL"
  | LEFT_FOOT_INDEX => "LEFT_FOOT_INDEX" | RIGHT_FOOT_INDEX => "RIGHT_FOOT_INDEX"
  end.

(** [l[i]] on a Python sequence: out of range raises [IndexError]. *)
Definition index {A} (l : list A) (i : nat) : outcome A :=
  match l !! i with
  | Some a => Returned a
  | None => Raised IndexError
  end.

(** [a < b] on rationals, as a boolean. *)
Definition Qltb (a b : Q) : bool := negb (Qle_bool b a).

(** [int(q)]: truncation toward zero. *)
Definition int (q : Q) : Z := Z.quot (Qnum q) (Zpos (Qden q)).

(** * penalty_kick.py *)

Module PenaltyKick.

Definition circle_center : Q * Q := (5 # 10, 5 # 10)%Q.
Definition circle_radius : Q := (15 # 100)%Q.
Definition action_cooldown : Q := 3%Q.
Definition action_duration : Q := 2%Q.

(** [np.sqrt(dx*dx + dy*dy) <= self.circle_radius]; the radius is not
    negative, so the test compares the squares. *)
Definition is_point_in_circle (point_x point_y : Q) : bool :=
  let dx := (point_x - fst circle_center)%Q in
  let dy := (point_y - snd circle_center)%Q in
  Qle_bool (dx * dx + dy * dy) (circle_radius * circle_radius).

Definition check_leg_detection (landmarks : list Landmark) : outcome (bool * option string) :=
  match index landmarks (value LEFT_KNEE) with
  | Raised e => Raised e
  | Returned left_knee =>
  if is_point_in_circle (x left_knee) (y left_knee) then Returned (true, Some "Left Knee") else
  match index landmarks (value RIGHT_KNEE) with
  | Raised e => Raised e
  | Returned right_knee =>
  if is_point_in_circle (x right_knee) (y right_knee) then Returned (true, Some "Right Knee") else
  match index landmarks (value LEFT_ANKLE) with
  | Raised e => Raised e
  | Returned left_ankle =>
  if is_point_in_circle (x left_ankle) (y left_ankle) then Returned (true, Some "Left Ankle") else
  match index landmarks (value RIGHT_ANKLE) with
  | Raised e => Raised e
  | Returned right_ankle =>
  if is_point_in_circle (x right_ankle) (y right_ankle) then Returned (true, Some "Right Ankle") else
  Returned (false, None)
  end end end end.

(** The joints [check_leg_detection] looks at, in the order of its tests,
    with the label it reports. *)
Definition tracked_joints : list (PoseLandmark * string) :=
  [ (LEFT_KNEE, "Left Knee"); (RIGHT_KNEE, "Right Knee");
    (LEFT_ANKLE, "Left Ankle"); (RIGHT_ANKLE, "Right Ankle") ].

(** A tracked joint qualifies when the list has it and it lies in the
    circle. *)
Definition in_circle (landmarks : list Landmark) (j : PoseLandmark) : bool :=
  match landmarks !! value j with
  | Some lm => is_point_in_circle (x lm) (y lm)
  | None => false
  end.

(** ** The action thread

    A thread that runs [execute_penalty_kick] is at one of these points:
    before the statement of the given line, asleep in [time.sleep] until
    a wake-up time, or finished. *)
Inductive pc : Type :=
| at_press_stick        (* line 75 *)
| at_press_button       (* line 76 *)
| at_press_update       (* line 77 *)
| at_sleep              (* line 80 *)
| sleeping (until : Q)  (* inside [time.sleep] *)
| at_release_stick      (* line 83 *)
| at_release_button     (* line 84 *)
| at_release_update     (* line 85 *)
| at_reset_active       (* line 92 *)
| at_stamp_time         (* line 93 *)
| finished.

(** The controller object together with the clock and the threads the
    program has started. *)
Record state : Type := mkState {
  clock : Q;                   (* what [time.time()] returns *)
  gamepad : VX360Gamepad;
  action_active : bool;
  last_action_time : Q;
  action_thread : option nat;  (* position in [threads] *)
  threads : list pc
}.

(** [PenaltyKickController()] at time [now], on a device with the given
    faults. *)
Definition init (now : Q) (fs : list bool) : state :=
  {| clock := now; gamepad := new_gamepad fs; action_active := false;
     last_action_time := 0; action_thread := None; threads := [] |}.

(** A call of a method of [self.gamepad] inside the [try] of
    [execute_penalty_kick]: on success the thread goes on at [next], on an
    exception at the [finally] block. *)
Definition try_call (c : command) (next : pc) (s : state) : pc * state :=
  let '(r, g) := call c (gamepad s) in
  (match r with Returned _ => next | Raised _ => at_reset_active end,
   {| clock := clock s; gamepad := g; action_active := action_active s;
      last_action_time := last_action_time s; action_thread := action_thread s;
      threads := threads s |}).

(** One statement of [execute_penalty_kick], run by a thread at [p]. *)
Definition execute_penalty_kick (p : pc) (s : state) : pc * state :=
  match p with
  | at_press_stick => try_call (left_joystick_float 0 1) at_press_button s
  | at_press_button => try_call (press_button XUSB_GAMEPAD_B) at_press_update s
  | at_press_update => try_call update at_sleep s
  | at_sleep => (sleeping (clock s + action_duration), s)
  | sleeping until => if Qle_bool until (clock s) then (at_release_stick, s) else (p, s)
  | at_release_stick => try_call (left_joystick_float 0 0) at_release_button s
  | at_release_button => try_call (release_button XUSB_GAMEPAD_B) at_release_update s
  | at_release_update => try_call update at_reset_active s
  | at_reset_active =>
      (at_stamp_time,
       {| clock := clock s; gamepad := gamepad s; action_active := false;
          last_action_time := last_action_time s; action_thread := action_thread s;
          threads := threads s |})
  | at_stamp_time =>
      (finished,
       {| clock := clock s; gamepad := gamepad s; action_active := action_active s;
          last_action_time := clock s; action_thread := action_thread s;
          threads := threads s |})
  | finished => (finished, s)
  end.

Definition set_threads (ts : list pc) (s : state) : state :=
  {| clock := clock s; gamepad := gamepad s; action_active := action_active s;
     last_action_time := last_action_time s; action_thread := action_thread s;
     threads := ts |}.

Definition set_clock (t : Q) (s : state) : state :=
  {| clock := t; gamepad := gamepad s; action_active := action_active s;
     last_action_time := last_action_time s; action_thread := action_thread s;
     threads := threads s |}.

(** Thread [i] runs its next statement. *)
Definition run_thread (i : nat) (s : state) : state :=
  match threads s !! i with
  | Some p =>
      let '(p', s') := execute_penalty_kick p s in
      set_threads (<[i := p']> (threads s')) s'
  | None => s
  end.

(** Time [d] passes (the clock does not go back). *)
Definition tick (d : Q) (s : state) : state :=
  if Qle_bool 0 d then set_clock (clock s + d) s else s.

Definition trigger_penalty_kick (s : state) : state :=
  let current_time := clock s in
  if action_active s then s
  else if Qltb (current_time - last_action_time s) action_cooldown then s
  else
    {| clock := clock s; gamepad := gamepad s; action_active := true;
       last_action_time := last_action_time s;
       action_thread := Some (length (threads s));
       threads := threads s ++ [at_press_stick] |}.

(** ** The capture loop *)

(** What the environment does next: time passes, a background thread
    runs one statement, the camera delivers a frame (with the pose found
    in it, if any, and whether ESC is down afterwards) or no frame, the
    user interrupts the program, or a library call of the loop raises. *)
Inductive event : Type :=
| Tick (d : Q)
| Run (i : nat)
| Frame (pose_landmarks : option (list Landmark)) (esc : bool)
| NoFrame
| Interrupt
| Crash.

(** Lines 186-205 of the loop body for one frame. *)
Definition process_frame (pose_landmarks : option (list Landmark)) (s : state)
  : outcome unit * state :=
  match pose_landmarks with
  | Some landmarks =>
      match check_leg_detection landmarks with
      | Returned (leg_detected, _) =>
          (Returned tt, if leg_detected then trigger_penalty_kick s else s)
      | Raised e => (Raised e, s)
      end
  | None => (Returned tt, s)
  end.

(** The state after one event while the loop runs. *)
Definition step (ev : event) (s : state) : state :=
  match ev with
  | Tick d => tick d s
  | Run i => run_thread i s
  | Frame pose_landmarks _ => snd (process_frame pose_landmarks s)
  | NoFrame | Interrupt | Crash => s
  end.

(** The main thread's view: the events still to come and the state. *)
Definition proc : Type := list event * state.

(** [while self.cap.isOpened(): ...] (lines 181-218); the camera stream
    ends with the events. *)
Fixpoint capture_loop (sched : list event) (s : state) : outcome unit * proc :=
  match sched with
  | [] => (Returned tt, ([], s))
  | ev :: rest =>
      match ev with
      | Tick _ | Run _ => capture_loop rest (step ev s)
      | Frame pose_landmarks esc =>
          match process_frame pose_landmarks s with
          | (Returned _, s') =>
              if esc then (Returned tt, (rest, s')) else capture_loop rest s'
          | (Raised e, s') => (Raised e, (rest, s'))
          end
      | NoFrame => (Returned tt, (rest, s))
      | Interrupt => (Raised KeyboardInterrupt, (rest, s))
      | Crash => (Raised Exception, (rest, s))
      end
  end.

Definition is_alive (i : nat) (s : state) : bool :=
  match threads s !! i with
  | Some finished | None => false
  | Some _ => true
  end.

(** What an event does while the main thread is blocked: frames that
    arrive are lost. *)
Definition step_background (ev : event) (s : state) : state :=
  match ev with
  | Tick _ | Run _ => step ev s
  | _ => s
  end.

(** [self.action_thread.join(timeout)] with the deadline [clock + timeout]:
    the main thread waits while thread [i] is alive and the deadline has
    not come. *)
Fixpoint join (i : nat) (deadline : Q) (sched : list event) (s : state)
  : outcome unit * proc :=
  match sched with
  | [] => (Returned tt, ([], s))
  | ev :: rest =>
      if negb (is_alive i s) || Qle_bool deadline (clock s)
      then (Returned tt, (sched, s))
      else match ev with
           | Interrupt => (Raised KeyboardInterrupt, (rest, s))
           | _ => join i deadline rest (step_background ev s)
           end
  end.

(** A call of a method of [self.gamepad] by the main thread. *)
Definition gamepad_call (c : command) : M proc unit :=
  fun '(sched, s) =>
    let '(r, g) := call c (gamepad s) in
    (r, (sched,
         {| clock := clock s; gamepad := g; action_active := action_active s;
            last_action_time := last_action_time s; action_thread := action_thread s;
            threads := threads s |})).

(** Lines 231-236: the reset of the gamepad, under a bare [except: pass]. *)
Definition reset_gamepad : M proc unit :=
  try_except any_exn
    (let* _ := gamepad_call (left_joystick_float 0 0) in
     let* _ := gamepad_call (release_button XUSB_GAMEPAD_B) in
     gamepad_call update)%py
    (ret tt).

(** Lines 226-228: the wait for the action thread, if one is alive. *)
Definition wait_for_action_thread : M proc unit :=
  fun '(sched, s) =>
    match action_thread s with
    | Some i =>
        if is_alive i s then join i (clock s + 3) sched s
        else (Returned tt, (sched, s))
    | None => (Returned tt, (sched, s))
    end.

Definition cleanup : M proc unit :=
  (let* _ := wait_for_action_thread in
   let* _ := reset_gamepad in
   (* [self.cap.release()], [cv2.destroyAllWindows()], [print] *)
   ret tt)%py.

(** [camera] tells whether [self.cap.isOpened()] holds after the camera
    is opened. *)
Definition start (camera : bool) : M proc unit :=
  if negb camera then ret tt
  else (let* _ := (fun '(sched, s) => capture_loop sched s) in
        cleanup)%py.

Definition start_penalty_kick_gaming (camera : bool) : M proc unit :=
  try_finally
    (try_except is_KeyboardInterrupt (start camera) (ret tt))
    cleanup.

(** The states the program goes through while the capture loop runs. *)
Inductive reachable : state -> Prop :=
| reachable_init now fs : reachable (init now fs)
| reachable_step ev s : reachable s -> reachable (step ev s).

(** The state after a run of events. *)
Definition exec (evs : list event) (s : state) : state :=
  foldl (fun s ev => step ev s) s evs.

(** A thread is holding from its start until it has cleared
    [action_active]. *)
Definition holding (p : pc) : bool :=
  match p with
  | at_stamp_time | finished => false
  | _ => true
  end.

(** Thread [i] alone: before each of its statements a delay passes, and a
    sleeping thread is resumed at its wake-up time at the earliest. *)
Definition wake (i : nat) (s : state) : state :=
  match threads s !! i with
  | Some (sleeping until) => if Qltb (clock s) until then set_clock until s else s
  | _ => s
  end.

Fixpoint solo (i : nat) (delays : list Q) (s : state) : state :=
  match delays with
  | [] => s
  | d :: ds =>
      if is_alive i s then solo i ds (run_thread i (wake i (tick d s))) else s
  end.

(** One turn of a thread that runs alone. *)
Definition advance (i : nat) (d : Q) (s : state) : state :=
  run_thread i (wake i (tick d s)).

(** What is known of the flag and the stamp when a thread is at [p] on
    its way out. *)
Definition leaving (p : pc) (s : state) : Prop :=
  match p with
  | at_stamp_time => action_active s = false
  | finished => action_active s = false /\ last_action_time s = clock s
  | _ => True
  end.

(** The number of statements a thread at [p] has still to run, at most. *)
Definition remaining (p : pc) : nat :=
  match p with
  | at_press_stick => 10
  | at_press_button => 9
  | at_press_update => 8
  | at_sleep => 7
  | sleeping _ => 6
  | at_release_stick => 5
  | at_release_button => 4
  | at_release_update => 3
  | at_reset_active => 2
  | at_stamp_time => 1
  | finished => 0
  end.

(** The commands a thread has issued when it comes to [p] and no call
    has raised. *)
Definition press_commands : list command :=
  [left_joystick_float 0 1; press_button XUSB_GAMEPAD_B; update].

Definition release_commands : list command :=
  [left_joystick_float 0 0; release_button XUSB_GAMEPAD_B; update].

Definition issued_before (p : pc) : list command :=
  match p with
  | at_press_stick => []
  | at_press_button => take 1 press_commands
  | at_press_update => take 2 press_commands
  | at_sleep | sleeping _ | at_release_stick => press_commands
  | at_release_button => press_commands ++ take 1 release_commands
  | at_release_update => press_commands ++ take 2 release_commands
  | at_reset_active | at_stamp_time | finished => press_commands ++ release_commands
  end.

(** A thread spawned at time [t0] on a gamepad that had issued [log0] is
    on schedule at [p] when no call has raised nor will, the gamepad has
    been sent the commands that precede [p], and the hold has lasted as
    long as it must have at [p]. *)
Definition on_schedule (t0 : Q) (log0 : list command) (p : pc) (s : state) : Prop :=
  faults (gamepad s) = []
  /\ issued (gamepad s) = log0 ++ issued_before p
  /\ match p with
     | at_press_stick | at_press_button | at_press_update | at_sleep =>
         (t0 <= clock s)%Q
     | sleeping until => (t0 + action_duration <= until)%Q
     | at_release_stick | at_release_button | at_release_update | at_reset_active =>
         (t0 + action_duration <= clock s)%Q
     | at_stamp_time =>
         (t0 + action_duration <= clock s)%Q /\ action_active s = false
     | finished =>
         (t0 + action_duration <= last_action_time s)%Q
         /\ last_action_time s = clock s /\ action_active s = false
     end.

(** The calls [reset_gamepad] makes on a device with the faults [fs]: it
    stops at the first call that raises. *)
Definition attempted_release (fs : list bool) : list command :=
  match fs with
  | true :: _ => take 1 release_commands
  | _ :: true :: _ => take 2 release_commands
  | _ => release_commands
  end.

(** ** The overlay *)

Inductive status : Type :=
| Executing
| Cooldown (remaining : Q)
| Ready.

(** [draw_status_info]: the status line it chooses (its wording left out)
    and the colour of the line, a BGR triple (lines 142-153). *)
Definition draw_status_info (s : state) : status * (Z * Z * Z) :=
  if action_active s then (Executing, (0, 0, 255))
  else
    let time_since_last := (clock s - last_action_time s)%Q in
    if Qltb time_since_last action_cooldown
    then (Cooldown (action_cooldown - time_since_last), (0, 165, 255))
    else (Ready, (0, 255, 0)).

(** [draw_target_circle]: centre, radius and colour of the circle drawn on
    a frame of width [w] and height [h] (lines 54-63). *)
Definition draw_target_circle (w h : Z) (s : state) : (Z * Z) * Z * (Z * Z * Z) :=
  let center_x := int (fst circle_center * inject_Z w) in
  let center_y := int (snd circle_center * inject_Z h) in
  let radius := int (circle_radius * inject_Z w) in
  let color := if negb (action_active s) then (0, 255, 0) else (0, 0, 255) in
  ((center_x, center_y), radius, color).

(** The thread is past its calls of the gamepad. *)
Definition past_calls (p : pc) : bool :=
  match p with
  | at_reset_active | at_stamp_time | finished => true
  | _ => false
  end.

End PenaltyKick.

(** * pose_penalty_kick.py *)

Module PosePenaltyKick.

Definition circle_radius : Z := 80.
Definition cooldown_duration : Q := 5%Q.
Definition kick_duration : Q := 2%Q.
Definition touch_threshold : Z := circle_radius + 20.

(** [self.calculate_distance(point1, point2) <= bound] on pixel (integer)
    points and a bound that is not negative: the square root is monotone,
    so the test compares the squares. *)
Definition calculate_distance_le (point1 point2 : Z * Z) (bound : Z) : bool :=
  (fst point1 - fst point2) ^ 2 + (snd point1 - snd point2) ^ 2 <=? bound ^ 2.

Definition leg_landmarks : list PoseLandmark :=
  [ LEFT_HIP; RIGHT_HIP; LEFT_KNEE; RIGHT_KNEE; LEFT_ANKLE; RIGHT_ANKLE;
    LEFT_HEEL; RIGHT_HEEL; LEFT_FOOT_INDEX; RIGHT_FOOT_INDEX ].

(** The pixel position of a landmark (lines 69-70). *)
Definition pixel (landmark : Landmark) (image_width image_height : Z) : Z * Z :=
  (int (x landmark * inject_Z image_width), int (y landmark * inject_Z image_height)).

(** The loop [for landmark_id in leg_landmarks] (lines 64-78), over the
    landmarks [ids] still to visit. *)
Fixpoint scan (ids : list PoseLandmark) (landmarks : list Landmark)
    (image_width image_height : Z) (circle_center : Z * Z)
  : outcome (bool * option (Z * Z) * option string) :=
  match ids with
  | [] => Returned (false, None, None)
  | landmark_id :: rest =>
      if (value landmark_id <? length landmarks)%nat then
        match index landmarks (value landmark_id) with
        | Raised e => Raised e
        | Returned landmark =>
            let xy := pixel landmark image_width image_height in
            if Qltb (5 # 10) (visibility landmark) then
              if calculate_distance_le xy circle_center touch_threshold
              then Returned (true, Some xy, Some (name landmark_id))
              else scan rest landmarks image_width image_height circle_center
            else scan rest landmarks image_width image_height circle_center
        end
      else scan rest landmarks image_width image_height circle_center
  end.

Definition is_foot_touching_circle (landmarks : list Landmark)
    (image_width image_height : Z) (circle_center : Z * Z)
  : outcome (bool * option (Z * Z) * option string) :=
  scan leg_landmarks landmarks image_width image_height circle_center.

(** A leg landmark qualifies when the list has it, its visibility is
    above 0.5 and its pixel lies within the touch threshold of the
    circle's centre. *)
Definition touching (landmarks : list Landmark) (image_width image_height : Z)
    (circle_center : Z * Z) (j : PoseLandmark) : bool :=
  match landmarks !! value j with
  | Some lm =>
      Qltb (5 # 10) (visibility lm)
      && calculate_distance_le (pixel lm image_width image_height)
           circle_center touch_threshold
  | None => false
  end.

(** ** The kick thread

    A thread that runs [execute_penalty_kick] is before the statement of
    the given line, asleep until a wake-up time, or finished. *)
Inductive pc : Type :=
| at_guard              (* line 82 *)
| at_set_kicking        (* line 85 *)
| at_press_stick        (* line 90 *)
| at_press_button       (* line 91 *)
| at_press_update       (* line 92 *)
| at_sleep              (* line 95 *)
| sleeping (until : Q)  (* inside [time.sleep] *)
| at_release_stick      (* line 98 *)
| at_release_button     (* line 99 *)
| at_release_update     (* line 100 *)
| at_reset_kicking      (* line 107 *)
| at_stamp_time         (* line 108 *)
| finished.

(** The detector object together with the clock and the threads the
    program has started. *)
Record state : Type := mkState {
  clock : Q;
  gamepad : VX360Gamepad;
  is_kicking : bool;
  last_kick_time : Q;
  threads : list pc
}.

Definition init (now : Q) (fs : list bool) : state :=
  {| clock := now; gamepad := new_gamepad fs; is_kicking := false;
     last_kick_time := 0; threads := [] |}.

Definition try_call (c : command) (next : pc) (s : state) : pc * state :=
  let '(r, g) := call c (gamepad s) in
  (match r with Returned _ => next | Raised _ => at_reset_kicking end,
   {| clock := clock s; gamepad := g; is_kicking := is_kicking s;
      last_kick_time := last_kick_time s; threads := threads s |}).

Definition set_is_kicking (b : bool) (s : state) : state :=
  {| clock := clock s; gamepad := gamepad s; is_kicking := b;
     last_kick_time := last_kick_time s; threads := threads s |}.

(** One statement of [execute_penalty_kick], run by a thread at [p]. *)
Definition execute_penalty_kick (p : pc) (s : state) : pc * state :=
  match p with
  | at_guard => if is_kicking s then (finished, s) else (at_set_kicking, s)
  | at_set_kicking => (at_press_stick, set_is_kicking true s)
  | at_press_stick => try_call (left_joystick_float 0 1) at_press_button s
  | at_press_button => try_call (press_button XUSB_GAMEPAD_B) at_press_update s
  | at_press_update => try_call update at_sleep s
  | at_sleep => (sleeping (clock s + kick_duration), s)
  | sleeping until => if Qle_bool until (clock s) then (at_release_stick, s) else (p, s)
  | at_release_stick => try_call (left_joystick_float 0 0) at_release_button s
  | at_release_button => try_call (release_button XUSB_GAMEPAD_B) at_release_update s
  | at_release_update => try_call update at_reset_kicking s
  | at_reset_kicking => (at_stamp_time, set_is_kicking false s)
  | at_stamp_time =>
      (finished,
       {| clock := clock s; gamepad := gamepad s; is_kicking := is_kicking s;
          last_kick_time := clock s; threads := threads s |})
  | finished => (finished, s)
  end.

Definition set_threads (ts : list pc) (s : state) : state :=
  {| clock := clock s; gamepad := gamepad s; is_kicking := is_kicking s;
     last_kick_time := last_kick_time s; threads := ts |}.

Definition set_clock (t : Q) (s : state) : state :=
  {| clock := t; gamepad := gamepad s; is_kicking := is_kicking s;
     last_kick_time := last_kick_time s; threads := threads s |}.

Definition run_thread (i : nat) (s : state) : state :=
  match threads s !! i with
  | Some p =>
      let '(p', s') := execute_penalty_kick p s in
      set_threads (<[i := p']> (threads s')) s'
  | None => s
  end.

Definition tick (d : Q) (s : state) : state :=
  if Qle_bool 0 d then set_clock (clock s + d) s else s.

(** Lines 177-185 of [run]: the cooldown check and the start of the kick
    thread. *)
Definition trigger_kick (s : state) : state :=
  let current_time := clock s in
  let time_since_last_kick := (current_time - last_kick_time s)%Q in
  if Qle_bool cooldown_duration time_since_last_kick && negb (is_kicking s)
  then set_threads (threads s ++ [at_guard]) s
  else s.

(** ** The detection loop *)

Inductive event : Type :=
| Tick (d : Q)
| Run (i : nat)
| Frame (pose_landmarks : option (list Landmark)) (image_width image_height : Z) (q : bool)
| NoFrame
| Interrupt
| Crash.

(** Lines 148-185 of the loop body for one frame. *)
Definition process_frame (pose_landmarks : option (list Landmark))
    (image_width image_height : Z) (s : state) : outcome unit * state :=
  let circle_center := (image_width / 2, image_height - 100) in
  match pose_landmarks with
  | Some landmarks =>
      match is_foot_touching_circle landmarks image_width image_height circle_center with
      | Returned (is_touching, _, _) =>
          (Returned tt, if is_touching then trigger_kick s else s)
      | Raised e => (Raised e, s)
      end
  | None => (Returned tt, s)
  end.

Definition step (ev : event) (s : state) : state :=
  match ev with
  | Tick d => tick d s
  | Run i => run_thread i s
  | Frame pose_landmarks image_width image_height _ =>
      snd (process_frame pose_landmarks image_width image_height s)
  | NoFrame | Interrupt | Crash => s
  end.

Definition proc : Type := list event * state.

(** [while True: ...] (lines 132-206). *)
Fixpoint detection_loop (sched : list event) (s : state) : outcome unit * proc :=
  match sched with
  | [] => (Returned tt, ([], s))
  | ev :: rest =>
      match ev with
      | Tick _ | Run _ => detection_loop rest (step ev s)
      | Frame pose_landmarks image_width image_height q =>
          match process_frame pose_landmarks image_width image_height s with
          | (Returned _, s') =>
              if q then (Returned tt, (rest, s')) else detection_loop rest s'
          | (Raised e, s') => (Raised e, (rest, s'))
          end
      | NoFrame => (Returned tt, (rest, s))
      | Interrupt => (Raised KeyboardInterrupt, (rest, s))
      | Crash => (Raised Exception, (rest, s))
      end
  end.

(** [run]; its [finally] block releases the camera and the windows and
    prints, which does not touch the state. *)
Definition run (camera : bool) : M proc unit :=
  if negb camera then ret tt
  else
    try_finally
      (try_except (fun e => is_KeyboardInterrupt e || is_Exception e)
         (fun '(sched, s) => detection_loop sched s)
         (ret tt))
      (ret tt).

Definition main (camera : bool) : M proc unit :=
  try_except is_Exception (run camera) (ret tt).

Inductive reachable : state -> Prop :=
| reachable_init now fs : reachable (init now fs)
| reachable_step ev s : reachable s -> reachable (step ev s).

(** The state after a run of events. *)
Definition exec (evs : list event) (s : state) : state :=
  foldl (fun s ev => step ev s) s evs.

Definition wake (i : nat) (s : state) : state :=
  match threads s !! i with
  | Some (sleeping until) => if Qltb (clock s) until then set_clock until s else s
  | _ => s
  end.

Definition is_alive (i : nat) (s : state) : bool :=
  match threads s !! i with
  | Some finished | None => false
  | Some _ => true
  end.

Fixpoint solo (i : nat) (delays : list Q) (s : state) : state :=
  match delays with
  | [] => s
  | d :: ds =>
      if is_alive i s then solo i ds (run_thread i (wake i (tick d s))) else s
  end.

Definition remaining (p : pc) : nat :=
  match p with
  | at_guard => 12
  | at_set_kicking => 11
  | at_press_stick => 10
  | at_press_button => 9
  | at_press_update => 8
  | at_sleep => 7
  | sleeping _ => 6
  | at_release_stick => 5
  | at_release_button => 4
  | at_release_update => 3
  | at_reset_kicking => 2
  | at_stamp_time => 1
  | finished => 0
  end.

Definition press_commands : list command :=
  [left_joystick_float 0 1; press_button XUSB_GAMEPAD_B; update].

Definition release_commands : list command :=
  [left_joystick_float 0 0; release_button XUSB_GAMEPAD_B; update].

Definition issued_before (p : pc) : list command :=
  match p with
  | at_guard | at_set_kicking | at_press_stick => []
  | at_press_button => take 1 press_commands
  | at_press_update => take 2 press_commands
  | at_sleep | sleeping _ | at_release_stick => press_commands
  | at_release_button => press_commands ++ take 1 release_commands
  | at_release_update => press_commands ++ take 2 release_commands
  | at_reset_kicking | at_stamp_time | finished => press_commands ++ release_commands
  end.

Definition advance (i : nat) (d : Q) (s : state) : state :=
  run_thread i (wake i (tick d s)).

(** What is known of the flag and the stamp when a thread is at [p]: it
    comes to the guard with the flag clear, and leaves with the flag
    clear and the time stamped. *)
Definition leaving (p : pc) (s : state) : Prop :=
  match p with
  | at_guard | at_stamp_time => is_kicking s = false
  | finished => is_kicking s = false /\ last_kick_time s = clock s
  | _ => True
  end.

Definition on_schedule (t0 : Q) (log0 : list command) (p : pc) (s : state) : Prop :=
  faults (gamepad s) = []
  /\ issued (gamepad s) = log0 ++ issued_before p
  /\ match p with
     | at_guard => (t0 <= clock s)%Q /\ is_kicking s = false
     | at_set_kicking
     | at_press_stick | at_press_button | at_press_update | at_sleep =>
         (t0 <= clock s)%Q
     | sleeping until => (t0 + kick_duration <= until)%Q
     | at_release_stick | at_release_button | at_release_update | at_reset_kicking =>
         (t0 + kick_duration <= clock s)%Q
     | at_stamp_time =>
         (t0 + kick_duration <= clock s)%Q /\ is_kicking s = false
     | finished =>
         (t0 + kick_duration <= last_kick_time s)%Q
         /\ last_kick_time s = clock s /\ is_kicking s = false
     end.

(** ** The overlay *)

(** Lines 188-193 of [run]: the remaining cooldown handed to
    [draw_cooldown_timer], if the timer is drawn. *)
Definition cooldown_timer (s : state) : option Q :=
  let current_time := clock s in
  let time_since_last_kick := (current_time - last_kick_time s)%Q in
  if Qltb time_since_last_kick cooldown_duration
  then Some (cooldown_duration - time_since_last_kick)%Q
  else None.

(** [draw_kick_status]: whether the kicking banner is drawn. *)
Definition draw_kick_status (s : state) : bool := is_kicking s.

Definition past_calls (p : pc) : bool :=
  match p with
  | at_reset_kicking | at_stamp_time | finished => true
  | _ => false
  end.

End PosePenaltyKick.

(** * Example frames *)

(** A landmark far from both targets. *)
Definition far : Landmark := mkLandmark 0 0 1.

(** A pose of 33 landmarks, all [far] but the given ones. *)
Definition pose_with (l : list (PoseLandmark * Landmark)) : list Landmark :=
  foldr (fun jl acc => <[value (fst jl) := snd jl]> acc) (replicate 33 far) l.

(** The left knee at the centre of the circle of [penalty_kick.py], with
    visibility 0. *)
Definition hidden_knee : list Landmark :=
  pose_with [(LEFT_KNEE, mkLandmark (5 # 10) (5 # 10) 0)].

(** Both knees in the circle of [penalty_kick.py], the right one nearer
    to its centre. *)
Definition both_knees : list Landmark :=
  pose_with [(LEFT_KNEE, mkLandmark (6 # 10) (5 # 10) (9 # 10));
             (RIGHT_KNEE, mkLandmark (5 # 10) (5 # 10) (9 # 10))].

(** Both knees near the penalty spot of a 640 x 480 image (centre
    (320, 380)), the right one on it; and the left hip on the spot with
    visibility 0.5. *)
Definition both_knees_px : list Landmark :=
  pose_with [(LEFT_HIP, mkLandmark (5 # 10) (19 # 24) (5 # 10));
             (LEFT_KNEE, mkLandmark (5 # 10) (18 # 24) (9 # 10));
             (RIGHT_KNEE, mkLandmark (5 # 10) (19 # 24) (9 # 10))].




(** [pose_penalty_kick.py]: two frames with a knee on the spot start two
    threads; both pass the guard before either sets [is_kicking], and both
    go on to press. *)
Definition overlapping_kicks : list PosePenaltyKick.event :=
  [PosePenaltyKick.Frame (Some both_knees_px) 640 480 false;
   PosePenaltyKick.Frame (Some both_knees_px) 640 480 false;
   PosePenaltyKick.Run 0; PosePenaltyKick.Run 1;
   PosePenaltyKick.Run 0; PosePenaltyKick.Run 0; PosePenaltyKick.Run 0;
   PosePenaltyKick.Run 0;
   PosePenaltyKick.Run 1; PosePenaltyKick.Run 1; PosePenaltyKick.Run 1;
   PosePenaltyKick.Run 1].


(** [penalty_kick.py]: a knee at (0.52, 0.51) with confidence 0.9. *)
Definition knee_in_circle : list Landmark :=
  pose_with [(LEFT_KNEE, mkLandmark (52 # 100) (51 # 100) (9 # 10))].

(** A session that starts at time 100: the knee is seen, the kick runs
    (pressed at 100, released at 102, with the knee seen again at 101),
    and the knee is seen once more 2.5 s after the release. *)
Definition one_kick_session : list PenaltyKick.event :=
  [PenaltyKick.Frame (Some knee_in_circle) false;
   PenaltyKick.Run 0; PenaltyKick.Run 0; PenaltyKick.Run 0; PenaltyKick.Run 0;
   PenaltyKick.Tick 1;
   PenaltyKick.Frame (Some knee_in_circle) false;
   PenaltyKick.Tick 1;
   PenaltyKick.Run 0; PenaltyKick.Run 0; PenaltyKick.Run 0; PenaltyKick.Run 0;
   PenaltyKick.Run 0; PenaltyKick.Run 0;
   PenaltyKick.Tick (5 # 2);
   PenaltyKick.Frame (Some knee_in_circle) false].

(** * Facts about the controller *)

Lemma call_issued c g : issued (snd (call c g)) = issued g ++ [c].
Proof. unfold call. destruct (faults g) as [|[] fs]; reflexivity. Qed.

Lemma call_faults c g : faults (snd (call c g)) = tail (faults g).
Proof. unfold call. destruct (faults g) as [|[] fs]; reflexivity. Qed.

Lemma call_no_fault c g :
  faults g = [] ->
  call c g = (Returned tt, {| issued := issued g ++ [c]; faults := [] |}).
Proof. unfold call. intros ->. reflexivity. Qed.

(** * xbox.py *)

Section XboxFacts.
Import Xbox.

Lemma analog_keys (k : string) :
  is_Some (analog_mappings !! k) ->
  k ∈ ["w"; "s"; "a"; "d"; "up"; "down"; "left"; "right"].
Proof.
  intros [v Hv]. unfold analog_mappings in Hv.
  apply elem_of_list_to_map_2 in Hv.
  repeat (apply elem_of_cons in Hv as [Hv|Hv]; [injection Hv as -> _; set_solver|]).
  by apply elem_of_nil in Hv.
Qed.

Lemma analog_key_not_button (k : string) :
  is_Some (analog_mappings !! k) -> key_mappings !! k = None.
Proof.
  intros H%analog_keys.
  repeat (apply elem_of_cons in H as [->|H]; [vm_compute; reflexivity|]).
  by apply elem_of_nil in H.
Qed.

Lemma analog_key_shape (k : string) :
  is_Some (analog_mappings !! k) ->
  k <> "esc" /\ k <> "ctrl_l" /\ k <> "ctrl_r" /\ exists c r, k = String c r.
Proof.
  intros H%analog_keys.
  repeat (apply elem_of_cons in H as [->|H]; [repeat split; try discriminate; eauto|]).
  by apply elem_of_nil in H.
Qed.

(** The order in which the loop visits the held keys does not matter. *)
Lemma accumulate_comm (a b : string) (v : sticks) :
  accumulate a (accumulate b v) = accumulate b (accumulate a v).
Proof.
  unfold accumulate.
  destruct (analog_mappings !! a) as [[[[] xa] ya]|], (analog_mappings !! b) as [[[[] xb] yb]|];
    simpl; try reflexivity; f_equal; lia.
Qed.

Lemma aggregate_in_order_perm (l1 l2 : list string) :
  l1 ≡ₚ l2 -> aggregate_in_order l1 = aggregate_in_order l2.
Proof.
  intros Hp. unfold aggregate_in_order. f_equal.
  induction Hp as [|k l l' _ IH|a b l|l l' l'' _ IH1 _ IH2]; simpl.
  - reflexivity.
  - by rewrite IH.
  - apply accumulate_comm.
  - by rewrite IH1.
Qed.

Lemma gamepad_call_frame c (self : KeyboardToXboxMapper) :
  pressed_keys (snd (gamepad_call c self)) = pressed_keys self
  /\ stick_values (snd (gamepad_call c self)) = stick_values self
  /\ running (snd (gamepad_call c self)) = running self.
Proof. unfold gamepad_call. destruct (call c (gamepad self)); simpl. auto. Qed.

Lemma update_analog_sticks_values (self : KeyboardToXboxMapper) :
  pressed_keys (snd (update_analog_sticks self)) = pressed_keys self
  /\ stick_values (snd (update_analog_sticks self)) = aggregate (pressed_keys self).
Proof.
  unfold update_analog_sticks, bind, get, modify.
  set (v := aggregate (pressed_keys self)).
  set (s1 := set_sticks v self).
  assert (H1 : pressed_keys s1 = pressed_keys self /\ stick_values s1 = v)
    by (subst s1; destruct v; split; reflexivity).
  destruct H1 as [Hp Hv]. clearbody s1 v.
  match goal with
  | |- context [gamepad_call ?c s1] =>
      destruct (gamepad_call_frame c s1) as (Ha & Hb & _);
      destruct (gamepad_call c s1) as [[[]|e] s2]
  end; cbn [snd] in *.
  - match goal with
    | |- context [gamepad_call ?c s2] =>
        destruct (gamepad_call_frame c s2) as (Hc & Hd & _)
    end.
    split; congruence.
  - split; congruence.
Qed.

Lemma on_key_press_analog (key : Key) (k : string) (self : KeyboardToXboxMapper) :
  normalize_key key = Some k ->
  is_Some (analog_mappings !! k) ->
  pressed_keys (snd (on_key_press key self)) = {[ k ]} ∪ pressed_keys self
  /\ stick_values (snd (on_key_press key self)) = aggregate ({[ k ]} ∪ pressed_keys self).
Proof.
  intros Hn Ha.
  destruct (analog_key_shape k Ha) as (Hesc & Hl & Hr & c & r & Hk).
  assert (Hctrl : is_ctrl key = false).
  { destruct key as [nm|ch st]; [|reflexivity]. simpl.
    repeat case_bool_decide; subst; try reflexivity; vm_compute in Hn; congruence. }
  unfold on_key_press. rewrite Hctrl, Hn. subst k.
  rewrite bool_decide_eq_false_2 by exact Hesc.
  rewrite (analog_key_not_button _ Ha).
  rewrite bool_decide_eq_true_2 by exact Ha.
  unfold try_except, bind, get, modify, when, ret. simpl.
  set (s1 := set_pressed_keys _ self).
  destruct (update_analog_sticks_values s1) as [Hp Hs].
  destruct (update_analog_sticks s1) as [[[]|e] s2]; simpl in *.
  - destruct (gamepad_call_frame update s2) as (Hp2 & Hs2 & _).
    destruct (gamepad_call update s2) as [[[]|e] s3]; simpl in *.
    + split; congruence.
    + destruct (is_Exception e); simpl; split; congruence.
  - destruct (is_Exception e); simpl; split; congruence.
Qed.

End XboxFacts.

(** C3.  With ["w"] the only held key, [update_analog_sticks] leaves the
    left stick at (0, 0) and puts the vertical unit on the right stick:
    the fields become (0, 0) and (0, 1), and the same values are what it
    sends to the two sticks of the controller. *)
Theorem xbox_w_alone_moves_right_stick (self : Xbox.KeyboardToXboxMapper) :
  let self' := snd (Xbox.update_analog_sticks (Xbox.set_pressed_keys {[ "w" ]} self)) in
  (Xbox.left_stick_x self', Xbox.left_stick_y self') = (0, 0)
  /\ (Xbox.right_stick_x self', Xbox.right_stick_y self') = (0, 1)
  /\ Xbox.aggregate {[ "w" ]} = Xbox.mkSticks 0 0 0 1.
Proof.
  intros self'.
  assert (Hv : Xbox.aggregate {[ "w" ]} = Xbox.mkSticks 0 0 0 1).
  { unfold Xbox.aggregate. rewrite elements_singleton. vm_compute. reflexivity. }
  destruct (update_analog_sticks_values (Xbox.set_pressed_keys {[ "w" ]} self)) as [_ Hs].
  fold self' in Hs. simpl in Hs. rewrite Hv in Hs.
  unfold Xbox.stick_values in Hs. injection Hs as -> -> -> ->. auto.
Qed.

(** C9.  A press of an analog-mapped key that is already held leaves the
    set of held keys as it is, and the four stick values it recomputes are
    those of that set; pressing the key once more changes neither the set
    nor the values. *)
Theorem xbox_repeated_press_idempotent
    (key : Xbox.Key) (key_str : string) (self : Xbox.KeyboardToXboxMapper) :
  Xbox.normalize_key key = Some key_str ->
  is_Some (Xbox.analog_mappings !! key_str) ->
  key_str ∈ Xbox.pressed_keys self ->
  let self1 := snd (Xbox.on_key_press key self) in
  let self2 := snd (Xbox.on_key_press key self1) in
  Xbox.pressed_keys self1 = Xbox.pressed_keys self
  /\ Xbox.stick_values self1 = Xbox.aggregate (Xbox.pressed_keys self)
  /\ Xbox.pressed_keys self2 = Xbox.pressed_keys self1
  /\ Xbox.stick_values self2 = Xbox.stick_values self1.
Proof.
  intros Hn Ha Hin self1 self2.
  destruct (on_key_press_analog key key_str self Hn Ha) as [Hp1 Hs1].
  destruct (on_key_press_analog key key_str self1 Hn Ha) as [Hp2 Hs2].
  fold self1 in Hp1, Hs1. fold self2 in Hp2, Hs2.
  assert (He : {[ key_str ]} ∪ Xbox.pressed_keys self = Xbox.pressed_keys self)
    by (apply subseteq_union_1_L, singleton_subseteq_l, Hin).
  rewrite He in Hp1, Hs1.
  assert (He1 : {[ key_str ]} ∪ Xbox.pressed_keys self1 = Xbox.pressed_keys self1)
    by (rewrite Hp1; exact He).
  rewrite He1 in Hp2, Hs2.
  repeat split; try assumption. rewrite Hs2, Hp1. symmetry. exact Hs1.
Qed.

Lemma xbox_repeated_press_idempotent_witness :
  let key := Xbox.KeyCode (Some "D") "'D'" in
  let self := snd (Xbox.on_key_press key (Xbox.new_mapper [false; true])) in
  let self1 := snd (Xbox.on_key_press key self) in
  Xbox.pressed_keys self1 = Xbox.pressed_keys self
  /\ Xbox.stick_values self1 = Xbox.aggregate (Xbox.pressed_keys self).
Proof.
  intros key self self1.
  destruct (xbox_repeated_press_idempotent key "d" self) as (H1 & H2 & _).
  - reflexivity.
  - vm_compute. eauto.
  - vm_compute. set_solver.
  - split; assumption.
Defined.

(** * The geometric triggers *)

(** A landmark list that has position [j] has every position before it. *)
Lemma lookup_below {A} (l : list A) (i j : nat) (a : A) :
  (i <= j)%nat -> l !! j = Some a -> is_Some (l !! i).
Proof.
  intros Hij Hj. apply lookup_lt_is_Some.
  apply lookup_lt_Some in Hj. lia.
Qed.

Lemma index_Returned {A} (l : list A) (i : nat) :
  (i < length l)%nat -> exists a, l !! i = Some a /\ index l i = Returned a.
Proof.
  intros [a Ha]%lookup_lt_is_Some. exists a. unfold index. rewrite Ha. auto.
Qed.

Lemma name_inj (a b : PoseLandmark) : name a = name b -> a = b.
Proof. destruct a, b; simpl; intros H; try reflexivity; discriminate H. Qed.

Lemma Qltb_true (a b : Q) : Qltb a b = true <-> (a < b)%Q.
Proof.
  unfold Qltb. rewrite negb_true_iff.
  destruct (Qle_bool b a) eqn:E.
  - apply Qle_bool_iff in E. split; [discriminate|]. intros H.
    exfalso. apply (Qlt_not_le _ _ H E).
  - split; [|reflexivity]. intros _. apply Qnot_le_lt. intros H.
    apply Qle_bool_iff in H. congruence.
Qed.

Lemma Qltb_false (a b : Q) : Qltb a b = false <-> (b <= a)%Q.
Proof.
  unfold Qltb. rewrite negb_false_iff. apply Qle_bool_iff.
Qed.

Lemma check_leg_detection_first (landmarks : list Landmark) j label rest :
  List.filter (fun jl => PenaltyKick.in_circle landmarks (fst jl)) PenaltyKick.tracked_joints
    = (j, label) :: rest ->
  PenaltyKick.check_leg_detection landmarks = Returned (true, Some label).
Proof.
  unfold PenaltyKick.tracked_joints, PenaltyKick.check_leg_detection, PenaltyKick.in_circle, index.
  cbn [List.filter fst value].
  pose proof (lookup_below landmarks 25 26) as H56.
  pose proof (lookup_below landmarks 25 27) as H57.
  pose proof (lookup_below landmarks 25 28) as H58.
  pose proof (lookup_below landmarks 26 27) as H67.
  pose proof (lookup_below landmarks 26 28) as H68.
  pose proof (lookup_below landmarks 27 28) as H78.
  destruct (landmarks !! 25%nat) as [k1|] eqn:E1;
    [destruct (PenaltyKick.is_point_in_circle (x k1) (y k1))|];
  (destruct (landmarks !! 26%nat) as [k2|] eqn:E2;
    [destruct (PenaltyKick.is_point_in_circle (x k2) (y k2))|]);
  (destruct (landmarks !! 27%nat) as [k3|] eqn:E3;
    [destruct (PenaltyKick.is_point_in_circle (x k3) (y k3))|]);
  (destruct (landmarks !! 28%nat) as [k4|] eqn:E4;
    [destruct (PenaltyKick.is_point_in_circle (x k4) (y k4))|]);
  intros H; try discriminate H; try (injection H as <- <- <-; reflexivity);
  exfalso;
  first [ solve [destruct (H56 _ ltac:(lia) eq_refl) as [? [=]]]
        | solve [destruct (H57 _ ltac:(lia) eq_refl) as [? [=]]]
        | solve [destruct (H58 _ ltac:(lia) eq_refl) as [? [=]]]
        | solve [destruct (H67 _ ltac:(lia) eq_refl) as [? [=]]]
        | solve [destruct (H68 _ ltac:(lia) eq_refl) as [? [=]]]
        | solve [destruct (H78 _ ltac:(lia) eq_refl) as [? [=]]] ].
Qed.

Lemma scan_first ids (landmarks : list Landmark) w h c j rest :
  List.filter (PosePenaltyKick.touching landmarks w h c) ids = j :: rest ->
  exists lm, landmarks !! value j = Some lm
    /\ PosePenaltyKick.scan ids landmarks w h c
       = Returned (true, Some (PosePenaltyKick.pixel lm w h), Some (name j)).
Proof.
  induction ids as [|i ids IH]; simpl; [discriminate|].
  unfold PosePenaltyKick.touching at 1.
  destruct (Nat.ltb_spec (value i) (length landmarks)) as [Hlt|Hge].
  - destruct (index_Returned landmarks (value i) Hlt) as (lm & Hlm & Hix).
    rewrite Hlm, Hix.
    destruct (Qltb (5 # 10) (visibility lm)); simpl.
    + destruct (PosePenaltyKick.calculate_distance_le _ c _); simpl.
      * intros [= <- <-]. eauto.
      * exact IH.
    + exact IH.
  - rewrite (lookup_ge_None_2 _ _ Hge). exact IH.
Qed.

Lemma scan_returns ids (landmarks : list Landmark) w h c :
  exists r, PosePenaltyKick.scan ids landmarks w h c = Returned r.
Proof.
  induction ids as [|i ids IH]; simpl; [eauto|].
  destruct (Nat.ltb_spec (value i) (length landmarks)) as [Hlt|Hge]; [|exact IH].
  destruct (index_Returned landmarks (value i) Hlt) as (lm & _ & ->).
  destruct (Qltb (5 # 10) (visibility lm)); [|exact IH].
  destruct (PosePenaltyKick.calculate_distance_le _ c _); [eauto|exact IH].
Qed.

(** What [scan] reports is a landmark of the list it was given, whose
    visibility is above 0.5 and whose pixel is within the threshold. *)
Lemma scan_reported ids (landmarks : list Landmark) w h c b xy nm :
  PosePenaltyKick.scan ids landmarks w h c = Returned (b, xy, Some nm) ->
  exists j lm, In j ids /\ nm = name j /\ landmarks !! value j = Some lm
    /\ (5 # 10 < visibility lm)%Q
    /\ PosePenaltyKick.touching landmarks w h c j = true.
Proof.
  induction ids as [|i ids IH]; simpl; [discriminate|].
  assert (IH' : PosePenaltyKick.scan ids landmarks w h c = Returned (b, xy, Some nm) ->
    exists j lm, (i = j \/ In j ids) /\ nm = name j /\ landmarks !! value j = Some lm
      /\ (5 # 10 < visibility lm)%Q /\ PosePenaltyKick.touching landmarks w h c j = true).
  { intros H. destruct (IH H) as (j & lm & ? & ?). exists j, lm. auto. }
  destruct (Nat.ltb_spec (value i) (length landmarks)) as [Hlt|Hge]; [|exact IH'].
  destruct (index_Returned landmarks (value i) Hlt) as (lm & Hlm & ->).
  destruct (Qltb (5 # 10) (visibility lm)) eqn:Hv; [|exact IH'].
  destruct (PosePenaltyKick.calculate_distance_le _ c _) eqn:Hd; [|exact IH'].
  intros [= <- <- <-]. exists i, lm. repeat split; auto.
  - by apply Qltb_true.
  - unfold PosePenaltyKick.touching. rewrite Hlm, Hv, Hd. reflexivity.
Qed.

Lemma check_leg_detection_ignores_visibility (landmarks : list Landmark) (v : Landmark -> Q) :
  PenaltyKick.check_leg_detection
    (map (fun lm => mkLandmark (x lm) (y lm) (v lm)) landmarks)
  = PenaltyKick.check_leg_detection landmarks.
Proof.
  unfold PenaltyKick.check_leg_detection, index.
  rewrite !list_lookup_fmap.
  destruct (landmarks !! value LEFT_KNEE) as [k1|];
    cbn [fmap option_fmap option_map x y]; [|reflexivity].
  destruct (PenaltyKick.is_point_in_circle (x k1) (y k1)); [reflexivity|].
  destruct (landmarks !! value RIGHT_KNEE) as [k2|];
    cbn [fmap option_fmap option_map x y]; [|reflexivity].
  destruct (PenaltyKick.is_point_in_circle (x k2) (y k2)); [reflexivity|].
  destruct (landmarks !! value LEFT_ANKLE) as [k3|];
    cbn [fmap option_fmap option_map x y]; [|reflexivity].
  destruct (PenaltyKick.is_point_in_circle (x k3) (y k3)); [reflexivity|].
  destruct (landmarks !! value RIGHT_ANKLE) as [k4|];
    cbn [fmap option_fmap option_map x y]; [|reflexivity].
  destruct (PenaltyKick.is_point_in_circle (x k4) (y k4)); reflexivity.
Qed.

(** C1, as amended.  In [pose_penalty_kick.py] a landmark whose visibility
    is at most 0.5 is never the one [is_foot_touching_circle] reports,
    wherever it lies; [check_leg_detection] of [penalty_kick.py] does not
    read the visibility: its result is the same whatever visibilities the
    landmarks carry. *)
Theorem confidence_gate_in_pose_variant_only :
  (forall (landmarks : list Landmark) w h c j lm b xy,
      landmarks !! value j = Some lm ->
      (visibility lm <= 5 # 10)%Q ->
      PosePenaltyKick.is_foot_touching_circle landmarks w h c
        <> Returned (b, xy, Some (name j)))
  /\ (forall (landmarks : list Landmark) (v : Landmark -> Q),
        PenaltyKick.check_leg_detection
          (map (fun lm => mkLandmark (x lm) (y lm) (v lm)) landmarks)
        = PenaltyKick.check_leg_detection landmarks).
Proof.
  split; [|exact check_leg_detection_ignores_visibility].
  intros landmarks w h c j lm b xy Hj Hv Hr.
  apply scan_reported in Hr as (j' & lm' & _ & Hn & Hj' & Hlt & _).
  apply name_inj in Hn. subst j'.
  rewrite Hj in Hj'. injection Hj' as <-.
  apply (Qlt_not_le _ _ Hlt Hv).
Qed.

(** C10.  [is_foot_touching_circle] returns a result on every landmark
    list, of any length: no index it uses is out of range. *)
Theorem is_foot_touching_circle_returns
    (landmarks : list Landmark) (image_width image_height : Z) (circle_center : Z * Z) :
  exists r,
    PosePenaltyKick.is_foot_touching_circle landmarks image_width image_height circle_center
    = Returned r.
Proof. apply scan_returns. Qed.

Lemma scan_out_of_range ids (landmarks : list Landmark) w h c :
  Forall (fun i => (length landmarks <= value i)%nat) ids ->
  PosePenaltyKick.scan ids landmarks w h c = Returned (false, None, None).
Proof.
  induction 1 as [|i ids Hi _ IH]; simpl; [reflexivity|].
  destruct (Nat.ltb_spec (value i) (length landmarks)) as [Hlt|_]; [lia|exact IH].
Qed.

(** X7.  On a list with fewer than 24 landmarks nothing is reported. *)
Lemma is_foot_touching_circle_short (landmarks : list Landmark) w h c :
  (length landmarks <= 23)%nat ->
  PosePenaltyKick.is_foot_touching_circle landmarks w h c = Returned (false, None, None).
Proof.
  intros Hl. apply scan_out_of_range.
  unfold PosePenaltyKick.leg_landmarks.
  repeat (apply List.Forall_cons; [simpl; lia|]). apply List.Forall_nil.
Qed.

(** C8.  In both programs the joint reported is the first one, in the
    order of the fixed list, that qualifies; the joints after it play no
    part, however close they are. *)
Theorem first_qualifying_joint_is_reported :
  (forall (landmarks : list Landmark) j label rest,
      List.filter (fun jl => PenaltyKick.in_circle landmarks (fst jl))
        PenaltyKick.tracked_joints = (j, label) :: rest ->
      PenaltyKick.check_leg_detection landmarks = Returned (true, Some label))
  /\ (forall (landmarks : list Landmark) w h c j rest,
        List.filter (PosePenaltyKick.touching landmarks w h c)
          PosePenaltyKick.leg_landmarks = j :: rest ->
        exists lm, landmarks !! value j = Some lm
          /\ PosePenaltyKick.is_foot_touching_circle landmarks w h c
             = Returned (true, Some (PosePenaltyKick.pixel lm w h), Some (name j))).
Proof.
  split.
  - exact check_leg_detection_first.
  - intros landmarks w h c j rest. apply scan_first.
Qed.

Lemma first_qualifying_joint_is_reported_witness :
  PenaltyKick.check_leg_detection both_knees = Returned (true, Some "Left Knee")
  /\ PosePenaltyKick.is_foot_touching_circle both_knees_px 640 480 (320, 380)
     = Returned (true, Some (320, 360), Some "LEFT_KNEE").
Proof.
  destruct first_qualifying_joint_is_reported as [Hpk Hpose]. split.
  - apply (Hpk both_knees LEFT_KNEE "Left Knee" [(RIGHT_KNEE, "Right Knee")]).
    vm_compute. reflexivity.
  - destruct (Hpose both_knees_px 640 480 (320, 380) LEFT_KNEE [RIGHT_KNEE])
      as (lm & Hlm & Hr).
    + vm_compute. reflexivity.
    + rewrite Hr. vm_compute in Hlm. injection Hlm as <-. vm_compute. reflexivity.
Defined.

Lemma confidence_gate_in_pose_variant_only_witness :
  PosePenaltyKick.is_foot_touching_circle both_knees_px 640 480 (320, 380)
    <> Returned (true, Some (320, 380), Some "LEFT_HIP")
  /\ PenaltyKick.check_leg_detection
       (map (fun lm => mkLandmark (x lm) (y lm) 0) both_knees)
     = PenaltyKick.check_leg_detection both_knees.
Proof.
  destruct confidence_gate_in_pose_variant_only as [Hpose Hpk]. split.
  - apply (Hpose both_knees_px 640 480 (320, 380) LEFT_HIP
             (mkLandmark (5 # 10) (19 # 24) (5 # 10)) true (Some (320, 380))).
    + vm_compute. reflexivity.
    + vm_compute. discriminate.
  - apply (Hpk both_knees (fun _ => 0%Q)).
Defined.

(** C1 fails as stated: in [penalty_kick.py] a left knee at the centre of
    the circle is reported although its visibility is 0. *)
Lemma hidden_knee_is_reported :
  (exists lm, hidden_knee !! value LEFT_KNEE = Some lm
     /\ PenaltyKick.is_point_in_circle (x lm) (y lm) = true
     /\ (visibility lm <= 5 # 10)%Q)
  /\ PenaltyKick.check_leg_detection hidden_knee = Returned (true, Some "Left Knee").
Proof.
  split.
  - exists (mkLandmark (5 # 10) (5 # 10) 0). repeat split.
    vm_compute. discriminate.
  - vm_compute. reflexivity.
Qed.

(** * penalty_kick.py: the action thread and the trigger *)

Section PenaltyKickFacts.
Import PenaltyKick.

Lemma try_call_spec c next s :
  let ps := try_call c next s in
  clock ps.2 = clock s
  /\ action_active ps.2 = action_active s
  /\ last_action_time ps.2 = last_action_time s
  /\ action_thread ps.2 = action_thread s
  /\ threads ps.2 = threads s
  /\ issued (gamepad ps.2) = issued (gamepad s) ++ [c]
  /\ (ps.1 = next \/ ps.1 = at_reset_active)
  /\ (faults (gamepad s) = [] -> ps.1 = next /\ faults (gamepad ps.2) = []).
Proof.
  unfold try_call, call.
  destruct (faults (gamepad s)) as [|[] fs]; simpl;
    repeat split; auto; discriminate.
Qed.

Lemma execute_frame p s :
  threads (execute_penalty_kick p s).2 = threads s
  /\ clock (execute_penalty_kick p s).2 = clock s
  /\ action_thread (execute_penalty_kick p s).2 = action_thread s.
Proof.
  destruct p; simpl; auto;
    try (match goal with
         | |- context [try_call ?c ?n s] =>
             destruct (try_call_spec c n s) as (? & ? & ? & ? & ? & _)
         end; auto).
  destruct (Qle_bool until (clock s)); auto.
Qed.

Lemma tick_frame d s :
  threads (tick d s) = threads s
  /\ gamepad (tick d s) = gamepad s
  /\ action_active (tick d s) = action_active s
  /\ last_action_time (tick d s) = last_action_time s
  /\ action_thread (tick d s) = action_thread s
  /\ (clock s <= clock (tick d s))%Q.
Proof.
  unfold tick. destruct (Qle_bool 0 d) eqn:E; simpl; repeat split; auto.
  - apply Qle_bool_iff in E. lra.
  - lra.
Qed.

Lemma wake_frame i s :
  threads (wake i s) = threads s
  /\ gamepad (wake i s) = gamepad s
  /\ action_active (wake i s) = action_active s
  /\ last_action_time (wake i s) = last_action_time s
  /\ action_thread (wake i s) = action_thread s
  /\ (clock s <= clock (wake i s))%Q
  /\ (forall u, threads s !! i = Some (sleeping u) -> (u <= clock (wake i s))%Q).
Proof.
  unfold wake.
  destruct (threads s !! i) as [[]|] eqn:E; simpl;
    repeat split; auto; try lra; try discriminate.
  all: destruct (Qltb (clock s) until) eqn:Hlt; simpl; auto; try lra.
  - apply Qltb_true in Hlt. lra.
  - intros u [= <-]. lra.
  - intros u [= <-]. apply Qltb_false in Hlt. exact Hlt.
Qed.

Lemma run_thread_at i p s :
  threads s !! i = Some p ->
  run_thread i s
  = set_threads (<[i := (execute_penalty_kick p s).1]> (threads s))
      (execute_penalty_kick p s).2.
Proof.
  intros H. unfold run_thread. rewrite H.
  destruct (execute_frame p s) as (Ht & _).
  destruct (execute_penalty_kick p s) as [p' s']. simpl in *. by rewrite Ht.
Qed.

Lemma run_thread_lookup i p s :
  threads s !! i = Some p ->
  threads (run_thread i s) !! i = Some (execute_penalty_kick p s).1.
Proof.
  intros H. rewrite (run_thread_at i p s H). simpl.
  apply list_lookup_insert_eq. by apply lookup_lt_Some in H.
Qed.

Lemma advance_spec i d p s :
  threads s !! i = Some p ->
  p <> finished ->
  leaving p s ->
  exists p', threads (advance i d s) !! i = Some p'
    /\ (remaining p' < remaining p)%nat
    /\ leaving p' (advance i d s).
Proof.
  intros Hp Hnf Hl. unfold advance.
  destruct (tick_frame d s) as (Tt & Tg & Ta & Tl & _ & Tc).
  destruct (wake_frame i (tick d s)) as (Wt & Wg & Wa & Wl & _ & Wc & Wu).
  set (s1 := wake i (tick d s)) in *.
  assert (Hp1 : threads s1 !! i = Some p) by (rewrite Wt, Tt; exact Hp).
  assert (Ha1 : action_active s1 = action_active s) by congruence.
  exists (execute_penalty_kick p s1).1.
  split; [apply run_thread_lookup, Hp1|].
  rewrite (run_thread_at i p s1 Hp1).
  destruct p; simpl in *; try congruence;
    try (match goal with
         | |- context [try_call ?c ?n s1] =>
             destruct (try_call_spec c n s1) as (_ & Ca & _ & _ & _ & _ & [-> | ->] & _)
         end; simpl; split; auto; lia).
  - split; [lia|auto].
  - rewrite Tt in Wu. specialize (Wu until Hp).
    apply Qle_bool_iff in Wu. rewrite Wu. simpl. split; [lia|auto].
  - split; [lia|reflexivity].
  - split; [lia|]. split; [congruence|reflexivity].
Qed.

Lemma solo_finishes i (n : nat) : forall delays p s,
  threads s !! i = Some p ->
  (remaining p <= n)%nat ->
  (n <= length delays)%nat ->
  leaving p s ->
  threads (solo i delays s) !! i = Some finished
  /\ action_active (solo i delays s) = false
  /\ last_action_time (solo i delays s) = clock (solo i delays s).
Proof.
  induction n as [|n IH]; intros delays p s Hp Hr Hn Hl.
  - assert (p = finished) by (destruct p; simpl in Hr; try lia; reflexivity).
    subst p. destruct delays as [|d ds]; simpl.
    + destruct Hl. auto.
    + unfold is_alive. rewrite Hp. destruct Hl. auto.
  - destruct delays as [|d ds]; [simpl in Hn; lia|]. simpl.
    unfold is_alive. rewrite Hp.
    assert (Hdec : p = finished \/ p <> finished)
      by (destruct p; auto; right; discriminate).
    destruct Hdec as [->|Hnf].
    { destruct Hl. auto. }
    destruct (advance_spec i d p s Hp Hnf Hl) as (p' & Hp' & Hlt & Hl').
    fold (advance i d s).
    replace (match p with finished => false | _ => true end) with true
      by (destruct p; congruence).
    apply (IH ds p' (advance i d s) Hp'); [lia|simpl in Hn; lia|exact Hl'].
Qed.

Lemma advance_on_schedule i d t0 log0 p s :
  threads s !! i = Some p ->
  p <> finished ->
  on_schedule t0 log0 p s ->
  exists p', threads (advance i d s) !! i = Some p'
    /\ (remaining p' < remaining p)%nat
    /\ on_schedule t0 log0 p' (advance i d s).
Proof.
  intros Hp Hnf (Hf & Hlog & Ht). unfold advance.
  destruct (tick_frame d s) as (Tt & Tg & Ta & Tl & _ & Tc).
  destruct (wake_frame i (tick d s)) as (Wt & Wg & Wa & Wl & _ & Wc & Wu).
  set (s1 := wake i (tick d s)) in *.
  assert (Hp1 : threads s1 !! i = Some p) by (rewrite Wt, Tt; exact Hp).
  assert (Hg1 : gamepad s1 = gamepad s) by congruence.
  assert (Hc1 : (clock s <= clock s1)%Q) by lra.
  exists (execute_penalty_kick p s1).1.
  split; [apply run_thread_lookup, Hp1|].
  rewrite (run_thread_at i p s1 Hp1).
  unfold on_schedule.
  destruct p; simpl in *; try congruence;
    try (match goal with
         | |- context [try_call ?c ?n s1] =>
             destruct (try_call_spec c n s1)
               as (Cc & Ca & Cl & _ & _ & Ci & _ & Cf);
             rewrite Hg1 in Cf, Ci; destruct (Cf Hf) as [-> Cf'];
             rewrite Cf', Ci, Hlog, Cc, <- ?app_assoc
         end; simpl; repeat split; auto; try lia; try lra).
  - rewrite Hg1. repeat split; auto; try lia. unfold action_duration in *. lra.
  - rewrite Tt in Wu. specialize (Wu until Hp).
    pose proof Wu as Wb. apply Qle_bool_iff in Wb. rewrite Wb. simpl.
    rewrite Hg1. repeat split; auto; try lia. lra.
  - rewrite Hg1. repeat split; auto; try lia; lra.
  - rewrite Hg1. destruct Ht as [Ht Ha]. repeat split; auto; try lia; try lra. congruence.
Qed.

Lemma solo_on_schedule i t0 log0 (n : nat) : forall delays p s,
  threads s !! i = Some p ->
  (remaining p <= n)%nat ->
  (n <= length delays)%nat ->
  on_schedule t0 log0 p s ->
  threads (solo i delays s) !! i = Some finished
  /\ on_schedule t0 log0 finished (solo i delays s).
Proof.
  induction n as [|n IH]; intros delays p s Hp Hr Hn Hs.
  - assert (p = finished) by (destruct p; simpl in Hr; try lia; reflexivity).
    subst p. destruct delays as [|d ds]; simpl; [auto|].
    unfold is_alive. rewrite Hp. auto.
  - destruct delays as [|d ds]; [simpl in Hn; lia|]. simpl.
    unfold is_alive. rewrite Hp.
    assert (Hdec : p = finished \/ p <> finished)
      by (destruct p; auto; right; discriminate).
    destruct Hdec as [->|Hnf]; [auto|].
    destruct (advance_on_schedule i d t0 log0 p s Hp Hnf Hs) as (p' & Hp' & Hlt & Hs').
    fold (advance i d s).
    replace (match p with finished => false | _ => true end) with true
      by (destruct p; congruence).
    apply (IH ds p' (advance i d s) Hp'); [lia|simpl in Hn; lia|exact Hs'].
Qed.

(** A trigger inside the cooldown changes nothing. *)
Lemma trigger_in_cooldown s :
  action_active s = false ->
  (clock s - last_action_time s < action_cooldown)%Q ->
  trigger_penalty_kick s = s.
Proof.
  intros Ha Hc. unfold trigger_penalty_kick. rewrite Ha.
  apply Qltb_true in Hc. rewrite Hc. reflexivity.
Qed.

Lemma trigger_while_active s :
  action_active s = true -> trigger_penalty_kick s = s.
Proof. intros Ha. unfold trigger_penalty_kick. rewrite Ha. reflexivity. Qed.

Lemma trigger_fires s :
  action_active s = false ->
  (action_cooldown <= clock s - last_action_time s)%Q ->
  trigger_penalty_kick s
  = {| clock := clock s; gamepad := gamepad s; action_active := true;
       last_action_time := last_action_time s;
       action_thread := Some (length (threads s));
       threads := threads s ++ [at_press_stick] |}.
Proof.
  intros Ha Hc. unfold trigger_penalty_kick. rewrite Ha.
  apply Qltb_false in Hc. rewrite Hc. reflexivity.
Qed.

(** A frame changes the state through the trigger only. *)
Lemma process_frame_state pose_landmarks s :
  (process_frame pose_landmarks s).2 = s
  \/ (process_frame pose_landmarks s).2 = trigger_penalty_kick s.
Proof.
  unfold process_frame. destruct pose_landmarks as [landmarks|]; [|auto].
  destruct (check_leg_detection landmarks) as [[[] ?]|e]; auto.
Qed.

Lemma filter_length_insert (f : pc -> bool) (l : list pc) (i : nat) (p p' : pc) :
  l !! i = Some p ->
  (length (List.filter f (<[i := p']> l)) + (if f p then 1 else 0)
   = length (List.filter f l) + (if f p' then 1 else 0))%nat.
Proof.
  revert i. induction l as [|a l IH]; intros [|i] H; simpl in *; try discriminate.
  - injection H as ->. destruct (f p), (f p'); simpl; lia.
  - specialize (IH i H). destruct (f a); simpl; lia.
Qed.

Lemma execute_holding p s :
  let ps := execute_penalty_kick p s in
  (holding p = true /\ holding ps.1 = true /\ action_active ps.2 = action_active s)
  \/ (holding p = true /\ holding ps.1 = false /\ action_active ps.2 = false)
  \/ (holding p = false /\ holding ps.1 = false /\ action_active ps.2 = action_active s).
Proof.
  destruct p; simpl; auto;
    try (match goal with
         | |- context [try_call ?c ?n s] =>
             destruct (try_call_spec c n s) as (_ & Ca & _ & _ & _ & _ & [-> | ->] & _)
         end; auto).
  destruct (Qle_bool until (clock s)); auto.
Qed.

(** The threads that hold are as many as the flag says: one when
    [action_active] is set, none otherwise. *)
Lemma holding_invariant s :
  reachable s ->
  length (List.filter holding (threads s)) = if action_active s then 1%nat else 0%nat.
Proof.
  induction 1 as [now fs|ev s Hr IH]; [reflexivity|].
  assert (Htrig : length (List.filter holding (threads (trigger_penalty_kick s)))
                  = if action_active (trigger_penalty_kick s) then 1%nat else 0%nat).
  { unfold trigger_penalty_kick.
    destruct (action_active s) eqn:Ha; [rewrite Ha; exact IH|].
    destruct (Qltb _ _); [rewrite Ha; exact IH|]. simpl.
    rewrite List.filter_app, length_app, IH. reflexivity. }
  destruct ev as [d|i|pose_landmarks esc| | |]; simpl; try exact IH.
  - destruct (tick_frame d s) as (-> & _ & -> & _). exact IH.
  - destruct (threads s !! i) as [p|] eqn:Hp;
      [|unfold run_thread; rewrite Hp; exact IH].
    rewrite (run_thread_at i p s Hp). simpl.
    pose proof (filter_length_insert holding (threads s) i p
                  (execute_penalty_kick p s).1 Hp) as Hlen.
    destruct (execute_holding p s) as [(H1 & H2 & H3)|[(H1 & H2 & H3)|(H1 & H2 & H3)]];
      rewrite H1, H2 in Hlen; rewrite H3; try (rewrite <- IH; lia).
    destruct (action_active s); lia.
  - destruct (process_frame_state pose_landmarks s) as [-> | ->]; [exact IH|exact Htrig].
Qed.

End PenaltyKickFacts.

(** * pose_penalty_kick.py: the kick thread and the trigger *)

Section PosePenaltyKickFacts.
Import PosePenaltyKick.

Lemma pose_try_call_spec c next s :
  let ps := try_call c next s in
  clock ps.2 = clock s
  /\ is_kicking ps.2 = is_kicking s
  /\ last_kick_time ps.2 = last_kick_time s
  /\ threads ps.2 = threads s
  /\ issued (gamepad ps.2) = issued (gamepad s) ++ [c]
  /\ (ps.1 = next \/ ps.1 = at_reset_kicking)
  /\ (faults (gamepad s) = [] -> ps.1 = next /\ faults (gamepad ps.2) = []).
Proof.
  unfold try_call, call.
  destruct (faults (gamepad s)) as [|[] fs]; simpl;
    repeat split; auto; discriminate.
Qed.

Lemma pose_execute_frame p s :
  threads (execute_penalty_kick p s).2 = threads s
  /\ clock (execute_penalty_kick p s).2 = clock s.
Proof.
  destruct p; simpl; auto;
    try (match goal with
         | |- context [try_call ?c ?n s] =>
             destruct (pose_try_call_spec c n s) as (? & ? & ? & ? & _)
         end; auto).
  - destruct (is_kicking s); auto.
  - destruct (Qle_bool until (clock s)); auto.
Qed.

Lemma pose_tick_frame d s :
  threads (tick d s) = threads s
  /\ gamepad (tick d s) = gamepad s
  /\ is_kicking (tick d s) = is_kicking s
  /\ last_kick_time (tick d s) = last_kick_time s
  /\ (clock s <= clock (tick d s))%Q.
Proof.
  unfold tick. destruct (Qle_bool 0 d) eqn:E; simpl; repeat split; auto.
  - apply Qle_bool_iff in E. lra.
  - lra.
Qed.

Lemma pose_wake_frame i s :
  threads (wake i s) = threads s
  /\ gamepad (wake i s) = gamepad s
  /\ is_kicking (wake i s) = is_kicking s
  /\ last_kick_time (wake i s) = last_kick_time s
  /\ (clock s <= clock (wake i s))%Q
  /\ (forall u, threads s !! i = Some (sleeping u) -> (u <= clock (wake i s))%Q).
Proof.
  unfold wake.
  destruct (threads s !! i) as [[]|] eqn:E; simpl;
    repeat split; auto; try lra; try discriminate.
  all: destruct (Qltb (clock s) until) eqn:Hlt; simpl; auto; try lra.
  - apply Qltb_true in Hlt. lra.
  - intros u [= <-]. lra.
  - intros u [= <-]. apply Qltb_false in Hlt. exact Hlt.
Qed.

Lemma pose_run_thread_at i p s :
  threads s !! i = Some p ->
  run_thread i s
  = set_threads (<[i := (execute_penalty_kick p s).1]> (threads s))
      (execute_penalty_kick p s).2.
Proof.
  intros H. unfold run_thread. rewrite H.
  destruct (pose_execute_frame p s) as (Ht & _).
  destruct (execute_penalty_kick p s) as [p' s']. simpl in *. by rewrite Ht.
Qed.

Lemma pose_run_thread_lookup i p s :
  threads s !! i = Some p ->
  threads (run_thread i s) !! i = Some (execute_penalty_kick p s).1.
Proof.
  intros H. rewrite (pose_run_thread_at i p s H). simpl.
  apply list_lookup_insert_eq. by apply lookup_lt_Some in H.
Qed.

Lemma pose_advance_spec i d p s :
  threads s !! i = Some p ->
  p <> finished ->
  leaving p s ->
  exists p', threads (advance i d s) !! i = Some p'
    /\ (remaining p' < remaining p)%nat
    /\ leaving p' (advance i d s).
Proof.
  intros Hp Hnf Hl. unfold advance.
  destruct (pose_tick_frame d s) as (Tt & Tg & Ta & Tl & Tc).
  destruct (pose_wake_frame i (tick d s)) as (Wt & Wg & Wa & Wl & Wc & Wu).
  set (s1 := wake i (tick d s)) in *.
  assert (Hp1 : threads s1 !! i = Some p) by (rewrite Wt, Tt; exact Hp).
  assert (Ha1 : is_kicking s1 = is_kicking s) by congruence.
  exists (execute_penalty_kick p s1).1.
  split; [apply pose_run_thread_lookup, Hp1|].
  rewrite (pose_run_thread_at i p s1 Hp1).
  destruct p; simpl in *; try congruence;
    try (match goal with
         | |- context [try_call ?c ?n s1] =>
             destruct (pose_try_call_spec c n s1) as (_ & Ca & _ & _ & _ & [-> | ->] & _)
         end; simpl; split; auto; lia).
  - rewrite Ha1, Hl. simpl. split; [lia|auto].
  - split; [lia|auto].
  - split; [lia|auto].
  - rewrite Tt in Wu. specialize (Wu until Hp).
    apply Qle_bool_iff in Wu. rewrite Wu. simpl. split; [lia|auto].
  - split; [lia|reflexivity].
  - split; [lia|]. split; [congruence|reflexivity].
Qed.

Lemma pose_solo_finishes i (n : nat) : forall delays p s,
  threads s !! i = Some p ->
  (remaining p <= n)%nat ->
  (n <= length delays)%nat ->
  leaving p s ->
  threads (solo i delays s) !! i = Some finished
  /\ is_kicking (solo i delays s) = false
  /\ last_kick_time (solo i delays s) = clock (solo i delays s).
Proof.
  induction n as [|n IH]; intros delays p s Hp Hr Hn Hl.
  - assert (p = finished) by (destruct p; simpl in Hr; try lia; reflexivity).
    subst p. destruct delays as [|d ds]; simpl.
    + destruct Hl. auto.
    + unfold is_alive. rewrite Hp. destruct Hl. auto.
  - destruct delays as [|d ds]; [simpl in Hn; lia|]. simpl.
    unfold is_alive. rewrite Hp.
    assert (Hdec : p = finished \/ p <> finished)
      by (destruct p; auto; right; discriminate).
    destruct Hdec as [->|Hnf].
    { destruct Hl. auto. }
    destruct (pose_advance_spec i d p s Hp Hnf Hl) as (p' & Hp' & Hlt & Hl').
    fold (advance i d s).
    replace (match p with finished => false | _ => true end) with true
      by (destruct p; congruence).
    apply (IH ds p' (advance i d s) Hp'); [lia|simpl in Hn; lia|exact Hl'].
Qed.

Lemma pose_advance_on_schedule i d t0 log0 p s :
  threads s !! i = Some p ->
  p <> finished ->
  on_schedule t0 log0 p s ->
  exists p', threads (advance i d s) !! i = Some p'
    /\ (remaining p' < remaining p)%nat
    /\ on_schedule t0 log0 p' (advance i d s).
Proof.
  intros Hp Hnf (Hf & Hlog & Ht). unfold advance.
  destruct (pose_tick_frame d s) as (Tt & Tg & Ta & Tl & Tc).
  destruct (pose_wake_frame i (tick d s)) as (Wt & Wg & Wa & Wl & Wc & Wu).
  set (s1 := wake i (tick d s)) in *.
  assert (Hp1 : threads s1 !! i = Some p) by (rewrite Wt, Tt; exact Hp).
  assert (Hg1 : gamepad s1 = gamepad s) by congruence.
  assert (Ha1 : is_kicking s1 = is_kicking s) by congruence.
  assert (Hc1 : (clock s <= clock s1)%Q) by lra.
  exists (execute_penalty_kick p s1).1.
  split; [apply pose_run_thread_lookup, Hp1|].
  rewrite (pose_run_thread_at i p s1 Hp1).
  unfold on_schedule.
  destruct p; simpl in *; try congruence;
    try (match goal with
         | |- context [try_call ?c ?n s1] =>
             destruct (pose_try_call_spec c n s1)
               as (Cc & Ca & Cl & _ & Ci & _ & Cf);
             rewrite Hg1 in Cf, Ci; destruct (Cf Hf) as [-> Cf'];
             rewrite Cf', Ci, Hlog, Cc, <- ?app_assoc
         end; simpl; repeat split; auto; try lia; try lra).
  - destruct Ht as [Ht Hk]. rewrite Ha1, Hk. simpl.
    rewrite Hg1. repeat split; auto; try lia; lra.
  - rewrite Hg1. repeat split; auto; try lia; lra.
  - rewrite Hg1. repeat split; auto; try lia. unfold kick_duration in *. lra.
  - rewrite Tt in Wu. specialize (Wu until Hp).
    pose proof Wu as Wb. apply Qle_bool_iff in Wb. rewrite Wb. simpl.
    rewrite Hg1. repeat split; auto; try lia. lra.
  - rewrite Hg1. repeat split; auto; try lia; lra.
  - rewrite Hg1. destruct Ht as [Ht Ha]. repeat split; auto; try lia; try lra. congruence.
Qed.

Lemma pose_solo_on_schedule i t0 log0 (n : nat) : forall delays p s,
  threads s !! i = Some p ->
  (remaining p <= n)%nat ->
  (n <= length delays)%nat ->
  on_schedule t0 log0 p s ->
  threads (solo i delays s) !! i = Some finished
  /\ on_schedule t0 log0 finished (solo i delays s).
Proof.
  induction n as [|n IH]; intros delays p s Hp Hr Hn Hs.
  - assert (p = finished) by (destruct p; simpl in Hr; try lia; reflexivity).
    subst p. destruct delays as [|d ds]; simpl; [auto|].
    unfold is_alive. rewrite Hp. auto.
  - destruct delays as [|d ds]; [simpl in Hn; lia|]. simpl.
    unfold is_alive. rewrite Hp.
    assert (Hdec : p = finished \/ p <> finished)
      by (destruct p; auto; right; discriminate).
    destruct Hdec as [->|Hnf]; [auto|].
    destruct (pose_advance_on_schedule i d t0 log0 p s Hp Hnf Hs)
      as (p' & Hp' & Hlt & Hs').
    fold (advance i d s).
    replace (match p with finished => false | _ => true end) with true
      by (destruct p; congruence).
    apply (IH ds p' (advance i d s) Hp'); [lia|simpl in Hn; lia|exact Hs'].
Qed.

Lemma trigger_kick_in_cooldown s :
  (clock s - last_kick_time s < cooldown_duration)%Q ->
  trigger_kick s = s.
Proof.
  intros Hc. unfold trigger_kick.
  destruct (Qle_bool cooldown_duration (clock s - last_kick_time s)) eqn:E;
    [|reflexivity].
  apply Qle_bool_iff in E. exfalso. apply (Qlt_not_le _ _ Hc E).
Qed.


Lemma trigger_kick_fires s :
  is_kicking s = false ->
  (cooldown_duration <= clock s - last_kick_time s)%Q ->
  trigger_kick s = set_threads (threads s ++ [at_guard]) s.
Proof.
  intros Hk Hc. unfold trigger_kick. rewrite Hk.
  apply Qle_bool_iff in Hc. rewrite Hc. reflexivity.
Qed.

Lemma pose_process_frame_state pose_landmarks w h s :
  (process_frame pose_landmarks w h s).2 = s
  \/ (process_frame pose_landmarks w h s).2 = trigger_kick s.
Proof.
  unfold process_frame. destruct pose_landmarks as [landmarks|]; [|auto].
  destruct (is_foot_touching_circle landmarks w h _) as [[[[] ?] ?]|e]; auto.
Qed.


End PosePenaltyKickFacts.

(** * The debounced action *)

Lemma reachable_exec evs s :
  PenaltyKick.reachable s -> PenaltyKick.reachable (PenaltyKick.exec evs s).
Proof.
  revert s. induction evs as [|ev evs IH]; intros s Hs; [exact Hs|].
  apply IH. by constructor.
Qed.

Lemma pose_reachable_exec evs s :
  PosePenaltyKick.reachable s -> PosePenaltyKick.reachable (PosePenaltyKick.exec evs s).
Proof.
  revert s. induction evs as [|ev evs IH]; intros s Hs; [exact Hs|].
  apply IH. by constructor.
Qed.

(** C7.  A trigger that comes while no action runs and less than the
    cooldown has passed since the last completion leaves the whole state
    as it is: the gamepad (no command issued), the threads (none
    started), the flag and the completion time; so does the frame that
    carries it. *)
Theorem trigger_inside_cooldown_changes_nothing :
  (forall s : PenaltyKick.state,
      PenaltyKick.action_active s = false ->
      (PenaltyKick.clock s - PenaltyKick.last_action_time s
         < PenaltyKick.action_cooldown)%Q ->
      PenaltyKick.trigger_penalty_kick s = s
      /\ forall pose_landmarks esc,
           PenaltyKick.step (PenaltyKick.Frame pose_landmarks esc) s = s)
  /\ (forall s : PosePenaltyKick.state,
        PosePenaltyKick.is_kicking s = false ->
        (PosePenaltyKick.clock s - PosePenaltyKick.last_kick_time s
           < PosePenaltyKick.cooldown_duration)%Q ->
        PosePenaltyKick.trigger_kick s = s
        /\ forall pose_landmarks w h q,
             PosePenaltyKick.step (PosePenaltyKick.Frame pose_landmarks w h q) s = s).
Proof.
  split.
  - intros s Ha Hc. pose proof (trigger_in_cooldown s Ha Hc) as Ht.
    split; [exact Ht|]. intros pl esc. simpl.
    destruct (process_frame_state pl s) as [-> | ->]; [reflexivity|exact Ht].
  - intros s _ Hc. pose proof (trigger_kick_in_cooldown s Hc) as Ht.
    split; [exact Ht|]. intros pl w h q. simpl.
    destruct (pose_process_frame_state pl w h s) as [-> | ->]; [reflexivity|exact Ht].
Qed.

Lemma trigger_inside_cooldown_changes_nothing_witness :
  PenaltyKick.step (PenaltyKick.Frame (Some both_knees) false) (PenaltyKick.init 1 [])
    = PenaltyKick.init 1 []
  /\ PosePenaltyKick.step (PosePenaltyKick.Frame (Some both_knees_px) 640 480 false)
       (PosePenaltyKick.init 1 [])
     = PosePenaltyKick.init 1 [].
Proof.
  destruct trigger_inside_cooldown_changes_nothing as [Hpk Hpose]. split.
  - apply (Hpk (PenaltyKick.init 1 [])); [reflexivity|vm_compute; reflexivity].
  - apply (Hpose (PosePenaltyKick.init 1 [])); [reflexivity|vm_compute; reflexivity].
Defined.

(** C5.  A thread that runs the effect body comes to its end, whatever
    calls of the gamepad raise on the way, and then the flag is clear and
    the completion time is the time of that moment.  (In
    [pose_penalty_kick.py] the body is what follows the guard: the thread
    is one that finds [is_kicking] clear.) *)
Theorem effect_body_always_resets :
  (forall (s : PenaltyKick.state) (i : nat) (delays : list Q),
      PenaltyKick.threads s !! i = Some PenaltyKick.at_press_stick ->
      (10 <= length delays)%nat ->
      let s' := PenaltyKick.solo i delays s in
      PenaltyKick.threads s' !! i = Some PenaltyKick.finished
      /\ PenaltyKick.action_active s' = false
      /\ PenaltyKick.last_action_time s' = PenaltyKick.clock s')
  /\ (forall (s : PosePenaltyKick.state) (i : nat) (delays : list Q),
        PosePenaltyKick.threads s !! i = Some PosePenaltyKick.at_guard ->
        PosePenaltyKick.is_kicking s = false ->
        (12 <= length delays)%nat ->
        let s' := PosePenaltyKick.solo i delays s in
        PosePenaltyKick.threads s' !! i = Some PosePenaltyKick.finished
        /\ PosePenaltyKick.is_kicking s' = false
        /\ PosePenaltyKick.last_kick_time s' = PosePenaltyKick.clock s').
Proof.
  split.
  - intros s i delays Hp Hn s'.
    apply (solo_finishes i 10 delays PenaltyKick.at_press_stick s Hp);
      [simpl; lia|exact Hn|exact I].
  - intros s i delays Hp Hk Hn s'.
    apply (pose_solo_finishes i 12 delays PosePenaltyKick.at_guard s Hp);
      [simpl; lia|exact Hn|exact Hk].
Qed.

Lemma effect_body_always_resets_witness :
  (let s' := PenaltyKick.solo 0 (replicate 10 (1 # 2)%Q)
               (PenaltyKick.trigger_penalty_kick (PenaltyKick.init 10 [false; true])) in
   PenaltyKick.action_active s' = false
   /\ PenaltyKick.last_action_time s' = PenaltyKick.clock s')
  /\ (let s' := PosePenaltyKick.solo 0 (replicate 12 (1 # 2)%Q)
                  (PosePenaltyKick.trigger_kick (PosePenaltyKick.init 10 [true])) in
      PosePenaltyKick.is_kicking s' = false
      /\ PosePenaltyKick.last_kick_time s' = PosePenaltyKick.clock s').
Proof.
  destruct effect_body_always_resets as [Hpk Hpose]. split.
  - apply (Hpk (PenaltyKick.trigger_penalty_kick (PenaltyKick.init 10 [false; true])) 0%nat
             (replicate 10 (1 # 2)%Q)); [reflexivity|simpl; lia].
  - apply (Hpose (PosePenaltyKick.trigger_kick (PosePenaltyKick.init 10 [true])) 0%nat
             (replicate 12 (1 # 2)%Q)); [reflexivity|reflexivity|simpl; lia].
Defined.

(** C6.  When a trigger fires at time [clock s0] and no call raises, the
    thread it starts issues the press commands, sleeps for the hold
    duration and issues the release commands, and only then stamps the
    completion time: the stamp is the time at the end, at least the hold
    duration after the trigger; a new trigger is refused until the
    cooldown has passed since that stamp. *)
Theorem completion_time_is_stamped_at_end_of_hold :
  (forall (s0 : PenaltyKick.state) (delays : list Q),
      PenaltyKick.action_active s0 = false ->
      (PenaltyKick.action_cooldown
         <= PenaltyKick.clock s0 - PenaltyKick.last_action_time s0)%Q ->
      faults (PenaltyKick.gamepad s0) = [] ->
      (10 <= length delays)%nat ->
      let s' := PenaltyKick.solo (length (PenaltyKick.threads s0)) delays
                  (PenaltyKick.trigger_penalty_kick s0) in
      issued (PenaltyKick.gamepad s')
        = issued (PenaltyKick.gamepad s0)
          ++ PenaltyKick.press_commands ++ PenaltyKick.release_commands
      /\ PenaltyKick.last_action_time s' = PenaltyKick.clock s'
      /\ (PenaltyKick.clock s0 + PenaltyKick.action_duration
            <= PenaltyKick.last_action_time s')%Q
      /\ forall d, (0 <= d)%Q -> (d < PenaltyKick.action_cooldown)%Q ->
           PenaltyKick.trigger_penalty_kick (PenaltyKick.tick d s')
           = PenaltyKick.tick d s')
  /\ (forall (s0 : PosePenaltyKick.state) (delays : list Q),
        PosePenaltyKick.is_kicking s0 = false ->
        (PosePenaltyKick.cooldown_duration
           <= PosePenaltyKick.clock s0 - PosePenaltyKick.last_kick_time s0)%Q ->
        faults (PosePenaltyKick.gamepad s0) = [] ->
        (12 <= length delays)%nat ->
        let s' := PosePenaltyKick.solo (length (PosePenaltyKick.threads s0)) delays
                    (PosePenaltyKick.trigger_kick s0) in
        issued (PosePenaltyKick.gamepad s')
          = issued (PosePenaltyKick.gamepad s0)
            ++ PosePenaltyKick.press_commands ++ PosePenaltyKick.release_commands
        /\ PosePenaltyKick.last_kick_time s' = PosePenaltyKick.clock s'
        /\ (PosePenaltyKick.clock s0 + PosePenaltyKick.kick_duration
              <= PosePenaltyKick.last_kick_time s')%Q
        /\ forall d, (0 <= d)%Q -> (d < PosePenaltyKick.cooldown_duration)%Q ->
             PosePenaltyKick.trigger_kick (PosePenaltyKick.tick d s')
             = PosePenaltyKick.tick d s').
Proof.
  split.
  - intros s0 delays Ha Hc Hf Hn s'.
    pose proof (trigger_fires s0 Ha Hc) as Ht.
    set (i := length (PenaltyKick.threads s0)) in *.
    set (s1 := PenaltyKick.trigger_penalty_kick s0) in *.
    assert (Hp : PenaltyKick.threads s1 !! i = Some PenaltyKick.at_press_stick).
    { rewrite Ht. simpl. subst i. apply list_lookup_middle. reflexivity. }
    assert (Hs : PenaltyKick.on_schedule (PenaltyKick.clock s0)
                   (issued (PenaltyKick.gamepad s0)) PenaltyKick.at_press_stick s1).
    { rewrite Ht. unfold PenaltyKick.on_schedule. simpl.
      rewrite app_nil_r. repeat split; auto. lra. }
    destruct (solo_on_schedule i _ _ 10 delays _ s1 Hp ltac:(simpl; lia) Hn Hs)
      as (_ & _ & Hlog & Hlast & Hstamp & Hidle).
    fold s' in Hlog, Hlast, Hstamp, Hidle.
    repeat split; auto.
    intros d Hd0 Hd. apply trigger_in_cooldown.
    + destruct (tick_frame d s') as (_ & _ & -> & _). exact Hidle.
    + unfold PenaltyKick.tick. apply Qle_bool_iff in Hd0. rewrite Hd0. simpl.
      rewrite Hstamp. lra.
  - intros s0 delays Ha Hc Hf Hn s'.
    pose proof (trigger_kick_fires s0 Ha Hc) as Ht.
    set (i := length (PosePenaltyKick.threads s0)) in *.
    set (s1 := PosePenaltyKick.trigger_kick s0) in *.
    assert (Hp : PosePenaltyKick.threads s1 !! i = Some PosePenaltyKick.at_guard).
    { rewrite Ht. simpl. subst i. apply list_lookup_middle. reflexivity. }
    assert (Hs : PosePenaltyKick.on_schedule (PosePenaltyKick.clock s0)
                   (issued (PosePenaltyKick.gamepad s0)) PosePenaltyKick.at_guard s1).
    { rewrite Ht. unfold PosePenaltyKick.on_schedule. simpl.
      rewrite app_nil_r. repeat split; auto. lra. }
    destruct (pose_solo_on_schedule i _ _ 12 delays _ s1 Hp ltac:(simpl; lia) Hn Hs)
      as (_ & _ & Hlog & Hlast & Hstamp & Hidle).
    fold s' in Hlog, Hlast, Hstamp, Hidle.
    repeat split; auto.
    intros d Hd0 Hd. apply trigger_kick_in_cooldown.
    unfold PosePenaltyKick.tick. apply Qle_bool_iff in Hd0. rewrite Hd0. simpl.
    rewrite Hstamp. lra.
Qed.

Lemma completion_time_is_stamped_at_end_of_hold_witness :
  (let s' := PenaltyKick.solo 0 (replicate 10 (1 # 4)%Q)
               (PenaltyKick.trigger_penalty_kick (PenaltyKick.init 10 [])) in
   PenaltyKick.last_action_time s' = PenaltyKick.clock s'
   /\ (10 + 2 <= PenaltyKick.last_action_time s')%Q
   /\ PenaltyKick.trigger_penalty_kick (PenaltyKick.tick (5 # 2) s')
      = PenaltyKick.tick (5 # 2) s')
  /\ (let s' := PosePenaltyKick.solo 0 (replicate 12 (1 # 4)%Q)
                  (PosePenaltyKick.trigger_kick (PosePenaltyKick.init 10 [])) in
      PosePenaltyKick.last_kick_time s' = PosePenaltyKick.clock s'
      /\ (10 + 2 <= PosePenaltyKick.last_kick_time s')%Q
      /\ PosePenaltyKick.trigger_kick (PosePenaltyKick.tick 4 s')
         = PosePenaltyKick.tick 4 s').
Proof.
  destruct completion_time_is_stamped_at_end_of_hold as [Hpk Hpose]. split.
  - destruct (Hpk (PenaltyKick.init 10 []) (replicate 10 (1 # 4)%Q))
      as (_ & H1 & H2 & H3).
    + reflexivity.
    + vm_compute. discriminate.
    + reflexivity.
    + simpl. lia.
    + split; [exact H1|]. split; [exact H2|].
      apply H3; vm_compute; [discriminate|reflexivity].
  - destruct (Hpose (PosePenaltyKick.init 10 []) (replicate 12 (1 # 4)%Q))
      as (_ & H1 & H2 & H3).
    + reflexivity.
    + vm_compute. discriminate.
    + reflexivity.
    + simpl. lia.
    + split; [exact H1|]. split; [exact H2|].
      apply H3; vm_compute; [discriminate|reflexivity].
Defined.




(** * Leaving the loop *)

Section CleanupFacts.
Import PenaltyKick.

Lemma reset_gamepad_spec sched s :
  exists s',
    reset_gamepad (sched, s) = (Returned tt, (sched, s'))
    /\ issued (gamepad s') = issued (gamepad s) ++ attempted_release (faults (gamepad s))
    /\ (faults (gamepad s) = [] -> faults (gamepad s') = []).
Proof.
  unfold reset_gamepad, try_except, bind, gamepad_call, call, ret, any_exn,
    attempted_release, release_commands.
  destruct (faults (gamepad s)) as [|[] [|[] [|[] fs]]]; simpl;
    eexists; (split; [reflexivity|]); simpl; rewrite <- ?app_assoc; simpl;
    split; auto; discriminate.
Qed.

Lemma execute_quiet p s :
  faults (gamepad s) = [] -> faults (gamepad (execute_penalty_kick p s).2) = [].
Proof.
  intros Hf. destruct p; simpl; auto;
    try (match goal with
         | |- context [try_call ?c ?n s] =>
             destruct (try_call_spec c n s) as (_ & _ & _ & _ & _ & _ & _ & Cf)
         end; apply Cf, Hf).
  destruct (Qle_bool until (clock s)); auto.
Qed.

Lemma trigger_gamepad s : gamepad (trigger_penalty_kick s) = gamepad s.
Proof.
  unfold trigger_penalty_kick.
  destruct (action_active s); [reflexivity|]. destruct (Qltb _ _); reflexivity.
Qed.

Lemma step_quiet ev s :
  faults (gamepad s) = [] -> faults (gamepad (step ev s)) = [].
Proof.
  intros Hf. destruct ev as [d|i|pl esc| | |]; simpl; auto.
  - destruct (tick_frame d s) as (_ & -> & _). exact Hf.
  - unfold run_thread. destruct (threads s !! i) as [p|]; [|exact Hf].
    pose proof (execute_quiet p s Hf) as H.
    destruct (execute_penalty_kick p s) as [p' s']. exact H.
  - destruct (process_frame_state pl s) as [-> | ->]; [exact Hf|].
    rewrite trigger_gamepad. exact Hf.
Qed.

Lemma step_background_quiet ev s :
  faults (gamepad s) = [] -> faults (gamepad (step_background ev s)) = [].
Proof.
  intros Hf. destruct ev; simpl; auto.
  - apply (step_quiet (Tick d)), Hf.
  - apply (step_quiet (Run i)), Hf.
Qed.

Lemma capture_loop_quiet sched : forall s,
  faults (gamepad s) = [] -> faults (gamepad (capture_loop sched s).2.2) = [].
Proof.
  induction sched as [|ev rest IH]; intros s Hf; simpl; [exact Hf|].
  destruct ev as [d|i|pl esc| | |]; simpl; auto.
  - apply IH, (step_quiet (Tick d)), Hf.
  - apply IH, (step_quiet (Run i)), Hf.
  - pose proof (step_quiet (Frame pl esc) s Hf) as H. simpl in H.
    destruct (process_frame pl s) as [[[]|e] s']; simpl in *; [|exact H].
    destruct esc; [exact H|apply IH, H].
Qed.

(** [join] raises nothing but the user's interrupt. *)
Lemma join_spec i deadline sched : forall s,
  ((join i deadline sched s).1 = Returned tt
   \/ (join i deadline sched s).1 = Raised KeyboardInterrupt)
  /\ (faults (gamepad s) = [] -> faults (gamepad (join i deadline sched s).2.2) = []).
Proof.
  induction sched as [|ev rest IH]; intros s; simpl; [auto|].
  destruct (negb (is_alive i s) || Qle_bool deadline (clock s)); [simpl; auto|].
  destruct ev as [d|j|pl esc| | |]; simpl;
    try (destruct (IH s) as [H1 H2]; split; [exact H1|exact H2]); auto.
  - destruct (IH (tick d s)) as [H1 H2]. split; [exact H1|].
    intros Hf. apply H2, (step_quiet (Tick d)), Hf.
  - destruct (IH (run_thread j s)) as [H1 H2]. split; [exact H1|].
    intros Hf. apply H2, (step_quiet (Run j)), Hf.
Qed.

Lemma wait_for_action_thread_spec (st : proc) :
  ((wait_for_action_thread st).1 = Returned tt
   \/ (wait_for_action_thread st).1 = Raised KeyboardInterrupt)
  /\ (faults (gamepad st.2) = [] ->
      faults (gamepad (wait_for_action_thread st).2.2) = []).
Proof.
  destruct st as [sched s]. unfold wait_for_action_thread.
  destruct (action_thread s) as [i|]; [|simpl; auto].
  destruct (is_alive i s); [apply join_spec|simpl; auto].
Qed.





End CleanupFacts.

Section PoseExitFacts.
Import PosePenaltyKick.



End PoseExitFacts.



(** The reset always starts with the stick, and is complete on a device
    that does not raise. *)
Lemma attempted_release_shape fs :
  (exists rest, PenaltyKick.attempted_release fs = left_joystick_float 0 0 :: rest)
  /\ PenaltyKick.attempted_release [] = PenaltyKick.release_commands.
Proof.
  split; [|reflexivity].
  destruct fs as [|[] [|[] fs]]; simpl; eauto.
Qed.

(** * Further properties *)

(** X1.  In [pose_penalty_kick.py] the flag is set by the kick thread,
    after its guard: two threads started before either has set it both hold, and
    the press commands are issued twice. *)
Lemma pose_kicks_can_overlap :
  PosePenaltyKick.reachable
    (PosePenaltyKick.exec overlapping_kicks (PosePenaltyKick.init 10 []))
  /\ PosePenaltyKick.exec overlapping_kicks (PosePenaltyKick.init 10 [])
     = {| PosePenaltyKick.clock := 10;
          PosePenaltyKick.gamepad :=
            {| issued := PosePenaltyKick.press_commands ++ PosePenaltyKick.press_commands;
               faults := [] |};
          PosePenaltyKick.is_kicking := true;
          PosePenaltyKick.last_kick_time := 0;
          PosePenaltyKick.threads :=
            [PosePenaltyKick.at_sleep; PosePenaltyKick.at_sleep] |}.
Proof.
  split; [apply pose_reachable_exec; constructor|].
  vm_compute. reflexivity.
Qed.

(** With ["a"] and ["d"] held the contributions to the left stick's
    horizontal axis cancel. *)
Lemma xbox_left_and_right_cancel :
  Xbox.aggregate {[ "a"; "d" ]} = Xbox.mkSticks 0 0 0 0.
Proof. vm_compute. reflexivity. Qed.

(** X3.  The stick values do not depend on the order in which the held
    keys are visited. *)
Lemma xbox_aggregate_any_order (keys : gset string) (l : list string) :
  l ≡ₚ elements keys -> Xbox.aggregate_in_order l = Xbox.aggregate keys.
Proof. apply aggregate_in_order_perm. Qed.

Lemma scan_none ids (landmarks : list Landmark) w h c :
  List.filter (PosePenaltyKick.touching landmarks w h c) ids = [] ->
  PosePenaltyKick.scan ids landmarks w h c = Returned (false, None, None).
Proof.
  induction ids as [|i ids IH]; simpl; [reflexivity|].
  unfold PosePenaltyKick.touching at 1.
  destruct (Nat.ltb_spec (value i) (length landmarks)) as [Hlt|Hge].
  - destruct (index_Returned landmarks (value i) Hlt) as (lm & Hlm & Hix).
    rewrite Hlm, Hix.
    destruct (Qltb (5 # 10) (visibility lm)); simpl; [|exact IH].
    destruct (PosePenaltyKick.calculate_distance_le _ c _); simpl;
      [discriminate|exact IH].
  - rewrite (lookup_ge_None_2 _ _ Hge). exact IH.
Qed.

(** X4.  When no tracked joint qualifies the triggers report nothing. *)
Lemma no_joint_no_trigger :
  (forall landmarks : list Landmark,
      (28 < length landmarks)%nat ->
      List.filter (fun jl => PenaltyKick.in_circle landmarks (fst jl))
        PenaltyKick.tracked_joints = [] ->
      PenaltyKick.check_leg_detection landmarks = Returned (false, None))
  /\ (forall (landmarks : list Landmark) w h c,
        List.filter (PosePenaltyKick.touching landmarks w h c)
          PosePenaltyKick.leg_landmarks = [] ->
        PosePenaltyKick.is_foot_touching_circle landmarks w h c
        = Returned (false, None, None)).
Proof.
  split; [|intros landmarks w h c; apply scan_none].
  intros landmarks Hlen.
  unfold PenaltyKick.tracked_joints, PenaltyKick.check_leg_detection,
    PenaltyKick.in_circle.
  cbn [List.filter fst value].
  destruct (index_Returned landmarks 25 ltac:(lia)) as (k1 & -> & ->).
  destruct (index_Returned landmarks 26 ltac:(lia)) as (k2 & -> & ->).
  destruct (index_Returned landmarks 27 ltac:(lia)) as (k3 & -> & ->).
  destruct (index_Returned landmarks 28 ltac:(lia)) as (k4 & -> & ->).
  destruct (PenaltyKick.is_point_in_circle (x k1) (y k1)); [discriminate|].
  destruct (PenaltyKick.is_point_in_circle (x k2) (y k2)); [discriminate|].
  destruct (PenaltyKick.is_point_in_circle (x k3) (y k3)); [discriminate|].
  destruct (PenaltyKick.is_point_in_circle (x k4) (y k4)); [discriminate|].
  reflexivity.
Qed.

Lemma no_joint_no_trigger_witness :
  PenaltyKick.check_leg_detection (pose_with []) = Returned (false, None)
  /\ PosePenaltyKick.is_foot_touching_circle (pose_with []) 640 480 (320, 380)
     = Returned (false, None, None).
Proof.
  destruct no_joint_no_trigger as [Hpk Hpose]. split.
  - apply Hpk; [vm_compute; lia|vm_compute; reflexivity].
  - apply Hpose. vm_compute. reflexivity.
Defined.

(** X5.  [check_leg_detection] indexes the list without a test of its length:
    on a list without a left knee it raises. *)
Lemma check_leg_detection_short (landmarks : list Landmark) :
  (length landmarks <= 25)%nat ->
  PenaltyKick.check_leg_detection landmarks = Raised IndexError.
Proof.
  intros Hl. unfold PenaltyKick.check_leg_detection, index. simpl.
  rewrite (lookup_ge_None_2 landmarks 25 Hl). reflexivity.
Qed.

Lemma check_leg_detection_short_witness :
  PenaltyKick.check_leg_detection [] = Raised IndexError.
Proof. apply check_leg_detection_short. simpl. lia. Defined.

(** One session of [penalty_kick.py]: the kick is pressed once and
    released once, the knee seen during the hold starts nothing, and the
    knee seen 2.5 s after the release starts nothing either, the cooldown
    of 3 s not being over. *)
Lemma one_kick_session_trace :
  PenaltyKick.exec one_kick_session (PenaltyKick.init 100 [])
  = {| PenaltyKick.clock := 100 + 1 + 1 + (5 # 2);
       PenaltyKick.gamepad :=
         {| issued := PenaltyKick.press_commands ++ PenaltyKick.release_commands;
            faults := [] |};
       PenaltyKick.action_active := false;
       PenaltyKick.last_action_time := 100 + 1 + 1;
       PenaltyKick.action_thread := Some 0%nat;
       PenaltyKick.threads := [PenaltyKick.finished] |}.
Proof. vm_compute. reflexivity. Qed.

Lemma xbox_aggregate_any_order_witness :
  Xbox.aggregate_in_order ["d"; "w"] = Xbox.aggregate {[ "w"; "d" ]}.
Proof.
  apply xbox_aggregate_any_order. vm_compute.
  apply Permutation_swap.
Defined.

Lemma is_foot_touching_circle_short_witness :
  PosePenaltyKick.is_foot_touching_circle (replicate 23 far) 640 480 (320, 380)
  = Returned (false, None, None).
Proof. apply is_foot_touching_circle_short. simpl. lia. Defined.

(** * xbox.py: the sticks as a function of the held keys *)

Section XboxSticks.
Import Xbox.

Lemma not_analog_key (k : string) :
  k ∉ analog_key_list -> analog_mappings !! k = None.
Proof.
  intros Hk. unfold analog_mappings. apply not_elem_of_list_to_map_1.
  exact Hk.
Qed.

Lemma listed_cons_ne q a l : q <> a -> listed q (a :: l) = listed q l.
Proof.
  intros Hne. unfold listed.
  apply (f_equal (fun b : bool => if b then 1 else 0)).
  apply bool_decide_ext. rewrite elem_of_cons. tauto.
Qed.

Lemma listed_cons_eq a l : a ∉ l -> listed a (a :: l) = 1 /\ listed a l = 0.
Proof.
  intros Hn. unfold listed.
  rewrite bool_decide_eq_true_2 by (apply elem_of_cons; auto).
  rewrite bool_decide_eq_false_2 by exact Hn. auto.
Qed.

Lemma accumulate_listed (l : list string) :
  NoDup l ->
  foldr accumulate {| lx := 0; ly := 0; rx := 0; ry := 0 |} l
  = {| lx := listed "d" l - listed "a" l;
       ly := 0;
       rx := listed "right" l - listed "left" l;
       ry := listed "w" l + listed "up" l - listed "s" l - listed "down" l |}.
Proof.
  induction 1 as [|k l Hk Hnd IH]; [reflexivity|].
  cbn [foldr]. rewrite IH. clear IH.
  destruct (decide (k ∈ analog_key_list)) as [Hin|Hout].
  - unfold analog_key_list in Hin.
    repeat (apply elem_of_cons in Hin as [->|Hin];
            [destruct (listed_cons_eq _ l Hk) as [-> E0];
             rewrite !listed_cons_ne by discriminate;
             unfold accumulate;
             match goal with
             | |- context [analog_mappings !! ?key] =>
                 let v := eval vm_compute in (analog_mappings !! key) in
                 change (analog_mappings !! key) with v
             end;
             cbn [lx ly rx ry]; f_equal; lia|]).
    by apply elem_of_nil in Hin.
  - unfold accumulate. rewrite (not_analog_key k Hout).
    rewrite !listed_cons_ne; [reflexivity|..];
      intros <-; apply Hout; unfold analog_key_list; set_solver.
Qed.

Lemma listed_elements k (keys : gset string) : listed k (elements keys) = held k keys.
Proof.
  unfold listed, held.
  apply (f_equal (fun b : bool => if b then 1 else 0)).
  apply bool_decide_ext, elem_of_elements.
Qed.

Lemma held_range k keys : 0 <= held k keys <= 1.
Proof. unfold held. destruct (bool_decide _); lia. Qed.

Lemma aggregate_sticks_of_keys (keys : gset string) :
  aggregate keys = sticks_of_keys keys.
Proof.
  unfold aggregate, aggregate_in_order.
  rewrite (accumulate_listed (elements keys) (NoDup_elements keys)).
  rewrite !listed_elements. unfold normalize, sticks_of_keys. cbn [lx ly rx ry].
  pose proof (held_range "d" keys). pose proof (held_range "a" keys).
  pose proof (held_range "right" keys). pose proof (held_range "left" keys).
  f_equal; unfold clamp; lia.
Qed.

End XboxSticks.

Section XboxHandlers.
Import Xbox.

Lemma sticks_of_keys_add k keys :
  k ∉ analog_key_list -> sticks_of_keys ({[ k ]} ∪ keys) = sticks_of_keys keys.
Proof.
  intros Hk.
  assert (H : forall q, q ∈ analog_key_list -> held q ({[ k ]} ∪ keys) = held q keys).
  { intros q Hq. unfold held.
    apply (f_equal (fun b : bool => if b then 1 else 0)).
    apply bool_decide_ext. rewrite elem_of_union, elem_of_singleton.
    split; [intros [->|?]; [contradiction|assumption]|auto]. }
  unfold sticks_of_keys.
  rewrite !H by (unfold analog_key_list; set_solver). reflexivity.
Qed.

Lemma sticks_of_keys_remove k keys :
  k ∉ analog_key_list -> sticks_of_keys (keys ∖ {[ k ]}) = sticks_of_keys keys.
Proof.
  intros Hk.
  assert (H : forall q, q ∈ analog_key_list -> held q (keys ∖ {[ k ]}) = held q keys).
  { intros q Hq. unfold held.
    apply (f_equal (fun b : bool => if b then 1 else 0)).
    apply bool_decide_ext. rewrite elem_of_difference, elem_of_singleton.
    split; [tauto|]. intros Hin. split; [exact Hin|]. intros ->. contradiction. }
  unfold sticks_of_keys.
  rewrite !H by (unfold analog_key_list; set_solver). reflexivity.
Qed.

Lemma analog_key_listed (k : string) :
  is_Some (analog_mappings !! k) <-> k ∈ analog_key_list.
Proof.
  split; [apply analog_keys|].
  intros H. destruct (analog_mappings !! k) eqn:E; [eauto|].
  exfalso. unfold analog_key_list in H.
  repeat (apply elem_of_cons in H as [->|H]; [vm_compute in E; discriminate|]).
  by apply elem_of_nil in H.
Qed.

Lemma on_key_press_effect key k (self : KeyboardToXboxMapper) :
  is_ctrl key = false ->
  normalize_key key = Some k ->
  k <> "" -> k <> "esc" ->
  (on_key_press key self).1 = Returned true
  /\ pressed_keys (on_key_press key self).2 = {[ k ]} ∪ pressed_keys self
  /\ running (on_key_press key self).2 = running self
  /\ stick_values (on_key_press key self).2
     = (if bool_decide (k ∈ analog_key_list)
        then sticks_of_keys ({[ k ]} ∪ pressed_keys self)
        else stick_values self).
Proof.
  intros Hc Hn Hne Hesc. unfold on_key_press. rewrite Hc, Hn.
  destruct k as [|c r]; [congruence|].
  rewrite (bool_decide_eq_false_2 _ Hesc).
  set (k := String c r) in *.
  destruct self as [[iss fs] keys run l1 l2 r1 r2].
  cbv beta iota zeta delta
    [try_except bind get modify when ret update_analog_sticks
     gamepad_call call set_pressed_keys set_sticks stick_values
     gamepad pressed_keys running left_stick_x left_stick_y right_stick_x
     right_stick_y issued faults fst snd].
  destruct (decide (k ∈ analog_key_list)) as [Hin|Hout].
  - rewrite (bool_decide_eq_true_2 _ Hin).
    pose proof (proj2 (analog_key_listed k) Hin) as Ha.
    rewrite (analog_key_not_button k Ha), (bool_decide_eq_true_2 _ Ha).
    rewrite aggregate_sticks_of_keys.
    set (v := sticks_of_keys _).
    destruct fs as [|[] [|[] [|[] fs]]];
      cbn [gamepad pressed_keys running left_stick_x left_stick_y right_stick_x
           right_stick_y issued faults fst snd is_Exception];
      destruct v; repeat split; reflexivity.
  - rewrite (bool_decide_eq_false_2 _ Hout).
    assert (Ha : ~ is_Some (analog_mappings !! k))
      by (intros H; apply Hout, analog_key_listed, H).
    rewrite (bool_decide_eq_false_2 _ Ha).
    destruct (key_mappings !! k) as [b|];
      destruct fs as [|[] [|[] fs]];
      cbn [gamepad pressed_keys running left_stick_x left_stick_y right_stick_x
           right_stick_y issued faults fst snd is_Exception];
      repeat split; reflexivity.
Qed.

Lemma on_key_release_effect key k (self : KeyboardToXboxMapper) :
  is_ctrl key = false ->
  normalize_key key = Some k ->
  k <> "" ->
  (on_key_release key self).1 = Returned true
  /\ pressed_keys (on_key_release key self).2 = pressed_keys self ∖ {[ k ]}
  /\ running (on_key_release key self).2 = running self
  /\ stick_values (on_key_release key self).2
     = (if bool_decide (k ∈ analog_key_list)
        then sticks_of_keys (pressed_keys self ∖ {[ k ]})
        else stick_values self).
Proof.
  intros Hc Hn Hne. unfold on_key_release. rewrite Hc, Hn.
  destruct k as [|c r]; [congruence|].
  set (k := String c r) in *.
  destruct self as [[iss fs] keys run l1 l2 r1 r2].
  cbv beta iota zeta delta
    [try_except bind get modify when ret update_analog_sticks
     gamepad_call call set_pressed_keys set_sticks stick_values
     gamepad pressed_keys running left_stick_x left_stick_y right_stick_x
     right_stick_y issued faults fst snd].
  destruct (decide (k ∈ analog_key_list)) as [Hin|Hout].
  - rewrite (bool_decide_eq_true_2 _ Hin).
    pose proof (proj2 (analog_key_listed k) Hin) as Ha.
    rewrite (analog_key_not_button k Ha), (bool_decide_eq_true_2 _ Ha).
    rewrite aggregate_sticks_of_keys.
    set (v := sticks_of_keys _).
    destruct fs as [|[] [|[] [|[] fs]]];
      cbn [gamepad pressed_keys running left_stick_x left_stick_y right_stick_x
           right_stick_y issued faults fst snd is_Exception];
      destruct v; repeat split; reflexivity.
  - rewrite (bool_decide_eq_false_2 _ Hout).
    assert (Ha : ~ is_Some (analog_mappings !! k))
      by (intros H; apply Hout, analog_key_listed, H).
    rewrite (bool_decide_eq_false_2 _ Ha).
    destruct (key_mappings !! k) as [b|];
      destruct fs as [|[] [|[] fs]];
      cbn [gamepad pressed_keys running left_stick_x left_stick_y right_stick_x
           right_stick_y issued faults fst snd is_Exception];
      repeat split; reflexivity.
Qed.

End XboxHandlers.

Section XboxListener.
Import Xbox.

Lemma normalize_key_Some key : exists k, normalize_key key = Some k.
Proof. destruct key as [nm|[[|c r]|] st]; simpl; eauto. Qed.

Lemma ctrl_is_not_exit key : is_ctrl key = true -> is_exit key = false.
Proof.
  destruct key as [nm|ch st]; simpl; [|discriminate].
  intros [H|H]%orb_true_iff; apply bool_decide_eq_true in H; subst;
    vm_compute; reflexivity.
Qed.

Lemma on_key_press_ctrl key (self : KeyboardToXboxMapper) :
  is_ctrl key = true -> on_key_press key self = (Returned true, self).
Proof. intros H. unfold on_key_press. rewrite H. reflexivity. Qed.

Lemma on_key_release_ctrl key (self : KeyboardToXboxMapper) :
  is_ctrl key = true -> on_key_release key self = (Returned true, self).
Proof. intros H. unfold on_key_release. rewrite H. reflexivity. Qed.

Lemma on_key_press_exit key (self : KeyboardToXboxMapper) :
  is_exit key = true -> on_key_press key self = (Returned false, set_running false self).
Proof.
  intros H. unfold on_key_press.
  destruct (is_ctrl key) eqn:Hc; [rewrite (ctrl_is_not_exit key Hc) in H; discriminate|].
  apply bool_decide_eq_true in H. rewrite H. reflexivity.
Qed.

Lemma on_key_press_empty key (self : KeyboardToXboxMapper) :
  normalize_key key = Some "" -> on_key_press key self = (Returned true, self).
Proof.
  intros H. unfold on_key_press. rewrite H. destruct (is_ctrl key); reflexivity.
Qed.

Lemma on_key_release_empty key (self : KeyboardToXboxMapper) :
  normalize_key key = Some "" -> on_key_release key self = (Returned true, self).
Proof.
  intros H. unfold on_key_release. rewrite H. destruct (is_ctrl key); reflexivity.
Qed.

Lemma dispatch_returns ev (self : KeyboardToXboxMapper) :
  (dispatch ev self).1
  = Returned (match ev with KeyPress key => negb (is_exit key) | KeyRelease _ => true end).
Proof.
  destruct ev as [key|key]; simpl.
  - destruct (is_exit key) eqn:He; [by rewrite (on_key_press_exit key self He)|].
    destruct (is_ctrl key) eqn:Hc; [by rewrite (on_key_press_ctrl key self Hc)|].
    destruct (normalize_key_Some key) as [k Hk].
    destruct (decide (k = "")) as [->|Hne]; [by rewrite (on_key_press_empty key self Hk)|].
    apply (on_key_press_effect key k self Hc Hk Hne).
    intros ->. unfold is_exit in He. rewrite Hk in He.
    rewrite bool_decide_eq_true_2 in He by reflexivity. discriminate.
  - destruct (is_ctrl key) eqn:Hc; [by rewrite (on_key_release_ctrl key self Hc)|].
    destruct (normalize_key_Some key) as [k Hk].
    destruct (decide (k = "")) as [->|Hne]; [by rewrite (on_key_release_empty key self Hk)|].
    apply (on_key_release_effect key k self Hc Hk Hne).
Qed.

Lemma dispatch_keeps_sticks ev (self : KeyboardToXboxMapper) :
  sticks_follow_keys self -> sticks_follow_keys (dispatch ev self).2.
Proof.
  unfold sticks_follow_keys. intros Hs.
  destruct ev as [key|key]; simpl.
  - destruct (is_exit key) eqn:He; [by rewrite (on_key_press_exit key self He)|].
    destruct (is_ctrl key) eqn:Hc; [by rewrite (on_key_press_ctrl key self Hc)|].
    destruct (normalize_key_Some key) as [k Hk].
    destruct (decide (k = "")) as [->|Hne]; [by rewrite (on_key_press_empty key self Hk)|].
    assert (Hesc : k <> "esc").
    { intros ->. unfold is_exit in He. rewrite Hk in He.
      rewrite bool_decide_eq_true_2 in He by reflexivity. discriminate. }
    destruct (on_key_press_effect key k self Hc Hk Hne Hesc) as (_ & -> & _ & ->).
    case_bool_decide; [reflexivity|]. rewrite sticks_of_keys_add by assumption. exact Hs.
  - destruct (is_ctrl key) eqn:Hc; [by rewrite (on_key_release_ctrl key self Hc)|].
    destruct (normalize_key_Some key) as [k Hk].
    destruct (decide (k = "")) as [->|Hne]; [by rewrite (on_key_release_empty key self Hk)|].
    destruct (on_key_release_effect key k self Hc Hk Hne) as (_ & -> & _ & ->).
    case_bool_decide; [reflexivity|]. rewrite sticks_of_keys_remove by assumption. exact Hs.
Qed.

Lemma start_listening_keeps_sticks events : forall self : KeyboardToXboxMapper,
  sticks_follow_keys self -> sticks_follow_keys (start_listening events self).
Proof.
  induction events as [|ev rest IH]; intros self Hs; simpl; [exact Hs|].
  pose proof (dispatch_keeps_sticks ev self Hs) as Hd.
  destruct (dispatch ev self) as [[[]|e] self']; simpl in Hd; auto.
Qed.

End XboxListener.

(** * xbox.py: the lower case of a key *)

Section XboxLower.
Import Xbox.

Lemma byte_of_N (n : N) : (n < 256)%N -> N_of_ascii (ascii_of_N n) = n.
Proof. apply N_ascii_embedding. Qed.




Lemma decode_encode_one (c : N) (s : string) :
  scalar c = true ->
  utf8_decode (utf8_encode_one c s) = option_map (cons c) (utf8_decode s).
Proof.
  unfold scalar. intros Hs.
  apply andb_true_iff in Hs as [Hlt Hsur]. apply N.ltb_lt in Hlt.
  apply negb_true_iff, andb_false_iff in Hsur.
  assert (Hns : (c < 55296 \/ 57343 < c)%N).
  { destruct Hsur as [H|H]; [apply N.leb_gt in H; lia|apply N.leb_gt in H; lia]. }
  clear Hsur. unfold utf8_encode_one.
  destruct (N.ltb_spec c 128) as [H1|H1].
  { cbn [utf8_decode]. rewrite byte_of_N by lia.
    destruct (N.ltb_spec c 128); [reflexivity|lia]. }
  split64 c q1 r0.
  destruct (N.ltb_spec c 2048) as [H2|H2].
  { cbn [utf8_decode]. rewrite !byte_of_N by lia. unfold continuation.
    split_tests. cbn [andb]. do 2 f_equal. lia. }
  split64 q1 q2 r1.
  destruct (N.ltb_spec c 65536) as [H3|H3].
  { cbn [utf8_decode]. rewrite !byte_of_N by lia. unfold continuation.
    split_tests; cbn [andb negb]; try (do 2 f_equal; lia).
    all: try (exfalso; lia). }
  split64 q2 q3 r2.
  cbn [utf8_decode]. rewrite !byte_of_N by lia. unfold continuation.
  split_tests; cbn [andb negb]; try (do 2 f_equal; lia).
  all: try (exfalso; lia).
Qed.

Lemma decode_encode (l : list N) :
  Forall (fun c => scalar c = true) l -> utf8_decode (utf8_encode l) = Some l.
Proof.
  induction 1 as [|c l Hc _ IH]; [reflexivity|].
  cbn [utf8_encode foldr]. rewrite (decode_encode_one c _ Hc).
  fold (utf8_encode l). rewrite IH. reflexivity.
Qed.

Lemma option_map_cons_Some (c : N) (o : option (list N)) (l : list N) :
  option_map (cons c) o = Some l -> exists l', l = c :: l' /\ o = Some l'.
Proof. destruct o as [l'|]; simpl; [|discriminate]. intros [= <-]. eauto. Qed.

(** What [utf8_decode] returns are scalar values, as many as the string
    has characters; none for the empty string only. *)
Lemma utf8_decode_scalar (n : nat) : forall s l,
  (String.length s <= n)%nat ->
  utf8_decode s = Some l ->
  Forall (fun c => scalar c = true) l /\ (l = [] -> s = EmptyString).
Proof.
  induction n as [|n IH]; intros s l Hn Hd.
  { destruct s; [|simpl in Hn; lia]. injection Hd as <-. auto. }
  destruct s as [|a0 r0]; [injection Hd as <-; auto|].
  cbn [utf8_decode] in Hd. simpl in Hn.
  pose proof (N_ascii_bounded a0) as B0.
  destruct (N.ltb_spec (N_of_ascii a0) 128) as [H0|H0].
  { apply option_map_cons_Some in Hd as (l' & -> & Hd).
    destruct (IH r0 l' ltac:(lia) Hd) as [Hs _].
    split; [|discriminate]. constructor; [|exact Hs].
    unfold scalar. split_tests; reflexivity. }
  destruct r0 as [|a1 r1]; [discriminate|]. simpl in Hn.
  pose proof (N_ascii_bounded a1) as B1.
  destruct (N.ltb_spec (N_of_ascii a0) 224) as [H1|H1].
  { destruct (_ && _) eqn:Ht in Hd; [|discriminate].
    apply andb_true_iff in Ht as [Ha Hb]. apply N.leb_le in Ha.
    unfold continuation in Hb. apply andb_true_iff in Hb as [Hb1 Hb2].
    apply N.leb_le in Hb1, Hb2.
    apply option_map_cons_Some in Hd as (l' & -> & Hd).
    destruct (IH r1 l' ltac:(lia) Hd) as [Hs _].
    split; [|discriminate]. constructor; [|exact Hs].
    unfold scalar. split_tests; reflexivity. }
  destruct r1 as [|a2 r2]; [discriminate|]. simpl in Hn.
  pose proof (N_ascii_bounded a2) as B2.
  destruct (N.ltb_spec (N_of_ascii a0) 240) as [H2|H2].
  { destruct (_ && _) eqn:Ht in Hd; [|discriminate].
    apply andb_true_iff in Ht as [Ht Hsur].
    apply andb_true_iff in Ht as [Ht Hlo].
    apply andb_true_iff in Ht as [Hb Hc].
    unfold continuation in Hb, Hc.
    apply andb_true_iff in Hb as [Hb1 Hb2]. apply andb_true_iff in Hc as [Hc1 Hc2].
    apply N.leb_le in Hb1, Hb2, Hc1, Hc2, Hlo.
    apply option_map_cons_Some in Hd as (l' & -> & Hd).
    destruct (IH r2 l' ltac:(lia) Hd) as [Hs _].
    split; [|discriminate]. constructor; [|exact Hs].
    unfold scalar. rewrite Hsur, andb_true_r. apply N.ltb_lt. lia. }
  destruct r2 as [|a3 r3]; [discriminate|]. simpl in Hn.
  destruct (_ && _) eqn:Ht in Hd; [|discriminate].
  apply andb_true_iff in Ht as [Ht Hhi]. apply andb_true_iff in Ht as [_ Hlo].
  apply N.leb_le in Hhi, Hlo.
  apply option_map_cons_Some in Hd as (l' & -> & Hd).
  destruct (IH r3 l' ltac:(lia) Hd) as [Hs _].
  split; [|discriminate]. constructor; [|exact Hs].
  unfold scalar. split_tests; reflexivity.
Qed.

Lemma in_points (lo hi c : N) : (lo <= c <= hi)%N -> In c (points lo hi).
Proof.
  intros H. unfold points. apply in_map_iff.
  exists (N.to_nat (c - lo)). split; [lia|]. apply in_seq. lia.
Qed.

Lemma images_checked :
  forallb (fun c => forallb settled (to_lower_full c))
    (304%N :: flat_map (fun r => points (fst (fst r)) (snd (fst r))) lower_shifts
       ++ flat_map (fun r => points (fst r) (snd r)) lower_alternating)
  = true.
Proof. vm_compute. reflexivity. Qed.

Lemma to_lower_full_settled (c : N) :
  scalar c = true -> c <> 931%N ->
  Forall (fun o => settled o = true) (to_lower_full c).
Proof.
  intros Hs Hn.
  assert (Hin : forall c', In c' (304%N :: flat_map (fun r => points (fst (fst r)) (snd (fst r))) lower_shifts
       ++ flat_map (fun r => points (fst r) (snd r)) lower_alternating) ->
       Forall (fun o => settled o = true) (to_lower_full c')).
  { intros c' Hc'. pose proof images_checked as H.
    pose proof (proj1 (List.forallb_forall _ _) H c' Hc') as H'.
    apply List.Forall_forall. intros o Ho.
    exact (proj1 (List.forallb_forall _ _) H' o Ho). }
  destruct (to_lower_full c) as [|o l] eqn:E.
  { constructor. }
  assert (Hcases : In c (304%N :: flat_map (fun r => points (fst (fst r)) (snd (fst r))) lower_shifts
       ++ flat_map (fun r => points (fst r) (snd r)) lower_alternating)
       \/ to_lower_full c = [c]).
  { unfold to_lower_full.
    destruct (N.eqb_spec c 304) as [->|H304]; [left; left; reflexivity|].
    destruct (List.find _ lower_shifts) as [r|] eqn:F.
    - left. right. apply in_or_app. left.
      apply List.find_some in F as [Hr Ht].
      apply andb_true_iff in Ht as [H1 H2]. apply N.leb_le in H1, H2.
      apply in_flat_map. exists r. split; [exact Hr|]. apply in_points. lia.
    - destruct (existsb _ lower_alternating) eqn:X; [|right; reflexivity].
      left. right. apply in_or_app. right.
      apply existsb_exists in X as (r & Hr & Ht).
      apply andb_true_iff in Ht as [Ht _]. apply andb_true_iff in Ht as [H1 H2].
      apply N.leb_le in H1, H2.
      apply in_flat_map. exists r. split; [exact Hr|]. apply in_points. lia. }
  destruct Hcases as [Hc|Hc].
  - rewrite <- E. apply Hin, Hc.
  - rewrite <- E, Hc. constructor; [|constructor].
    unfold settled. rewrite Hs, Hc, N.eqb_refl.
    destruct (N.eqb_spec c 931); [contradiction|reflexivity].
Qed.

Lemma settled_scalar (c : N) : settled c = true -> scalar c = true.
Proof.
  unfold settled. intros H. apply andb_true_iff in H as [H _].
  apply andb_true_iff in H as [H _]. exact H.
Qed.

Lemma settled_fixed (c : N) before after :
  settled c = true -> lower_ucs4 before c after = [c].
Proof.
  unfold settled, lower_ucs4. intros H. apply andb_true_iff in H as [H Hf].
  apply andb_true_iff in H as [_ Hn]. apply negb_true_iff in Hn. rewrite Hn.
  destruct (to_lower_full c) as [|c' [|]]; try discriminate.
  apply N.eqb_eq in Hf. by subst.
Qed.

Lemma do_lower_settled (l : list N) : forall before,
  Forall (fun c => settled c = true) l -> do_lower before l = l.
Proof.
  induction l as [|c l IH]; intros before H; [reflexivity|].
  apply Forall_cons in H as [Hc Hl]. cbn [do_lower].
  rewrite (settled_fixed c _ _ Hc), (IH _ Hl). reflexivity.
Qed.

Lemma do_lower_images (l : list N) : forall before,
  Forall (fun c => scalar c = true) l ->
  Forall (fun c => settled c = true) (do_lower before l).
Proof.
  induction l as [|c l IH]; intros before H; [constructor|].
  apply Forall_cons in H as [Hc Hl]. cbn [do_lower].
  apply Forall_app. split; [|apply IH, Hl].
  unfold lower_ucs4. destruct (N.eqb_spec c 931) as [->|Hn].
  - destruct (final_sigma _ _); repeat constructor.
  - apply to_lower_full_settled; assumption.
Qed.

Lemma do_lower_nil (l : list N) before : do_lower before l = [] -> l = [].
Proof.
  destruct l as [|c l]; [reflexivity|]. cbn [do_lower]. intros H.
  apply app_eq_nil in H as [H _]. exfalso. revert H.
  unfold lower_ucs4, to_lower_full.
  destruct (c =? 931)%N; [discriminate|].
  destruct (c =? 304)%N; [discriminate|].
  destruct (List.find _ _); [discriminate|].
  destruct (existsb _ _); discriminate.
Qed.

Lemma lower_ascii_idem a : lower_ascii (lower_ascii a) = lower_ascii a.
Proof. destruct a as [[] [] [] [] [] [] [] []]; reflexivity. Qed.

Lemma ascii_lower_idem s : ascii_lower (ascii_lower s) = ascii_lower s.
Proof.
  induction s as [|a s IH]; simpl; [reflexivity|].
  by rewrite lower_ascii_idem, IH.
Qed.

Lemma lower_ascii_is_ascii a :
  (N_of_ascii a <? 128)%N = true -> (N_of_ascii (lower_ascii a) <? 128)%N = true.
Proof. destruct a as [[] [] [] [] [] [] [] []]; intros H; try discriminate H; reflexivity. Qed.

Lemma ascii_lower_is_ascii s : is_ascii s = true -> is_ascii (ascii_lower s) = true.
Proof.
  unfold is_ascii. induction s as [|a s IH]; simpl; [reflexivity|].
  intros H. apply andb_true_iff in H as [Ha Hs].
  rewrite (lower_ascii_is_ascii a Ha), (IH Hs). reflexivity.
Qed.

(** The ASCII letters that [Py_TOLOWER] changes are not settled. *)
Lemma capitals_checked :
  forallb (fun c => negb (settled c)
                    || (lower_ascii (ascii_of_N c) =? ascii_of_N c)%char)
    (points 0 127)
  = true.
Proof. vm_compute. reflexivity. Qed.

Lemma settled_ascii (c : N) :
  (c < 128)%N -> settled c = true -> lower_ascii (ascii_of_N c) = ascii_of_N c.
Proof.
  intros Hc Hs. pose proof capitals_checked as H.
  pose proof (proj1 (List.forallb_forall _ _) H c (in_points 0 127 c ltac:(lia))) as H'.
  simpl in H'. rewrite Hs in H'. simpl in H'. by apply Ascii.eqb_eq in H'.
Qed.

Lemma ascii_lower_settled (l : list N) :
  Forall (fun c => settled c = true) l ->
  is_ascii (utf8_encode l) = true ->
  ascii_lower (utf8_encode l) = utf8_encode l.
Proof.
  induction 1 as [|c l Hc _ IH]; [reflexivity|].
  cbn [utf8_encode foldr]. fold (utf8_encode l).
  pose proof (settled_scalar c Hc) as Hs. unfold scalar in Hs.
  apply andb_true_iff in Hs as [Hlt _]. apply N.ltb_lt in Hlt.
  unfold utf8_encode_one.
  destruct (N.ltb_spec c 128) as [H1|H1].
  { unfold is_ascii. cbn [list_ascii_of_string forallb ascii_lower].
    intros H. apply andb_true_iff in H as [_ H].
    rewrite (settled_ascii c H1 Hc), (IH H). reflexivity. }
  intros H. exfalso. revert H. unfold is_ascii.
  split64 c q1 r0.
  destruct (N.ltb_spec c 2048) as [H2|H2].
  { cbn [list_ascii_of_string forallb]. rewrite byte_of_N by lia.
    destruct (N.ltb_spec (192 + q1) 128); [lia|discriminate]. }
  split64 q1 q2 r1.
  destruct (N.ltb_spec c 65536) as [H3|H3].
  { cbn [list_ascii_of_string forallb]. rewrite byte_of_N by lia.
    destruct (N.ltb_spec (224 + q2) 128); [lia|discriminate]. }
  split64 q2 q3 r2.
  cbn [list_ascii_of_string forallb]. rewrite byte_of_N by lia.
  destruct (N.ltb_spec (240 + q3) 128); [lia|discriminate].
Qed.

Lemma utf8_encode_nil (l : list N) : utf8_encode l = EmptyString -> l = [].
Proof.
  destruct l as [|c l]; [reflexivity|]. cbn [utf8_encode foldr].
  unfold utf8_encode_one.
  destruct (_ <? _)%N; [discriminate|].
  destruct (_ <? _)%N; [discriminate|].
  destruct (_ <? _)%N; discriminate.
Qed.

(** Lower case is reached in one step. *)
Lemma lower_idem s : lower (lower s) = lower s.
Proof.
  unfold lower at 2 3.
  destruct (is_ascii s) eqn:Ha.
  { unfold lower. rewrite (ascii_lower_is_ascii s Ha). apply ascii_lower_idem. }
  destruct (utf8_decode s) as [l|] eqn:Hd.
  - destruct (utf8_decode_scalar (String.length s) s l (le_n _) Hd) as [Hs _].
    pose proof (do_lower_images l [] Hs) as Hi.
    unfold lower.
    destruct (is_ascii (utf8_encode (do_lower [] l))) eqn:Ha'.
    + apply ascii_lower_settled; assumption.
    + rewrite decode_encode.
      * rewrite do_lower_settled by exact Hi. reflexivity.
      * eapply Forall_impl; [exact Hi|]. intros c. apply settled_scalar.
  - unfold lower. rewrite Ha, Hd. reflexivity.
Qed.

Lemma lower_empty s : lower s = EmptyString -> s = EmptyString.
Proof.
  unfold lower. destruct (is_ascii s) eqn:Ha.
  { destruct s; [reflexivity|discriminate]. }
  destruct (utf8_decode s) as [l|] eqn:Hd; [|auto].
  intros H. apply utf8_encode_nil, do_lower_nil in H.
  destruct (utf8_decode_scalar (String.length s) s l (le_n _) Hd) as [_ He].
  apply He, H.
Qed.

End XboxLower.

(** [lower] beyond the ASCII letters: an accented capital, a Cyrillic
    and a Deseret capital, the capital sharp s, the Kelvin sign, whose
    lower case is the ASCII letter, the dotted capital I, whose lower case
    is two code points, and the capital sigma, final and medial. *)
Lemma lower_beyond_ascii :
  Xbox.lower "É" = "é"
  /\ Xbox.lower "Д𐐀ẞ" = "д𐐨ß"
  /\ Xbox.lower "K" = "k"
  /\ Xbox.lower "İ" = "i̇"
  /\ Xbox.lower "ΑΣ" = "ας"
  /\ Xbox.lower "ΑΣΑ" = "ασα".
Proof. repeat split; vm_compute; reflexivity. Qed.

(** X2.  Whatever keys are held, [update_analog_sticks] leaves in the four
    fields the values of those keys: "d" minus "a" on the left stick's
    horizontal axis, "right" minus "left" on the right stick's, and on the
    right stick's vertical axis the clamped sum of "w" and "up" minus "s"
    and "down"; the left stick's vertical axis is always 0.  On a device
    that does not raise, these are the values it sends to the two sticks. *)
Theorem update_analog_sticks_follows_keys (self : Xbox.KeyboardToXboxMapper) :
  let self' := (Xbox.update_analog_sticks self).2 in
  let v := Xbox.sticks_of_keys (Xbox.pressed_keys self) in
  Xbox.stick_values self' = v
  /\ Xbox.left_stick_y self' = 0
  /\ (faults (Xbox.gamepad self) = [] ->
      issued (Xbox.gamepad self')
      = issued (Xbox.gamepad self)
        ++ [left_joystick_float (inject_Z (Xbox.lx v)) (inject_Z (Xbox.ly v));
            right_joystick_float (inject_Z (Xbox.rx v)) (inject_Z (Xbox.ry v))]).
Proof.
  intros self' v.
  destruct (update_analog_sticks_values self) as [_ Hs]. fold self' in Hs.
  rewrite aggregate_sticks_of_keys in Hs. fold v in Hs.
  split; [exact Hs|]. split.
  - apply (f_equal Xbox.ly) in Hs. exact Hs.
  - intros Hf. subst self'.
    unfold Xbox.update_analog_sticks, bind, get, modify.
    rewrite aggregate_sticks_of_keys. fold v.
    destruct self as [[iss fs] keys run l1 l2 r1 r2]. simpl in Hf. subst fs.
    cbv beta iota zeta delta
      [Xbox.gamepad_call call Xbox.set_sticks Xbox.gamepad issued faults fst snd].
    rewrite <- app_assoc. reflexivity.
Qed.

(** X8.  The two handlers of [xbox.py] never raise, whatever the device
    does: [on_key_release] always returns [True], and [on_key_press]
    returns [False] for the exit key and [True] for every other key.  The
    exit key only clears [running]; a control key changes nothing. *)
Theorem xbox_handlers_always_return (key : Xbox.Key) (self : Xbox.KeyboardToXboxMapper) :
  (Xbox.on_key_press key self).1 = Returned (negb (Xbox.is_exit key))
  /\ (Xbox.on_key_release key self).1 = Returned true
  /\ (Xbox.is_exit key = true ->
      (Xbox.on_key_press key self).2 = Xbox.set_running false self)
  /\ (Xbox.is_ctrl key = true ->
      (Xbox.on_key_press key self).2 = self /\ (Xbox.on_key_release key self).2 = self).
Proof.
  split; [exact (dispatch_returns (Xbox.KeyPress key) self)|].
  split; [exact (dispatch_returns (Xbox.KeyRelease key) self)|].
  split.
  - intros He. by rewrite (on_key_press_exit key self He).
  - intros Hc. by rewrite (on_key_press_ctrl key self Hc), (on_key_release_ctrl key self Hc).
Qed.

(** X9.  A press followed by the release of the same key brings the set of
    held keys back when the key was not held before, and with it the
    stick values, if they were those of the held keys. *)
Theorem xbox_press_then_release
    (key : Xbox.Key) (k : string) (self : Xbox.KeyboardToXboxMapper) :
  Xbox.is_ctrl key = false ->
  Xbox.normalize_key key = Some k ->
  k <> "" -> k <> "esc" ->
  k ∉ Xbox.pressed_keys self ->
  Xbox.sticks_follow_keys self ->
  let self2 := (Xbox.on_key_release key (Xbox.on_key_press key self).2).2 in
  Xbox.pressed_keys self2 = Xbox.pressed_keys self
  /\ Xbox.stick_values self2 = Xbox.stick_values self
  /\ Xbox.running self2 = Xbox.running self.
Proof.
  intros Hc Hn Hne Hesc Hk Hs self2.
  destruct (on_key_press_effect key k self Hc Hn Hne Hesc) as (_ & Hp1 & Hr1 & Hs1).
  set (self1 := (Xbox.on_key_press key self).2) in *.
  destruct (on_key_release_effect key k self1 Hc Hn Hne) as (_ & Hp2 & Hr2 & Hs2).
  fold self2 in Hp2, Hr2, Hs2.
  assert (Hkeys : Xbox.pressed_keys self2 = Xbox.pressed_keys self).
  { rewrite Hp2, Hp1.
    rewrite difference_union_distr_l_L, difference_diag_L, (left_id_L ∅ (∪)).
    apply difference_disjoint_L, disjoint_singleton_r, Hk. }
  split; [exact Hkeys|]. split; [|congruence].
  rewrite Hs2, Hs1. unfold Xbox.sticks_follow_keys in Hs.
  case_bool_decide; [|reflexivity].
  rewrite <- Hp2, Hkeys. symmetry. exact Hs.
Qed.

Lemma xbox_press_then_release_witness :
  let key := Xbox.KeyCode (Some "W") "'W'" in
  let self := Xbox.new_mapper [true] in
  Xbox.pressed_keys (Xbox.on_key_release key (Xbox.on_key_press key self).2).2
  = Xbox.pressed_keys self.
Proof.
  intros key self.
  apply (xbox_press_then_release key "w" self);
    first [reflexivity | discriminate | apply not_elem_of_empty].
Defined.

(** X10.  After any run of key events on a fresh mapper the four stick
    fields are the values of the keys held: each lies between -1 and 1, and
    the left stick's vertical axis is 0. *)
Theorem xbox_sticks_always_follow_keys
    (events : list Xbox.key_event) (fs : list bool) :
  let self := Xbox.start_listening events (Xbox.new_mapper fs) in
  Xbox.stick_values self = Xbox.sticks_of_keys (Xbox.pressed_keys self)
  /\ Xbox.left_stick_y self = 0
  /\ -1 <= Xbox.left_stick_x self <= 1
  /\ -1 <= Xbox.right_stick_x self <= 1
  /\ -1 <= Xbox.right_stick_y self <= 1.
Proof.
  intros self.
  assert (Hs : Xbox.sticks_follow_keys self).
  { apply start_listening_keeps_sticks. reflexivity. }
  unfold Xbox.sticks_follow_keys in Hs. split; [exact Hs|].
  pose proof (f_equal Xbox.lx Hs) as Hlx. pose proof (f_equal Xbox.ly Hs) as Hly.
  pose proof (f_equal Xbox.rx Hs) as Hrx. pose proof (f_equal Xbox.ry Hs) as Hry.
  simpl in Hlx, Hly, Hrx, Hry.
  pose proof (held_range "d" (Xbox.pressed_keys self)).
  pose proof (held_range "a" (Xbox.pressed_keys self)).
  pose proof (held_range "right" (Xbox.pressed_keys self)).
  pose proof (held_range "left" (Xbox.pressed_keys self)).
  unfold Xbox.clamp in Hry. repeat split; lia.
Qed.

(** X11.  The listener stops at the first press of the exit key: the
    events after it have no effect, and [running] is cleared. *)
Theorem xbox_listener_stops_at_exit
    (events rest : list Xbox.key_event) (key : Xbox.Key) (self : Xbox.KeyboardToXboxMapper) :
  Xbox.is_exit key = true ->
  Xbox.start_listening (events ++ Xbox.KeyPress key :: rest) self
  = Xbox.start_listening (events ++ [Xbox.KeyPress key]) self
  /\ Xbox.running (Xbox.start_listening (events ++ Xbox.KeyPress key :: rest) self) = false.
Proof.
  intros He. revert self.
  induction events as [|ev events IH]; intros self; simpl.
  - rewrite (on_key_press_exit key self He). auto.
  - pose proof (dispatch_returns ev self) as Hd.
    destruct ev as [k0|k0].
    + destruct (Xbox.is_exit k0) eqn:H0.
      * simpl. rewrite (on_key_press_exit k0 self H0). auto.
      * simpl in Hd |- *. destruct (Xbox.on_key_press k0 self) as [r self'].
        simpl in Hd. subst r. apply IH.
    + simpl in Hd |- *. destruct (Xbox.on_key_release k0 self) as [r self'].
      simpl in Hd. subst r. apply IH.
Qed.

Lemma xbox_listener_stops_at_exit_witness :
  Xbox.running
    (Xbox.start_listening
       ([Xbox.KeyPress (Xbox.KeyCode (Some "w") "'w'")]
        ++ Xbox.KeyPress (Xbox.SpecialKey "esc")
           :: [Xbox.KeyPress (Xbox.KeyCode (Some "d") "'d'")])
       (Xbox.new_mapper []))
  = false.
Proof.
  apply (xbox_listener_stops_at_exit
           [Xbox.KeyPress (Xbox.KeyCode (Some "w") "'w'")]
           [Xbox.KeyPress (Xbox.KeyCode (Some "d") "'d'")]
           (Xbox.SpecialKey "esc") (Xbox.new_mapper [])).
  reflexivity.
Defined.

(** X12.  [normalize_key] does not tell a letter from its capital, in
    ASCII or beyond: a key with character [c] and the key with the
    lower-case [c] are the same held key. *)
Theorem normalize_key_ignores_case (c str1 str2 : string) :
  c <> "" ->
  Xbox.normalize_key (Xbox.KeyCode (Some c) str1)
  = Xbox.normalize_key (Xbox.KeyCode (Some (Xbox.lower c)) str2).
Proof.
  intros Hc. destruct c as [|a r]; [congruence|].
  cbn [Xbox.normalize_key].
  destruct (Xbox.lower (String a r)) as [|a' r'] eqn:E.
  - apply lower_empty in E. discriminate E.
  - rewrite <- E, lower_idem. reflexivity.
Qed.

Lemma normalize_key_ignores_case_witness :
  Xbox.normalize_key (Xbox.KeyCode (Some "É") "'É'")
  = Xbox.normalize_key (Xbox.KeyCode (Some (Xbox.lower "É")) "'é'").
Proof. apply normalize_key_ignores_case. discriminate. Defined.

(** * The triggers, once more *)

(** X13.  What a trigger reports is a tracked joint that qualifies, and
    flag and label agree: [check_leg_detection] returns [True] with the
    label of a joint that lies in the circle, or [False] with no label;
    [is_foot_touching_circle] returns [True] with the pixel and the name of
    a leg landmark that is visible and within the threshold, or [False]
    with neither. *)
Theorem trigger_reports_are_sound :
  (forall (landmarks : list Landmark) b label,
      PenaltyKick.check_leg_detection landmarks = Returned (b, label) ->
      (b = false /\ label = None)
      \/ (b = true
          /\ exists j lbl, label = Some lbl
               /\ In (j, lbl) PenaltyKick.tracked_joints
               /\ PenaltyKick.in_circle landmarks j = true))
  /\ (forall (landmarks : list Landmark) w h c b xy nm,
        PosePenaltyKick.is_foot_touching_circle landmarks w h c = Returned (b, xy, nm) ->
        (b = false /\ xy = None /\ nm = None)
        \/ (b = true
            /\ exists j lm, In j PosePenaltyKick.leg_landmarks
                 /\ landmarks !! value j = Some lm
                 /\ nm = Some (name j)
                 /\ xy = Some (PosePenaltyKick.pixel lm w h)
                 /\ PosePenaltyKick.touching landmarks w h c j = true)).
Proof.
  split.
  - intros landmarks b label.
    unfold PenaltyKick.check_leg_detection, PenaltyKick.in_circle, index,
      PenaltyKick.tracked_joints.
    cbn [value].
    destruct (landmarks !! 25%nat) as [k1|] eqn:E1; [|discriminate].
    destruct (PenaltyKick.is_point_in_circle (x k1) (y k1)) eqn:C1.
    { intros [= <- <-]. right. split; [reflexivity|].
      exists LEFT_KNEE, "Left Knee". cbn [value]. rewrite E1. simpl. auto. }
    destruct (landmarks !! 26%nat) as [k2|] eqn:E2; [|discriminate].
    destruct (PenaltyKick.is_point_in_circle (x k2) (y k2)) eqn:C2.
    { intros [= <- <-]. right. split; [reflexivity|].
      exists RIGHT_KNEE, "Right Knee". cbn [value]. rewrite E2. simpl. auto. }
    destruct (landmarks !! 27%nat) as [k3|] eqn:E3; [|discriminate].
    destruct (PenaltyKick.is_point_in_circle (x k3) (y k3)) eqn:C3.
    { intros [= <- <-]. right. split; [reflexivity|].
      exists LEFT_ANKLE, "Left Ankle". cbn [value]. rewrite E3. simpl. auto 6. }
    destruct (landmarks !! 28%nat) as [k4|] eqn:E4; [|discriminate].
    destruct (PenaltyKick.is_point_in_circle (x k4) (y k4)) eqn:C4.
    { intros [= <- <-]. right. split; [reflexivity|].
      exists RIGHT_ANKLE, "Right Ankle". cbn [value]. rewrite E4. simpl. auto 7. }
    intros [= <- <-]. auto.
  - intros landmarks w h c. unfold PosePenaltyKick.is_foot_touching_circle.
    induction PosePenaltyKick.leg_landmarks as [|i ids IH]; intros b xy nm; simpl.
    { intros [= <- <- <-]. auto. }
    assert (IH' : PosePenaltyKick.scan ids landmarks w h c = Returned (b, xy, nm) ->
      (b = false /\ xy = None /\ nm = None)
      \/ (b = true
          /\ exists j lm, (i = j \/ In j ids)
               /\ landmarks !! value j = Some lm
               /\ nm = Some (name j)
               /\ xy = Some (PosePenaltyKick.pixel lm w h)
               /\ PosePenaltyKick.touching landmarks w h c j = true)).
    { intros H. destruct (IH _ _ _ H) as [?|(? & j & lm & ? & ?)]; [auto|].
      right. split; [assumption|]. exists j, lm. auto. }
    destruct (Nat.ltb_spec (value i) (length landmarks)) as [Hlt|Hge]; [|exact IH'].
    destruct (index_Returned landmarks (value i) Hlt) as (lm & Hlm & ->).
    destruct (Qltb (5 # 10) (visibility lm)) eqn:Hv; [|exact IH'].
    destruct (PosePenaltyKick.calculate_distance_le _ c _) eqn:Hd; [|exact IH'].
    intros [= <- <- <-]. right. split; [reflexivity|].
    exists i, lm. repeat split; auto.
    unfold PosePenaltyKick.touching. rewrite Hlm, Hv, Hd. reflexivity.
Qed.

Lemma trigger_reports_are_sound_witness :
  exists j lbl, Some "Left Knee" = Some lbl
    /\ In (j, lbl) PenaltyKick.tracked_joints
    /\ PenaltyKick.in_circle both_knees j = true.
Proof.
  destruct trigger_reports_are_sound as [Hpk _].
  destruct (Hpk both_knees true (Some "Left Knee")) as [[H _]|[_ H]].
  - vm_compute. reflexivity.
  - discriminate H.
  - exact H.
Defined.

(** X14.  A point outside the square around the circle is outside the
    circle: [is_point_in_circle] is false when a coordinate is more than
    the radius away from the centre's, and so is the distance test of
    [pose_penalty_kick.py], which is symmetric in its two points. *)
Theorem outside_the_square_is_outside_the_circle :
  (forall px py : Q,
      (PenaltyKick.circle_radius < Qabs (px - fst PenaltyKick.circle_center)
       \/ PenaltyKick.circle_radius < Qabs (py - snd PenaltyKick.circle_center))%Q ->
      PenaltyKick.is_point_in_circle px py = false)
  /\ (forall (p q : Z * Z) (r : Z),
        0 <= r ->
        r < Z.abs (fst p - fst q) \/ r < Z.abs (snd p - snd q) ->
        PosePenaltyKick.calculate_distance_le p q r = false)
  /\ (forall (p q : Z * Z) (r : Z),
        PosePenaltyKick.calculate_distance_le p q r
        = PosePenaltyKick.calculate_distance_le q p r).
Proof.
  split; [|split].
  - intros px py H. unfold PenaltyKick.is_point_in_circle.
    destruct (Qle_bool _ _) eqn:E; [|reflexivity]. exfalso.
    apply Qle_bool_iff in E.
    unfold PenaltyKick.circle_center, PenaltyKick.circle_radius in *.
    cbn [fst snd] in *.
    set (dx := (px - (5 # 10))%Q) in *. set (dy := (py - (5 # 10))%Q) in *.
    assert (Hx : (0 <= dx * dx)%Q) by nra.
    assert (Hy : (0 <= dy * dy)%Q) by nra.
    destruct H as [H|H].
    + assert (H2 : ((15 # 100) * (15 # 100) < dx * dx)%Q).
      { revert H. apply Qabs_case; intros; nra. }
      lra.
    + assert (H2 : ((15 # 100) * (15 # 100) < dy * dy)%Q).
      { revert H. apply Qabs_case; intros; nra. }
      lra.
  - intros [p1 p2] [q1 q2] r Hr H. unfold PosePenaltyKick.calculate_distance_le.
    simpl in *. apply Z.leb_gt. nia.
  - intros [p1 p2] [q1 q2] r. unfold PosePenaltyKick.calculate_distance_le. simpl.
    f_equal. nia.
Qed.

Lemma int_bounds (q : Q) (n : Z) :
  (0 <= q)%Q -> (q <= inject_Z n)%Q -> 0 <= int q <= n.
Proof.
  unfold Qle, int. destruct q as [a b]. simpl. intros H0 Hn.
  assert (Ha : 0 <= a) by lia.
  rewrite Z.quot_div_nonneg by lia. split.
  - apply Z.div_pos; lia.
  - apply Z.div_le_upper_bound; lia.
Qed.

(** X15.  The pixel of a landmark that lies in the image lies in the
    image: with both coordinates between 0 and 1, the pixel's are between
    0 and the width, and 0 and the height. *)
Theorem pixel_inside_image (lm : Landmark) (w h : Z) :
  (0 <= x lm)%Q -> (x lm <= 1)%Q -> (0 <= y lm)%Q -> (y lm <= 1)%Q ->
  0 <= w -> 0 <= h ->
  0 <= fst (PosePenaltyKick.pixel lm w h) <= w
  /\ 0 <= snd (PosePenaltyKick.pixel lm w h) <= h.
Proof.
  intros Hx0 Hx1 Hy0 Hy1 Hw Hh. unfold PosePenaltyKick.pixel. cbn [fst snd].
  assert (Hwq : (0 <= inject_Z w)%Q) by (unfold Qle; simpl; lia).
  assert (Hhq : (0 <= inject_Z h)%Q) by (unfold Qle; simpl; lia).
  split; apply int_bounds; nra.
Qed.

Lemma pixel_inside_image_witness :
  0 <= fst (PosePenaltyKick.pixel (mkLandmark (5 # 10) (19 # 24) 1) 640 480) <= 640
  /\ 0 <= snd (PosePenaltyKick.pixel (mkLandmark (5 # 10) (19 # 24) 1) 640 480) <= 480.
Proof.
  apply pixel_inside_image; simpl; try lia; unfold Qle; simpl; lia.
Defined.

(** X16.  In [penalty_kick.py] a second trigger changes nothing after a
    first, whatever the state: the trigger sets [action_active] itself.  In
    [pose_penalty_kick.py] the trigger leaves [is_kicking] to the thread:
    a second trigger at once after one that fired starts a second thread. *)
Theorem trigger_twice :
  (forall s : PenaltyKick.state,
      PenaltyKick.trigger_penalty_kick (PenaltyKick.trigger_penalty_kick s)
      = PenaltyKick.trigger_penalty_kick s)
  /\ (forall s : PosePenaltyKick.state,
        PosePenaltyKick.is_kicking s = false ->
        (PosePenaltyKick.cooldown_duration
           <= PosePenaltyKick.clock s - PosePenaltyKick.last_kick_time s)%Q ->
        PosePenaltyKick.threads
          (PosePenaltyKick.trigger_kick (PosePenaltyKick.trigger_kick s))
        = PosePenaltyKick.threads s
          ++ [PosePenaltyKick.at_guard; PosePenaltyKick.at_guard]).
Proof.
  split.
  - intros s. destruct (PenaltyKick.action_active s) eqn:Ha.
    + rewrite !(trigger_while_active s Ha). reflexivity.
    + destruct (Qltb (PenaltyKick.clock s - PenaltyKick.last_action_time s)
                  PenaltyKick.action_cooldown) eqn:Hc.
      * apply Qltb_true in Hc. rewrite !(trigger_in_cooldown s Ha Hc). reflexivity.
      * apply Qltb_false in Hc. rewrite (trigger_fires s Ha Hc).
        apply trigger_while_active. reflexivity.
  - intros s Hk Hc. rewrite (trigger_kick_fires s Hk Hc).
    rewrite trigger_kick_fires; [|exact Hk|exact Hc].
    simpl. rewrite <- app_assoc. reflexivity.
Qed.

Lemma trigger_twice_witness :
  PosePenaltyKick.threads
    (PosePenaltyKick.trigger_kick
       (PosePenaltyKick.trigger_kick (PosePenaltyKick.init 10 [])))
  = [PosePenaltyKick.at_guard; PosePenaltyKick.at_guard].
Proof.
  destruct trigger_twice as [_ H].
  apply (H (PosePenaltyKick.init 10 [])); [reflexivity|vm_compute; discriminate].
Defined.

(** X17.  The overlay of [penalty_kick.py] against its trigger: the status
    line says ready exactly when a trigger would start a kick, and says
    executing exactly when [action_active] is set; the circle is drawn
    green whenever [action_active] is clear, so also during the cooldown,
    in which a trigger does nothing.  In [pose_penalty_kick.py] a trigger
    starts a thread exactly when neither the cooldown timer nor the kicking
    banner is drawn. *)
Theorem overlay_agrees_with_trigger :
  (forall s : PenaltyKick.state,
      ((PenaltyKick.draw_status_info s).1 = PenaltyKick.Ready
       <-> PenaltyKick.trigger_penalty_kick s <> s)
      /\ ((PenaltyKick.draw_status_info s).1 = PenaltyKick.Executing
          <-> PenaltyKick.action_active s = true)
      /\ (forall w h r,
            (PenaltyKick.draw_status_info s).1 = PenaltyKick.Cooldown r ->
            (PenaltyKick.draw_target_circle w h s).2 = (0, 255, 0)
            /\ PenaltyKick.trigger_penalty_kick s = s
            /\ (0 < r)%Q))
  /\ (forall s : PosePenaltyKick.state,
        PosePenaltyKick.trigger_kick s <> s
        <-> (PosePenaltyKick.cooldown_timer s = None
             /\ PosePenaltyKick.draw_kick_status s = false)).
Proof.
  split.
  - intros s. unfold PenaltyKick.draw_status_info, PenaltyKick.draw_target_circle,
      PenaltyKick.trigger_penalty_kick.
    destruct (PenaltyKick.action_active s) eqn:Ha; simpl.
    + repeat split; intros; try discriminate; try congruence.
    + destruct (Qltb _ _) eqn:Hc; simpl.
      * repeat split; intros; try discriminate; try congruence.
        match goal with H : PenaltyKick.Cooldown _ = PenaltyKick.Cooldown _ |- _ =>
          injection H as <- end.
        apply Qltb_true in Hc. unfold PenaltyKick.action_cooldown in *. lra.
      * repeat split; intros; try discriminate; try congruence.
        intros Heq. apply (f_equal PenaltyKick.action_active) in Heq.
        simpl in Heq. congruence.
  - intros s. unfold PosePenaltyKick.trigger_kick, PosePenaltyKick.cooldown_timer,
      PosePenaltyKick.draw_kick_status, Qltb.
    destruct (Qle_bool _ _) eqn:Hc; simpl.
    + destruct (PosePenaltyKick.is_kicking s) eqn:Hk; simpl.
      * split; [intros H; contradiction|intros [_ H]; discriminate].
      * split; [auto|]. intros _ H.
        apply (f_equal (fun t => length (PosePenaltyKick.threads t))) in H.
        simpl in H. rewrite length_app in H. simpl in H. lia.
    + split; [intros H; contradiction|intros [H _]; discriminate].
Qed.

(** X18.  When the camera cannot be opened, neither program reads a frame
    or starts a thread.  [penalty_kick.py] still runs [cleanup], so a fresh
    controller is sent the reset calls and nothing else;
    [pose_penalty_kick.py] returns with the state untouched. *)
Theorem camera_unavailable (sched_pk : list PenaltyKick.event)
    (sched_pose : list PosePenaltyKick.event) (now : Q) (fs : list bool)
    (s : PosePenaltyKick.state) :
  (let r := PenaltyKick.start_penalty_kick_gaming false
              (sched_pk, PenaltyKick.init now fs) in
   r.1 = Returned tt
   /\ r.2.1 = sched_pk
   /\ issued (PenaltyKick.gamepad r.2.2) = PenaltyKick.attempted_release fs
   /\ PenaltyKick.threads r.2.2 = []
   /\ PenaltyKick.action_active r.2.2 = false)
  /\ PosePenaltyKick.main false (sched_pose, s) = (Returned tt, (sched_pose, s)).
Proof.
  split; [|reflexivity].
  unfold PenaltyKick.start_penalty_kick_gaming, try_finally, try_except,
    PenaltyKick.start, PenaltyKick.cleanup, PenaltyKick.wait_for_action_thread,
    bind, ret, PenaltyKick.reset_gamepad, PenaltyKick.gamepad_call, call,
    PenaltyKick.init, new_gamepad, PenaltyKick.attempted_release,
    PenaltyKick.release_commands.
  cbn [negb PenaltyKick.action_thread PenaltyKick.gamepad faults issued].
  destruct fs as [|[] [|[] [|[] fs]]]; simpl; repeat split; reflexivity.
Qed.

(** * A press that fails *)

Section FailedPress.
Import PenaltyKick.

Lemma solo_step i d ds p s :
  threads s !! i = Some p -> p <> finished ->
  solo i (d :: ds) s = solo i ds (advance i d s).
Proof.
  intros Hp Hnf. simpl. unfold is_alive. rewrite Hp.
  destruct p; try reflexivity. congruence.
Qed.

Lemma advance_call i d p c next s b fs :
  threads s !! i = Some p ->
  (forall s0, execute_penalty_kick p s0 = try_call c next s0) ->
  faults (gamepad s) = b :: fs ->
  threads (advance i d s) !! i = Some (if b then at_reset_active else next)
  /\ issued (gamepad (advance i d s)) = issued (gamepad s) ++ [c]
  /\ faults (gamepad (advance i d s)) = fs.
Proof.
  intros Hp He Hf. unfold advance.
  destruct (tick_frame d s) as (Tt & Tg & _).
  destruct (wake_frame i (tick d s)) as (Wt & Wg & _).
  set (s1 := wake i (tick d s)) in *.
  assert (Hp1 : threads s1 !! i = Some p) by (rewrite Wt, Tt; exact Hp).
  assert (Hg1 : gamepad s1 = gamepad s) by congruence.
  split; [rewrite (run_thread_lookup i p s1 Hp1)|rewrite (run_thread_at i p s1 Hp1)];
    rewrite He; unfold try_call, call; rewrite Hg1, Hf; destruct b; simpl; auto.
Qed.

Lemma advance_past_calls i d p s :
  threads s !! i = Some p -> past_calls p = true ->
  gamepad (advance i d s) = gamepad s
  /\ exists p', threads (advance i d s) !! i = Some p' /\ past_calls p' = true.
Proof.
  intros Hp Hpc. unfold advance.
  destruct (tick_frame d s) as (Tt & Tg & _).
  destruct (wake_frame i (tick d s)) as (Wt & Wg & _).
  set (s1 := wake i (tick d s)) in *.
  assert (Hp1 : threads s1 !! i = Some p) by (rewrite Wt, Tt; exact Hp).
  split.
  - rewrite (run_thread_at i p s1 Hp1).
    destruct p; try discriminate Hpc; simpl; congruence.
  - exists (execute_penalty_kick p s1).1.
    split; [apply run_thread_lookup, Hp1|].
    destruct p; try discriminate Hpc; reflexivity.
Qed.

Lemma solo_past_calls i delays : forall p s,
  threads s !! i = Some p -> past_calls p = true ->
  gamepad (solo i delays s) = gamepad s.
Proof.
  induction delays as [|d ds IH]; intros p s Hp Hpc; [reflexivity|].
  simpl. destruct (is_alive i s); [|reflexivity].
  destruct (advance_past_calls i d p s Hp Hpc) as (Hg & p' & Hp' & Hpc').
  fold (advance i d s). rewrite (IH p' _ Hp' Hpc'). exact Hg.
Qed.

Lemma failed_press i (n : nat) fs delays s :
  threads s !! i = Some at_press_stick ->
  (n < 3)%nat ->
  faults (gamepad s) = replicate n false ++ true :: fs ->
  (10 <= length delays)%nat ->
  issued (gamepad (solo i delays s)) = issued (gamepad s) ++ take (S n) press_commands
  /\ faults (gamepad (solo i delays s)) = fs
  /\ action_active (solo i delays s) = false
  /\ threads (solo i delays s) !! i = Some finished.
Proof.
  intros Hp Hn Hf Hlen.
  destruct delays as [|d1 [|d2 [|d3 ds]]]; try (simpl in Hlen; lia).
  assert (Hds : (7 <= length ds)%nat) by (simpl in Hlen; lia).
  assert (Hend : forall delays' s1,
            threads s1 !! i = Some at_reset_active ->
            (2 <= length delays')%nat ->
            gamepad (solo i delays' s1) = gamepad s1
            /\ action_active (solo i delays' s1) = false
            /\ threads (solo i delays' s1) !! i = Some finished).
  { intros delays' s1 H1 Hl. split; [apply (solo_past_calls i delays' _ s1 H1 eq_refl)|].
    destruct (solo_finishes i 2 delays' at_reset_active s1 H1) as (? & ? & _);
      simpl; auto. }
  rewrite (solo_step i d1 _ _ s Hp) by discriminate.
  destruct n as [|[|[|n]]]; [| | |lia]; simpl in Hf.
  - destruct (advance_call i d1 at_press_stick _ _ s true fs Hp
                (fun _ => eq_refl) Hf) as (H1 & I1 & F1).
    destruct (Hend (d2 :: d3 :: ds) _ H1) as (Hg & Ha & Ht); [simpl; lia|].
    rewrite Hg, I1, F1. auto.
  - destruct (advance_call i d1 at_press_stick _ _ s false (true :: fs) Hp
                (fun _ => eq_refl) Hf) as (H1 & I1 & F1).
    rewrite (solo_step i d2 _ _ _ H1) by discriminate.
    destruct (advance_call i d2 at_press_button _ _ _ true fs H1
                (fun _ => eq_refl) F1) as (H2 & I2 & F2).
    destruct (Hend (d3 :: ds) _ H2) as (Hg & Ha & Ht); [simpl; lia|].
    rewrite Hg, I2, I1, F2, <- app_assoc. auto.
  - destruct (advance_call i d1 at_press_stick _ _ s false (false :: true :: fs) Hp
                (fun _ => eq_refl) Hf) as (H1 & I1 & F1).
    rewrite (solo_step i d2 _ _ _ H1) by discriminate.
    destruct (advance_call i d2 at_press_button _ _ _ false (true :: fs) H1
                (fun _ => eq_refl) F1) as (H2 & I2 & F2).
    rewrite (solo_step i d3 _ _ _ H2) by discriminate.
    destruct (advance_call i d3 at_press_update _ _ _ true fs H2
                (fun _ => eq_refl) F2) as (H3 & I3 & F3).
    destruct (Hend ds _ H3) as (Hg & Ha & Ht); [lia|].
    rewrite Hg, I3, I2, I1, F3, <- !app_assoc. auto.
Qed.

End FailedPress.

Section PoseFailedPress.
Import PosePenaltyKick.

Lemma pose_solo_step i d ds p s :
  threads s !! i = Some p -> p <> finished ->
  solo i (d :: ds) s = solo i ds (advance i d s).
Proof.
  intros Hp Hnf. simpl. unfold is_alive. rewrite Hp.
  destruct p; try reflexivity. congruence.
Qed.

Lemma pose_advance_call i d p c next s b fs :
  threads s !! i = Some p ->
  (forall s0, execute_penalty_kick p s0 = try_call c next s0) ->
  faults (gamepad s) = b :: fs ->
  threads (advance i d s) !! i = Some (if b then at_reset_kicking else next)
  /\ issued (gamepad (advance i d s)) = issued (gamepad s) ++ [c]
  /\ faults (gamepad (advance i d s)) = fs.
Proof.
  intros Hp He Hf. unfold advance.
  destruct (pose_tick_frame d s) as (Tt & Tg & _).
  destruct (pose_wake_frame i (tick d s)) as (Wt & Wg & _).
  set (s1 := wake i (tick d s)) in *.
  assert (Hp1 : threads s1 !! i = Some p) by (rewrite Wt, Tt; exact Hp).
  assert (Hg1 : gamepad s1 = gamepad s) by congruence.
  split; [rewrite (pose_run_thread_lookup i p s1 Hp1)
         |rewrite (pose_run_thread_at i p s1 Hp1)];
    rewrite He; unfold try_call, call; rewrite Hg1, Hf; destruct b; simpl; auto.
Qed.

Lemma pose_advance_prologue i d1 d2 s :
  threads s !! i = Some at_guard ->
  is_kicking s = false ->
  threads (advance i d2 (advance i d1 s)) !! i = Some at_press_stick
  /\ gamepad (advance i d2 (advance i d1 s)) = gamepad s.
Proof.
  intros Hp Hk.
  assert (H1 : threads (advance i d1 s) !! i = Some at_set_kicking
               /\ gamepad (advance i d1 s) = gamepad s).
  { unfold advance.
    destruct (pose_tick_frame d1 s) as (Tt & Tg & Ta & _).
    destruct (pose_wake_frame i (tick d1 s)) as (Wt & Wg & Wa & _).
    set (s1 := wake i (tick d1 s)) in *.
    assert (Hp1 : threads s1 !! i = Some at_guard) by (rewrite Wt, Tt; exact Hp).
    assert (Hk1 : is_kicking s1 = false) by congruence.
    split; [rewrite (pose_run_thread_lookup i _ s1 Hp1)
           |rewrite (pose_run_thread_at i _ s1 Hp1)];
      simpl; rewrite Hk1; simpl; congruence. }
  destruct H1 as [H1 G1]. unfold advance at 1 3.
  set (s0 := advance i d1 s) in *.
  destruct (pose_tick_frame d2 s0) as (Tt & Tg & _).
  destruct (pose_wake_frame i (tick d2 s0)) as (Wt & Wg & _).
  set (s1 := wake i (tick d2 s0)) in *.
  assert (Hp1 : threads s1 !! i = Some at_set_kicking) by (rewrite Wt, Tt; exact H1).
  split; [rewrite (pose_run_thread_lookup i _ s1 Hp1)
         |rewrite (pose_run_thread_at i _ s1 Hp1)];
    simpl; congruence.
Qed.

Lemma pose_advance_past_calls i d p s :
  threads s !! i = Some p -> past_calls p = true ->
  gamepad (advance i d s) = gamepad s
  /\ exists p', threads (advance i d s) !! i = Some p' /\ past_calls p' = true.
Proof.
  intros Hp Hpc. unfold advance.
  destruct (pose_tick_frame d s) as (Tt & Tg & _).
  destruct (pose_wake_frame i (tick d s)) as (Wt & Wg & _).
  set (s1 := wake i (tick d s)) in *.
  assert (Hp1 : threads s1 !! i = Some p) by (rewrite Wt, Tt; exact Hp).
  split.
  - rewrite (pose_run_thread_at i p s1 Hp1).
    destruct p; try discriminate Hpc; simpl; congruence.
  - exists (execute_penalty_kick p s1).1.
    split; [apply pose_run_thread_lookup, Hp1|].
    destruct p; try discriminate Hpc; reflexivity.
Qed.

Lemma pose_solo_past_calls i delays : forall p s,
  threads s !! i = Some p -> past_calls p = true ->
  gamepad (solo i delays s) = gamepad s.
Proof.
  induction delays as [|d ds IH]; intros p s Hp Hpc; [reflexivity|].
  simpl. destruct (is_alive i s); [|reflexivity].
  destruct (pose_advance_past_calls i d p s Hp Hpc) as (Hg & p' & Hp' & Hpc').
  fold (advance i d s). rewrite (IH p' _ Hp' Hpc'). exact Hg.
Qed.

Lemma pose_failed_press i (n : nat) fs delays s :
  threads s !! i = Some at_guard ->
  is_kicking s = false ->
  (n < 3)%nat ->
  faults (gamepad s) = replicate n false ++ true :: fs ->
  (12 <= length delays)%nat ->
  issued (gamepad (solo i delays s)) = issued (gamepad s) ++ take (S n) press_commands
  /\ faults (gamepad (solo i delays s)) = fs
  /\ is_kicking (solo i delays s) = false
  /\ threads (solo i delays s) !! i = Some finished.
Proof.
  intros Hp Hk Hn Hf Hlen.
  destruct delays as [|e1 [|e2 [|d1 [|d2 [|d3 ds]]]]]; try (simpl in Hlen; lia).
  assert (Hds : (7 <= length ds)%nat) by (simpl in Hlen; lia).
  assert (Hend : forall delays' s1,
            threads s1 !! i = Some at_reset_kicking ->
            (2 <= length delays')%nat ->
            gamepad (solo i delays' s1) = gamepad s1
            /\ is_kicking (solo i delays' s1) = false
            /\ threads (solo i delays' s1) !! i = Some finished).
  { intros delays' s1 H1 Hl.
    split; [apply (pose_solo_past_calls i delays' _ s1 H1 eq_refl)|].
    destruct (pose_solo_finishes i 2 delays' at_reset_kicking s1 H1) as (? & ? & _);
      simpl; auto. }
  destruct (pose_advance_prologue i e1 e2 s Hp Hk) as [Hp0 Hg0].
  assert (Hmid : threads (advance i e1 s) !! i = Some at_set_kicking).
  { unfold advance.
    destruct (pose_tick_frame e1 s) as (Tt & Tg & Ta & _).
    destruct (pose_wake_frame i (tick e1 s)) as (Wt & Wg & Wa & _).
    set (s1 := wake i (tick e1 s)) in *.
    assert (Hp1 : threads s1 !! i = Some at_guard) by (rewrite Wt, Tt; exact Hp).
    rewrite (pose_run_thread_lookup i _ s1 Hp1). simpl.
    replace (is_kicking s1) with false by congruence. reflexivity. }
  rewrite (pose_solo_step i e1 _ _ s Hp) by discriminate.
  rewrite (pose_solo_step i e2 _ _ _ Hmid) by discriminate.
  set (s0 := advance i e2 (advance i e1 s)) in *.
  rewrite <- Hg0 in Hf |- *.
  rewrite (pose_solo_step i d1 _ _ s0 Hp0) by discriminate.
  destruct n as [|[|[|n]]]; [| | |lia]; simpl in Hf.
  - destruct (pose_advance_call i d1 at_press_stick _ _ s0 true fs Hp0
                (fun _ => eq_refl) Hf) as (H1 & I1 & F1).
    destruct (Hend (d2 :: d3 :: ds) _ H1) as (Hg & Ha & Ht); [simpl; lia|].
    rewrite Hg, I1, F1. auto.
  - destruct (pose_advance_call i d1 at_press_stick _ _ s0 false (true :: fs) Hp0
                (fun _ => eq_refl) Hf) as (H1 & I1 & F1).
    rewrite (pose_solo_step i d2 _ _ _ H1) by discriminate.
    destruct (pose_advance_call i d2 at_press_button _ _ _ true fs H1
                (fun _ => eq_refl) F1) as (H2 & I2 & F2).
    destruct (Hend (d3 :: ds) _ H2) as (Hg & Ha & Ht); [simpl; lia|].
    rewrite Hg, I2, I1, F2, <- app_assoc. auto.
  - destruct (pose_advance_call i d1 at_press_stick _ _ s0 false
                (false :: true :: fs) Hp0 (fun _ => eq_refl) Hf) as (H1 & I1 & F1).
    rewrite (pose_solo_step i d2 _ _ _ H1) by discriminate.
    destruct (pose_advance_call i d2 at_press_button _ _ _ false (true :: fs) H1
                (fun _ => eq_refl) F1) as (H2 & I2 & F2).
    rewrite (pose_solo_step i d3 _ _ _ H2) by discriminate.
    destruct (pose_advance_call i d3 at_press_update _ _ _ true fs H2
                (fun _ => eq_refl) F2) as (H3 & I3 & F3).
    destruct (Hend ds _ H3) as (Hg & Ha & Ht); [lia|].
    rewrite Hg, I3, I2, I1, F3, <- !app_assoc. auto.
Qed.

End PoseFailedPress.

(** X19.  When one of the three press calls raises, the kick thread makes
    no further call: it does not sleep and issues no release, so what the
    press had set stays set (the stick, and B if it was the flush that
    failed); the thread still clears the flag and ends. *)
Theorem failed_press_is_not_released :
  (forall (s : PenaltyKick.state) i (n : nat) fs delays,
      PenaltyKick.threads s !! i = Some PenaltyKick.at_press_stick ->
      (n < 3)%nat ->
      faults (PenaltyKick.gamepad s) = replicate n false ++ true :: fs ->
      (10 <= length delays)%nat ->
      let s' := PenaltyKick.solo i delays s in
      issued (PenaltyKick.gamepad s')
        = issued (PenaltyKick.gamepad s) ++ take (S n) PenaltyKick.press_commands
      /\ faults (PenaltyKick.gamepad s') = fs
      /\ PenaltyKick.action_active s' = false
      /\ PenaltyKick.threads s' !! i = Some PenaltyKick.finished)
  /\ (forall (s : PosePenaltyKick.state) i (n : nat) fs delays,
        PosePenaltyKick.threads s !! i = Some PosePenaltyKick.at_guard ->
        PosePenaltyKick.is_kicking s = false ->
        (n < 3)%nat ->
        faults (PosePenaltyKick.gamepad s) = replicate n false ++ true :: fs ->
        (12 <= length delays)%nat ->
        let s' := PosePenaltyKick.solo i delays s in
        issued (PosePenaltyKick.gamepad s')
          = issued (PosePenaltyKick.gamepad s)
            ++ take (S n) PosePenaltyKick.press_commands
        /\ faults (PosePenaltyKick.gamepad s') = fs
        /\ PosePenaltyKick.is_kicking s' = false
        /\ PosePenaltyKick.threads s' !! i = Some PosePenaltyKick.finished).
Proof.
  split.
  - intros s i n fs delays Hp Hn Hf Hl s'. apply failed_press; assumption.
  - intros s i n fs delays Hp Hk Hn Hf Hl s'. apply pose_failed_press; assumption.
Qed.

Lemma failed_press_is_not_released_witness :
  issued (PenaltyKick.gamepad
            (PenaltyKick.solo 0 (replicate 10 0%Q)
               (PenaltyKick.trigger_penalty_kick
                  (PenaltyKick.init 10 [false; false; true]))))
  = PenaltyKick.press_commands.
Proof.
  destruct failed_press_is_not_released as [H _].
  apply (H (PenaltyKick.trigger_penalty_kick (PenaltyKick.init 10 [false; false; true]))
           0%nat 2%nat [] (replicate 10 0%Q));
    [reflexivity|lia|reflexivity|simpl; lia].
Defined.

(** * penalty_kick.py: the log of the controller *)

Section KickLog.
Import PenaltyKick.

Lemma flat_map_insert_same {A B} (f : A -> list B) (l : list A) i p p' :
  l !! i = Some p -> f p' = f p ->
  flat_map f (<[i := p']> l) = flat_map f l.
Proof.
  revert i. induction l as [|a l IH]; intros [|i] H E; simpl in *;
    try discriminate.
  - injection H as ->. by rewrite E.
  - f_equal. by apply IH.
Qed.

Lemma flat_map_insert_last {A B} (f : A -> list B) (l : list A) i p p' delta :
  l !! i = Some p -> S i = length l -> f p' = f p ++ delta ->
  flat_map f (<[i := p']> l) = flat_map f l ++ delta.
Proof.
  revert i. induction l as [|a l IH]; intros [|i] H Hl E; simpl in *;
    try discriminate.
  - injection H as ->. destruct l; [|simpl in Hl; lia].
    simpl. rewrite E, !app_nil_r. reflexivity.
  - rewrite <- app_assoc. f_equal. apply IH; auto; lia.
Qed.

Lemma filter_none_lookup {A} (f : A -> bool) (l : list A) :
  length (List.filter f l) = 0%nat ->
  forall i p, l !! i = Some p -> f p = false.
Proof.
  induction l as [|a l IH]; intros Hl [|i] p H; simpl in *; try discriminate.
  - injection H as ->. destruct (f p); [discriminate Hl|reflexivity].
  - destruct (f a); [discriminate Hl|]. by apply (IH Hl i).
Qed.

(** On a device that does not raise, a statement of the thread adds to
    the log what takes [issued_before] from one point to the next. *)
Lemma execute_log p s :
  faults (gamepad s) = [] ->
  exists delta,
    issued (gamepad (execute_penalty_kick p s).2) = issued (gamepad s) ++ delta
    /\ issued_before (execute_penalty_kick p s).1 = issued_before p ++ delta
    /\ faults (gamepad (execute_penalty_kick p s).2) = [].
Proof.
  intros Hf.
  destruct p; simpl; unfold try_call, call; rewrite ?Hf; simpl;
    try (eexists [_]; repeat split; reflexivity);
    try (exists []; rewrite !app_nil_r; repeat split; auto; reflexivity).
  destruct (Qle_bool until (clock s)); exists []; rewrite !app_nil_r; auto.
Qed.

Lemma not_holding_log p :
  holding p = false -> issued_before p = press_commands ++ release_commands.
Proof. destruct p; simpl; intros H; try discriminate H; reflexivity. Qed.

Lemma exec_snoc evs ev s : exec (evs ++ [ev]) s = step ev (exec evs s).
Proof. unfold exec. rewrite foldl_app. reflexivity. Qed.

Lemma kick_log_invariant now evs :
  let s := exec evs (init now []) in
  faults (gamepad s) = []
  /\ issued (gamepad s) = flat_map issued_before (threads s)
  /\ (forall i p, threads s !! i = Some p -> (S i < length (threads s))%nat ->
                  holding p = false).
Proof.
  induction evs as [|ev evs IH] using rev_ind.
  { simpl. repeat split; auto. intros i p H. discriminate H. }
  cbv zeta in *. rewrite exec_snoc.
  assert (Hr : reachable (exec evs (init now []))) by (apply reachable_exec; constructor).
  pose proof (holding_invariant _ Hr) as Hh.
  set (s := exec evs (init now [])) in *.
  destruct IH as (Hf & Hlog & Hold).
  assert (Htrig : faults (gamepad (trigger_penalty_kick s)) = []
    /\ issued (gamepad (trigger_penalty_kick s))
       = flat_map issued_before (threads (trigger_penalty_kick s))
    /\ (forall i p, threads (trigger_penalty_kick s) !! i = Some p ->
          (S i < length (threads (trigger_penalty_kick s)))%nat ->
          holding p = false)).
  { unfold trigger_penalty_kick.
    destruct (action_active s) eqn:Ha; [auto|].
    destruct (Qltb _ _); [auto|]. simpl.
    rewrite flat_map_app. simpl. rewrite app_nil_r.
    repeat split; auto.
    intros i p Hp Hlt. rewrite length_app in Hlt. simpl in Hlt.
    rewrite lookup_app_l in Hp by lia.
    apply (filter_none_lookup holding (threads s) Hh i p Hp). }
  destruct ev as [d|i|pl esc| | |]; simpl; auto.
  - destruct (tick_frame d s) as (-> & -> & _). auto.
  - destruct (threads s !! i) as [p|] eqn:Hp;
      [|unfold run_thread; rewrite Hp; auto].
    rewrite (run_thread_at i p s Hp). simpl.
    destruct (execute_log p s Hf) as (delta & Hd & Hb & Hf').
    split; [exact Hf'|].
    pose proof (lookup_lt_Some _ _ _ Hp) as Hi.
    destruct (holding p) eqn:Hhp.
    + assert (Hlast : S i = length (threads s)).
      { destruct (Nat.eq_dec (S i) (length (threads s))) as [|Hne]; [assumption|].
        rewrite (Hold i p Hp) in Hhp by lia. discriminate Hhp. }
      split.
      * rewrite Hd, Hlog.
        symmetry. apply (flat_map_insert_last _ _ i p); assumption.
      * intros j q Hq Hlt. rewrite length_insert in Hlt.
        rewrite list_lookup_insert_ne in Hq by lia. apply (Hold j q Hq Hlt).
    + assert (Hdelta : delta = []).
      { destruct p; simpl in Hhp; try discriminate Hhp; simpl in Hd;
          apply (f_equal (@length _)) in Hd; rewrite length_app in Hd;
          destruct delta; [reflexivity|simpl in Hd; lia|reflexivity|simpl in Hd; lia]. }
      subst delta. rewrite app_nil_r in Hd, Hb.
      split.
      * rewrite Hd, Hlog. symmetry.
        apply (flat_map_insert_same _ _ i p); assumption.
      * intros j q Hq Hlt. rewrite length_insert in Hlt.
        destruct (Nat.eq_dec j i) as [->|Hne].
        -- rewrite list_lookup_insert_eq in Hq by lia. injection Hq as <-.
           destruct p; simpl in Hhp; try discriminate Hhp; reflexivity.
        -- rewrite list_lookup_insert_ne in Hq by lia. apply (Hold j q Hq Hlt).
  - destruct (process_frame_state pl s) as [-> | ->]; auto.
Qed.

Lemma flat_map_rounds (ts : list pc) :
  (forall i p, ts !! i = Some p -> holding p = false) ->
  flat_map issued_before ts
  = concat (replicate (length ts) (press_commands ++ release_commands)).
Proof.
  induction ts as [|a ts IH]; intros H; [reflexivity|].
  cbn [flat_map length replicate concat].
  rewrite (not_holding_log a (H 0%nat a eq_refl)).
  f_equal. apply IH. intros i p Hp. apply (H (S i) p Hp).
Qed.

End KickLog.

(** X6.  On a controller that never raises, the kicks of [penalty_kick.py]
    do not mix their commands: in every state the loop reaches, the calls
    made so far are whole rounds of press and release, one for each earlier
    thread, followed by the calls of the last thread up to the point where
    it stands.  No press follows a press without the release between. *)
Theorem kicks_do_not_interleave (now : Q) (evs : list PenaltyKick.event) :
  let s := PenaltyKick.exec evs (PenaltyKick.init now []) in
  (PenaltyKick.threads s = [] /\ issued (PenaltyKick.gamepad s) = [])
  \/ exists ts p,
       PenaltyKick.threads s = ts ++ [p]
       /\ issued (PenaltyKick.gamepad s)
          = concat (replicate (length ts)
                      (PenaltyKick.press_commands ++ PenaltyKick.release_commands))
            ++ PenaltyKick.issued_before p.
Proof.
  intros s. destruct (kick_log_invariant now evs) as (_ & Hlog & Hold).
  fold s in Hlog, Hold.
  destruct (PenaltyKick.threads s) as [|a l] eqn:Hts using rev_ind.
  - left. split; [reflexivity|exact Hlog].
  - right. exists l, a. split; [reflexivity|].
    rewrite Hlog, flat_map_app. simpl. rewrite app_nil_r. f_equal.
    apply flat_map_rounds. intros i p Hp.
    apply (Hold i p).
    + rewrite lookup_app_l; [exact Hp|]. by apply lookup_lt_Some in Hp.
    + rewrite length_app. simpl. apply lookup_lt_Some in Hp. lia.
Qed.

(** * penalty_kick.py: how the program ends *)

Section ExitOutcomes.
Import PenaltyKick.

Lemma capture_loop_no_interrupt sched : forall s,
  Interrupt ∉ sched -> Interrupt ∉ (capture_loop sched s).2.1.
Proof.
  induction sched as [|ev rest IH]; intros s Hn; simpl; [exact Hn|].
  apply not_elem_of_cons in Hn as [Hne Hn].
  destruct ev as [d|i|pl esc| | |]; simpl; auto.
  destruct (process_frame pl s) as [[[]|e] s']; simpl; auto.
  destruct esc; simpl; auto.
Qed.

Lemma execute_extends p s :
  exists delta,
    issued (gamepad (execute_penalty_kick p s).2) = issued (gamepad s) ++ delta.
Proof.
  destruct p; simpl;
    try (match goal with
         | |- context [try_call ?c ?n s] =>
             destruct (try_call_spec c n s) as (_ & _ & _ & _ & _ & Ci & _)
         end; eexists; exact Ci);
    try (exists []; rewrite app_nil_r; reflexivity).
  destruct (Qle_bool until (clock s)); exists []; rewrite app_nil_r; reflexivity.
Qed.

Lemma step_background_extends ev s :
  exists delta,
    issued (gamepad (step_background ev s)) = issued (gamepad s) ++ delta.
Proof.
  destruct ev as [d|i|pl esc| | |]; simpl;
    try (exists []; rewrite app_nil_r; reflexivity).
  - destruct (tick_frame d s) as (_ & -> & _). exists []. by rewrite app_nil_r.
  - unfold run_thread. destruct (threads s !! i) as [p|];
      [|exists []; by rewrite app_nil_r].
    destruct (execute_extends p s) as [delta Hd].
    destruct (execute_penalty_kick p s) as [p' s']. simpl in *. eauto.
Qed.

Lemma join_no_interrupt i deadline sched : forall s,
  Interrupt ∉ sched ->
  (join i deadline sched s).1 = Returned tt
  /\ (Interrupt ∉ (join i deadline sched s).2.1)
  /\ exists mid,
       issued (gamepad (join i deadline sched s).2.2) = issued (gamepad s) ++ mid.
Proof.
  induction sched as [|ev rest IH]; intros s Hn; simpl.
  { repeat split; auto. exists []. by rewrite app_nil_r. }
  destruct (negb (is_alive i s) || Qle_bool deadline (clock s)); simpl.
  { repeat split; auto. exists []. by rewrite app_nil_r. }
  apply not_elem_of_cons in Hn as [Hne Hn].
  destruct (step_background_extends ev s) as [delta Hd].
  destruct (IH (step_background ev s) Hn) as (H1 & H2 & mid & H3).
  destruct ev as [d|j|pl esc| | |]; try congruence;
    (split; [exact H1|]; split; [exact H2|];
     exists (delta ++ mid); rewrite H3, Hd, app_assoc; reflexivity).
Qed.

Lemma cleanup_no_interrupt (st : proc) :
  Interrupt ∉ st.1 ->
  (cleanup st).1 = Returned tt
  /\ (Interrupt ∉ (cleanup st).2.1)
  /\ exists mid fs,
       issued (gamepad (cleanup st).2.2)
         = issued (gamepad st.2) ++ mid ++ attempted_release fs
       /\ (faults (gamepad st.2) = [] ->
           fs = [] /\ faults (gamepad (cleanup st).2.2) = []).
Proof.
  intros Hn. destruct st as [sched s]. simpl in Hn.
  assert (Hw : (wait_for_action_thread (sched, s)).1 = Returned tt
               /\ (Interrupt ∉ (wait_for_action_thread (sched, s)).2.1)
               /\ exists mid,
                    issued (gamepad (wait_for_action_thread (sched, s)).2.2)
                    = issued (gamepad s) ++ mid).
  { unfold wait_for_action_thread.
    destruct (action_thread s) as [i|];
      [destruct (is_alive i s); [apply join_no_interrupt, Hn|]|];
      simpl; repeat split; auto; exists []; by rewrite app_nil_r. }
  destruct (wait_for_action_thread_spec (sched, s)) as [_ Hq].
  unfold cleanup, bind.
  destruct (wait_for_action_thread (sched, s)) as [r1 [sched1 s1]].
  simpl in Hw, Hq. destruct Hw as (-> & Hn1 & mid & Hmid).
  destruct (reset_gamepad_spec sched1 s1) as (s2 & E & Hlog & Hf2).
  rewrite E. simpl. repeat split; auto.
  exists mid, (faults (gamepad s1)).
  split; [rewrite Hlog, Hmid, <- app_assoc; reflexivity|].
  intros Hf. split; [apply Hq, Hf|apply Hf2, Hq, Hf].
Qed.

Lemma capture_loop_error sched s0 e :
  (capture_loop sched s0).1 = Raised e ->
  is_KeyboardInterrupt e = false ->
  Interrupt ∉ sched ->
  (start_penalty_kick_gaming true (sched, s0)).1 = Raised e.
Proof.
  intros He Hk Hn.
  pose proof (capture_loop_no_interrupt sched s0 Hn) as Hn1.
  unfold start_penalty_kick_gaming, try_finally, try_except, start, bind. simpl.
  destruct (capture_loop sched s0) as [r1 st1]. simpl in He, Hn1. subst r1.
  rewrite Hk.
  destruct (cleanup_no_interrupt st1 Hn1) as (Hc & _).
  destruct (cleanup st1) as [r2 st2]. simpl in Hc. subst r2. reflexivity.
Qed.

Lemma capture_loop_done sched s0 :
  faults (gamepad s0) = [] ->
  Interrupt ∉ sched ->
  (capture_loop sched s0).1 = Returned tt ->
  (start_penalty_kick_gaming true (sched, s0)).1 = Returned tt
  /\ exists mid1 mid2,
       issued (gamepad (start_penalty_kick_gaming true (sched, s0)).2.2)
       = issued (gamepad (capture_loop sched s0).2.2)
           ++ mid1 ++ release_commands ++ mid2 ++ release_commands.
Proof.
  intros Hf Hn Hr.
  pose proof (capture_loop_no_interrupt sched s0 Hn) as Hn1.
  pose proof (capture_loop_quiet sched s0 Hf) as Hf1.
  unfold start_penalty_kick_gaming, try_finally, try_except, start, bind. simpl.
  destruct (capture_loop sched s0) as [r1 st1]. simpl in Hr, Hn1, Hf1 |- *. subst r1.
  destruct (cleanup_no_interrupt st1 Hn1) as (Hc & Hn2 & mid1 & fs1 & Hl1 & Hq1).
  destruct (Hq1 Hf1) as [-> Hf2].
  destruct (cleanup st1) as [r2 st2]. simpl in Hc, Hn2, Hl1, Hf2. subst r2.
  destruct (cleanup_no_interrupt st2 Hn2) as (Hc & _ & mid2 & fs2 & Hl2 & Hq2).
  destruct (Hq2 Hf2) as [-> _].
  destruct (cleanup st2) as [r3 st3]. simpl in Hc, Hl2 |- *. subst r3.
  split; [reflexivity|]. exists mid1, mid2.
  cbn [fst snd]. rewrite Hl2, Hl1. cbn [attempted_release].
  rewrite <- !app_assoc. reflexivity.
Qed.

End ExitOutcomes.

Lemma pose_main_returns camera sched (s : PosePenaltyKick.state) :
  (PosePenaltyKick.main camera (sched, s)).1 = Returned tt.
Proof.
  unfold PosePenaltyKick.main, PosePenaltyKick.run, try_except, try_finally, ret.
  destruct camera; simpl; [|reflexivity].
  destruct (PosePenaltyKick.detection_loop sched s) as [[[]|[]] st]; reflexivity.
Qed.

(** X20.  An error in the loop ends the two programs differently.  [main]
    of [pose_penalty_kick.py] returns whatever happens in its loop, the
    user's interrupt included.  [start_penalty_kick_gaming] catches the
    interrupt only: any other exception of the capture loop is raised again
    once [cleanup] has run, so the program ends with it.  A frame with a
    landmark list too short for a left knee is such a case. *)
Theorem loop_errors_end_penalty_kick_only :
  (forall camera sched (s : PosePenaltyKick.state),
      (PosePenaltyKick.main camera (sched, s)).1 = Returned tt)
  /\ (forall sched (s0 : PenaltyKick.state) e,
        (PenaltyKick.capture_loop sched s0).1 = Raised e ->
        is_KeyboardInterrupt e = false ->
        PenaltyKick.Interrupt ∉ sched ->
        (PenaltyKick.start_penalty_kick_gaming true (sched, s0)).1 = Raised e)
  /\ (forall landmarks esc rest (s0 : PenaltyKick.state),
        (length landmarks <= 25)%nat ->
        PenaltyKick.Interrupt ∉ rest ->
        (PenaltyKick.start_penalty_kick_gaming true
           (PenaltyKick.Frame (Some landmarks) esc :: rest, s0)).1
        = Raised IndexError).
Proof.
  split; [exact pose_main_returns|]. split; [exact capture_loop_error|].
  intros landmarks esc rest s0 Hl Hn.
  assert (Hc : PenaltyKick.check_leg_detection landmarks = Raised IndexError).
  { unfold PenaltyKick.check_leg_detection, index. simpl.
    rewrite (lookup_ge_None_2 landmarks 25 Hl). reflexivity. }
  apply capture_loop_error; [|reflexivity|].
  - simpl. unfold PenaltyKick.process_frame. rewrite Hc. reflexivity.
  - apply not_elem_of_cons. split; [discriminate|exact Hn].
Qed.

Lemma loop_errors_end_penalty_kick_only_witness :
  (PosePenaltyKick.main true
     ([PosePenaltyKick.Frame (Some []) 640 480 false; PosePenaltyKick.Crash],
      PosePenaltyKick.init 10 [])).1 = Returned tt
  /\ (PenaltyKick.start_penalty_kick_gaming true
        ([PenaltyKick.Frame None false; PenaltyKick.Crash], PenaltyKick.init 10 [])).1
     = Raised Exception
  /\ (PenaltyKick.start_penalty_kick_gaming true
        ([PenaltyKick.Frame (Some []) false], PenaltyKick.init 10 [])).1
     = Raised IndexError.
Proof.
  destruct loop_errors_end_penalty_kick_only as (H1 & H2 & H3).
  split; [apply H1|]. split.
  - apply H2; [reflexivity|reflexivity|].
    intros H. apply elem_of_cons in H as [H|H]; [discriminate H|].
    apply elem_of_cons in H as [H|H]; [discriminate H|].
    by apply elem_of_nil in H.
  - apply H3; [simpl; lia|apply not_elem_of_nil].
Defined.

(** X21.  When the capture loop of [penalty_kick.py] ends by itself (ESC,
    or no frame), [cleanup] runs twice: at the end of [start] and again in
    the [finally] of [start_penalty_kick_gaming].  On a controller that
    never raises, and with no interrupt from the user, the program returns
    and the reset of stick and button is sent both times. *)
Theorem normal_exit_resets_twice (sched : list PenaltyKick.event)
    (s0 : PenaltyKick.state) :
  faults (PenaltyKick.gamepad s0) = [] ->
  PenaltyKick.Interrupt ∉ sched ->
  (PenaltyKick.capture_loop sched s0).1 = Returned tt ->
  let r := PenaltyKick.start_penalty_kick_gaming true (sched, s0) in
  r.1 = Returned tt
  /\ exists mid1 mid2,
       issued (PenaltyKick.gamepad r.2.2)
       = issued (PenaltyKick.gamepad (PenaltyKick.capture_loop sched s0).2.2)
           ++ mid1 ++ PenaltyKick.release_commands
           ++ mid2 ++ PenaltyKick.release_commands.
Proof. intros Hf Hn Hr r. apply capture_loop_done; assumption. Qed.

Lemma normal_exit_resets_twice_witness :
  let r := PenaltyKick.start_penalty_kick_gaming true
             ([PenaltyKick.Frame None true], PenaltyKick.init 10 []) in
  r.1 = Returned tt
  /\ exists mid1 mid2,
       issued (PenaltyKick.gamepad r.2.2)
       = issued (PenaltyKick.gamepad
                   (PenaltyKick.capture_loop [PenaltyKick.Frame None true]
                      (PenaltyKick.init 10 [])).2.2)
           ++ mid1 ++ PenaltyKick.release_commands
           ++ mid2 ++ PenaltyKick.release_commands.
Proof.
  apply normal_exit_resets_twice; [reflexivity| |reflexivity].
  intros H. apply elem_of_cons in H as [H|H]; [discriminate H|].
  by apply elem_of_nil in H.
Defined.

(** X22.  The thread of [penalty_kick.py] clears [action_active] one
    statement before it stamps [last_action_time].  A frame with a leg in
    the circle that is handled between the two finds the flag clear and
    the old stamp, whose cooldown is long over: it starts the next kick at
    once, and the kick is running at the time that is then stamped as the
    end of the last one. *)
Theorem cooldown_skipped_between_flag_and_stamp (s : PenaltyKick.state) (i : nat)
    (landmarks : list Landmark) (detected_part : option string) (esc : bool) :
  PenaltyKick.threads s !! i = Some PenaltyKick.at_stamp_time ->
  PenaltyKick.action_active s = false ->
  (PenaltyKick.action_cooldown <= PenaltyKick.clock s - PenaltyKick.last_action_time s)%Q ->
  PenaltyKick.check_leg_detection landmarks = Returned (true, detected_part) ->
  let s1 := PenaltyKick.step (PenaltyKick.Frame (Some landmarks) esc) s in
  let s2 := PenaltyKick.step (PenaltyKick.Run i) s1 in
  PenaltyKick.threads s2
    = <[i := PenaltyKick.finished]> (PenaltyKick.threads s) ++ [PenaltyKick.at_press_stick]
  /\ PenaltyKick.action_active s2 = true
  /\ PenaltyKick.last_action_time s2 = PenaltyKick.clock s2
  /\ PenaltyKick.trigger_penalty_kick s2 = s2.
Proof.
  intros Hp Ha Hc Hd s1 s2.
  assert (H1 : s1 = PenaltyKick.trigger_penalty_kick s).
  { subst s1. simpl. unfold PenaltyKick.process_frame. rewrite Hd. reflexivity. }
  rewrite (trigger_fires s Ha Hc) in H1.
  assert (Hp1 : PenaltyKick.threads s1 !! i = Some PenaltyKick.at_stamp_time).
  { rewrite H1. simpl. rewrite lookup_app_l; [exact Hp|].
    by apply lookup_lt_Some in Hp. }
  assert (H2 : s2 = PenaltyKick.run_thread i s1) by reflexivity.
  rewrite (run_thread_at i _ s1 Hp1) in H2. simpl in H2.
  assert (Hact : PenaltyKick.action_active s2 = true) by (rewrite H2, H1; reflexivity).
  split; [|split; [exact Hact|split]].
  - rewrite H2, H1. simpl. apply insert_app_l. by apply lookup_lt_Some in Hp.
  - rewrite H2. reflexivity.
  - apply trigger_while_active, Hact.
Qed.

Lemma cooldown_skipped_between_flag_and_stamp_witness :
  let s := PenaltyKick.exec (take 13 one_kick_session) (PenaltyKick.init 100 []) in
  let s2 := PenaltyKick.step (PenaltyKick.Run 0)
              (PenaltyKick.step (PenaltyKick.Frame (Some knee_in_circle) false) s) in
  PenaltyKick.threads s2 = [PenaltyKick.finished; PenaltyKick.at_press_stick]
  /\ PenaltyKick.action_active s2 = true
  /\ PenaltyKick.last_action_time s2 = PenaltyKick.clock s2.
Proof.
  intros s s2.
  destruct (cooldown_skipped_between_flag_and_stamp s 0 knee_in_circle
              (Some "Left Knee") false) as (H1 & H2 & H3 & _).
  - reflexivity.
  - reflexivity.
  - vm_compute. discriminate.
  - vm_compute. reflexivity.
  - split; [exact H1|]. split; [exact H2|exact H3].
Defined.
